(** * transfer-file: signaling relay and chunked transfer protocol

    A shallow embedding of the room-code library ([app/lib/room.ts]), the
    three signaling route handlers over the key-value store, the sender's
    [sendFile] / [waitForBufferedLow] ([PhoneClient.tsx]) and the receiver's
    [handleDataMessage] / [handleReceiveDone] ([computer/page.tsx]); and,
    around them, the phone's room input and the test of [connect], the
    computer page as React runs it (its renders, the effect of the page
    with [cleanup], the handlers suspended at an [await]), the label of
    the countdown, and the two timed promises [sleep] and
    [waitForIceGatheringComplete].

    Conventions.
    - JavaScript numbers that the code uses as counters, sizes and offsets
      are integers and are modelled by [Z].
    - JavaScript strings are modelled by [string]; every character class
      and alphabet of the code is ASCII, and [toUpperCase] is modelled on
      ASCII text.
    - React state cells ([useState]) and refs ([useRef]) are the fields of
      one record per component, each cell at the value of its latest
      update.
    - The sender is a machine whose steps are the tasks of the event loop
      (a click, a settled promise, a timer, a channel event); [sendFile]
      advances from one [await] to the next.
    - The receiver comes twice. [Computer] has the handlers by themselves:
      one call of [handleDataMessage] applied to a state and run to its
      end, the promises it awaits settled within the call, the picker's
      outcome an input of the call, [fileMeta] read from the state.
      [ComputerPage] has the page: the handler bound to the channel
      closes over the [fileMeta] of the render that made it; a call is
      suspended at the [await] of the picker and of the stream until the
      promise settles; and between two tasks React may render and run the
      effect of the page again. React batches the state updates of a
      task.
    - [JSON.parse] and [JSON.stringify] are an interface ([JsonRuntime]);
      the theorems hold for every implementation, and [MiniJson] is a small
      one used to run the handlers on concrete inputs. *)

From Stdlib Require Import ZArith List String Ascii Strings.Byte Bool Lia QArith.
From stdpp Require Import gmap strings list pretty.

Set Warnings "-register-all".

Local Open Scope Z_scope.

(** ** JavaScript values *)

Module Js.

Inductive Value :=
| Undefined
| Null
| Bool (b : bool)
| Num (n : Z)
| Str (s : string)
| Obj (fields : list (string * Value))
| Arr (items : list Value).

(** [!value] is [negb (truthy value)]. *)
Definition truthy (v : Value) : bool :=
  match v with
  | Undefined | Null => false
  | Bool b => b
  | Num n => negb (n =? 0)
  | Str s => negb (String.eqb s "")
  | Obj _ | Arr _ => true
  end.

(** [typeof v === "object"]; [typeof null] is ["object"] too. *)
Definition typeof_object (v : Value) : bool :=
  match v with
  | Null | Obj _ | Arr _ => true
  | _ => false
  end.

(** The binding of [k] in a list of properties; of two bindings of one
    key the later one counts, as in an object literal and in [JSON.parse]. *)
Fixpoint lookup_field (k : string) (fields : list (string * Value)) : option Value :=
  match fields with
  | [] => None
  | (k', v) :: rest =>
      match lookup_field k rest with
      | Some later => Some later
      | None => if String.eqb k k' then Some v else None
      end
  end.

(** [v.k]: [None] is the [TypeError] of reading a property of [null] or
    [undefined]; the keys the code reads are own data properties of
    parsed objects, every other value answers [undefined]. *)
Definition get (v : Value) (k : string) : option Value :=
  match v with
  | Undefined | Null => None
  | Obj fields =>
      Some (match lookup_field k fields with
            | Some x => x
            | None => Undefined
            end)
  | _ => Some Undefined
  end.

(** [v?.k] *)
Definition get_opt (v : Value) (k : string) : Value :=
  match get v k with
  | Some x => x
  | None => Undefined
  end.

(** [a ?? b] *)
Definition nullish (a b : Value) : Value :=
  match a with
  | Undefined | Null => b
  | _ => a
  end.

(** [v === "s"] *)
Definition is_str (v : Value) (s : string) : bool :=
  match v with
  | Str s' => String.eqb s' s
  | _ => false
  end.

(** [String(v)], the conversion [JSON.parse] applies to its argument. *)
Fixpoint to_string (v : Value) : string :=
  match v with
  | Undefined => "undefined"
  | Null => "null"
  | Bool true => "true"
  | Bool false => "false"
  | Num n => pretty n
  | Str s => s
  | Obj _ => "[object Object]"
  | Arr items =>
      (fix join (l : list Value) : string :=
         match l with
         | [] => ""
         | x :: rest =>
             let sx := match x with Undefined | Null => "" | _ => to_string x end in
             match rest with
             | [] => sx
             | _ => sx +:+ "," +:+ join rest
             end
         end) items
  end.

End Js.

(** The two JSON builtins. [JSON_parse s = None] is a thrown [SyntaxError]. *)
Class JsonRuntime := {
  JSON_parse : string -> option Js.Value;
  JSON_stringify : Js.Value -> string
}.

(** A small JSON codec (no escapes, integers only): the fragment the
    protocol's control messages and stored descriptions use. *)
Module MiniJson.

Definition dquote : ascii := ascii_of_nat 34.
Definition backslash : ascii := ascii_of_nat 92.

Definition quoted (s : string) : string :=
  String dquote (s +:+ String dquote "").

Fixpoint stringify (v : Js.Value) : string :=
  match v with
  | Js.Undefined => "undefined"
  | Js.Null => "null"
  | Js.Bool true => "true"
  | Js.Bool false => "false"
  | Js.Num n => pretty n
  | Js.Str s => quoted s
  | Js.Obj fields =>
      "{" +:+
      (fix members (l : list (string * Js.Value)) (first : bool) : string :=
         match l with
         | [] => ""
         | (k, Js.Undefined) :: rest => members rest first
         | (k, x) :: rest =>
             (if first then "" else ",") +:+ quoted k +:+ ":" +:+ stringify x
             +:+ members rest false
         end) fields true
      +:+ "}"
  | Js.Arr items =>
      "[" +:+
      (fix elements (l : list Js.Value) (first : bool) : string :=
         match l with
         | [] => ""
         | x :: rest =>
             (if first then "" else ",")
             +:+ match x with Js.Undefined => "null" | _ => stringify x end
             +:+ elements rest false
         end) items true
      +:+ "]"
  end.

Definition is_ws (c : ascii) : bool :=
  let n := nat_of_ascii c in
  (n =? 32)%nat || (n =? 9)%nat || (n =? 10)%nat || (n =? 13)%nat.

Definition digit_of (c : ascii) : option Z :=
  let n := nat_of_ascii c in
  if (48 <=? n)%nat && (n <=? 57)%nat then Some (Z.of_nat n - 48) else None.

Fixpoint skip_ws (l : list ascii) : list ascii :=
  match l with
  | c :: rest => if is_ws c then skip_ws rest else l
  | [] => []
  end.

Fixpoint strip_prefix (p l : list ascii) : option (list ascii) :=
  match p, l with
  | [], _ => Some l
  | a :: p', b :: l' => if Ascii.eqb a b then strip_prefix p' l' else None
  | _ :: _, [] => None
  end.

Fixpoint take_digits (l : list ascii) (acc : Z) : Z * list ascii :=
  match l with
  | c :: rest =>
      match digit_of c with
      | Some d => take_digits rest (10 * acc + d)
      | None => (acc, l)
      end
  | [] => (acc, [])
  end.

(** Characters up to the closing quote; an escape or a control character
    is outside the fragment and is refused. *)
Fixpoint take_string (l : list ascii) : option (string * list ascii) :=
  match l with
  | [] => None
  | c :: rest =>
      if Ascii.eqb c dquote then Some ("", rest)
      else if Ascii.eqb c backslash || (nat_of_ascii c <? 32)%nat then None
      else match take_string rest with
           | Some (s, rest') => Some (String c s, rest')
           | None => None
           end
  end.

Definition starts_with (c : ascii) (l : list ascii) : option (list ascii) :=
  match l with
  | c' :: rest => if Ascii.eqb c c' then Some rest else None
  | [] => None
  end.

Definition number (l : list ascii) : option (Js.Value * list ascii) :=
  match l with
  | c :: rest =>
      match digit_of c with
      | Some d =>
          (* a leading zero is a complete number *)
          if (d =? 0) then Some (Js.Num 0, rest)
          else let '(n, rest') := take_digits rest d in Some (Js.Num n, rest')
      | None => None
      end
  | [] => None
  end.

Fixpoint value (fuel : nat) (l : list ascii) : option (Js.Value * list ascii) :=
  match fuel with
  | O => None
  | S fuel' =>
      let l := skip_ws l in
      match strip_prefix (list_ascii_of_string "null") l with
      | Some rest => Some (Js.Null, rest)
      | None =>
      match strip_prefix (list_ascii_of_string "true") l with
      | Some rest => Some (Js.Bool true, rest)
      | None =>
      match strip_prefix (list_ascii_of_string "false") l with
      | Some rest => Some (Js.Bool false, rest)
      | None =>
      match starts_with dquote l with
      | Some rest =>
          match take_string rest with
          | Some (s, rest') => Some (Js.Str s, rest')
          | None => None
          end
      | None =>
      match starts_with "["%char l with
      | Some rest =>
          match starts_with "]"%char (skip_ws rest) with
          | Some rest' => Some (Js.Arr [], rest')
          | None =>
              match elements fuel' rest with
              | Some (items, rest') => Some (Js.Arr items, rest')
              | None => None
              end
          end
      | None =>
      match starts_with "{"%char l with
      | Some rest =>
          match starts_with "}"%char (skip_ws rest) with
          | Some rest' => Some (Js.Obj [], rest')
          | None =>
              match members fuel' rest with
              | Some (fields, rest') => Some (Js.Obj fields, rest')
              | None => None
              end
          end
      | None =>
      match starts_with "-"%char l with
      | Some rest =>
          match number rest with
          | Some (Js.Num n, rest') => Some (Js.Num (- n), rest')
          | _ => None
          end
      | None => number l
      end end end end end end end
  end
with elements (fuel : nat) (l : list ascii) : option (list Js.Value * list ascii) :=
  match fuel with
  | O => None
  | S fuel' =>
      match value fuel' l with
      | Some (x, rest) =>
          let rest := skip_ws rest in
          match starts_with ","%char rest with
          | Some rest' =>
              match elements fuel' rest' with
              | Some (xs, rest'') => Some (x :: xs, rest'')
              | None => None
              end
          | None =>
              match starts_with "]"%char rest with
              | Some rest' => Some ([x], rest')
              | None => None
              end
          end
      | None => None
      end
  end
with members (fuel : nat) (l : list ascii) : option (list (string * Js.Value) * list ascii) :=
  match fuel with
  | O => None
  | S fuel' =>
      match starts_with dquote (skip_ws l) with
      | Some rest =>
          match take_string rest with
          | Some (k, rest) =>
              match starts_with ":"%char (skip_ws rest) with
              | Some rest =>
                  match value fuel' rest with
                  | Some (x, rest) =>
                      let rest := skip_ws rest in
                      match starts_with ","%char rest with
                      | Some rest' =>
                          match members fuel' rest' with
                          | Some (fs, rest'') => Some ((k, x) :: fs, rest'')
                          | None => None
                          end
                      | None =>
                          match starts_with "}"%char rest with
                          | Some rest' => Some ([(k, x)], rest')
                          | None => None
                          end
                      end
                  | None => None
                  end
              | None => None
              end
          | None => None
          end
      | None => None
      end
  end.

Definition parse (s : string) : option Js.Value :=
  let l := list_ascii_of_string s in
  match value (S (List.length l)) l with
  | Some (v, rest) =>
      match skip_ws rest with
      | [] => Some v
      | _ => None
      end
  | None => None
  end.

End MiniJson.

#[local] Instance mini_json : JsonRuntime := {
  JSON_parse := MiniJson.parse;
  JSON_stringify := MiniJson.stringify
}.

(** ** Room codes ([app/lib/room.ts]) *)

Module Room.

(** The fragment of regular expressions [ROOM_ID_REGEX] is written in:
    [/^[ranges]{count}$/]. *)
Record CharRange := { range_lo : ascii; range_hi : ascii }.

Record Regex := { char_class : list CharRange; repeat_count : nat }.

Definition in_range (c : ascii) (r : CharRange) : bool :=
  (N_of_ascii (range_lo r) <=? N_of_ascii c)%N
  && (N_of_ascii c <=? N_of_ascii (range_hi r))%N.

Definition class_matches (cls : list CharRange) (c : ascii) : bool :=
  existsb (in_range c) cls.

(** Consumes [n] characters of the class; the rest of the input is returned. *)
Fixpoint match_repeat (cls : list CharRange) (n : nat) (s : string) : option string :=
  match n with
  | O => Some s
  | S n' =>
      match s with
      | String c rest =>
          if class_matches cls c then match_repeat cls n' rest else None
      | EmptyString => None
      end
  end.

(** [re.test(s)]: [^] anchors the match at the start, [$] (no [m] flag) at
    the end of the input. *)
Definition test (re : Regex) (s : string) : bool :=
  match match_repeat (char_class re) (repeat_count re) s with
  | Some EmptyString => true
  | _ => false
  end.

(** [/^[A-Z0-9]{6}$/] *)
Definition ROOM_ID_REGEX : Regex :=
  {| char_class := [ {| range_lo := "A"; range_hi := "Z" |};
                     {| range_lo := "0"; range_hi := "9" |} ];
     repeat_count := 6 |}.

Definition isValidRoomId (roomId : string) : bool := test ROOM_ID_REGEX roomId.

Definition ROOM_ALPHABET : string := "ABCDEFGHJKLMNPQRSTUVWXYZ0123456789".

(** [ROOM_ALPHABET[i]] converted to a string, as [result += ...] does. *)
Definition alphabet_at (i : Z) : string :=
  match String.get (Z.to_nat i) ROOM_ALPHABET with
  | Some c => String c EmptyString
  | None => "undefined"
  end.

(** The body of the loop: [bytes[i] % ROOM_ALPHABET.length] indexes the
    alphabet. *)
Definition symbol (b : Z) : string :=
  alphabet_at (Z.rem b (Z.of_nat (String.length ROOM_ALPHABET))).

(** The character of [symbol b]. *)
Definition symbol_char (b : Z) : ascii :=
  nth (Z.to_nat (Z.rem b 34)) (list_ascii_of_string ROOM_ALPHABET) "A"%char.

(** The loop of [generateRoomId] over the filled array. *)
Definition encode (bytes : list Z) : string :=
  fold_left (fun result b => result +:+ symbol b) bytes "".

(** [crypto.getRandomValues]: the source of random bytes is a stream that
    is read from left to right; a [Uint8Array] element holds a value
    modulo 256. *)
Record Crypto := { feed : nat -> Z; drawn : nat }.

Definition getRandomValues (n : nat) (c : Crypto) : list Z * Crypto :=
  (map (fun i => feed c (drawn c + i)%nat mod 256) (seq 0 n),
   {| feed := feed c; drawn := (drawn c + n)%nat |}).

Definition generateRoomId (c : Crypto) : string * Crypto :=
  let '(bytes, c') := getRandomValues 6 c in
  (encode bytes, c').

(** *** The spec's words for [validate] *)

Definition toUpperCase_char (c : ascii) : ascii :=
  let n := nat_of_ascii c in
  if (97 <=? n)%nat && (n <=? 122)%nat then ascii_of_nat (n - 32) else c.

(** [s.toUpperCase()] of ASCII text: the letters a-z become A-Z and
    every other character stays. Text outside ASCII is not modelled. *)
Fixpoint toUpperCase (s : string) : string :=
  match s with
  | EmptyString => EmptyString
  | String c rest => String (toUpperCase_char c) (toUpperCase rest)
  end.

Definition in_alphabet (c : ascii) : bool :=
  existsb (Ascii.eqb c) (list_ascii_of_string ROOM_ALPHABET).

(** "exactly 6 characters from the unambiguous alphabet (case-normalized
    to uppercase before comparison)" *)
Definition validate_spec (candidate : string) : bool :=
  let u := toUpperCase candidate in
  (String.length u =? 6)%nat && forallb in_alphabet (list_ascii_of_string u).

(** *** The sample space of one generated id *)

(** All values of one [Uint8Array] element. *)
Definition byte_values : list Z := map Z.of_nat (seq 0 256).

(** All contents of a [Uint8Array] of length [n]. *)
Fixpoint outcomes (n : nat) : list (list Z) :=
  match n with
  | O => [[]]
  | S n' => flat_map (fun b => map (cons b) (outcomes n')) byte_values
  end.

(** Number of byte values mapped to the one-character string of [c]. *)
Definition ways_symbol (c : ascii) : nat :=
  List.length (List.filter (fun b => String.eqb (symbol b) (String c EmptyString)) byte_values).

(** Number of arrays of length [n] that [encode] maps to [id]. *)
Definition ways_id (n : nat) (id : string) : nat :=
  List.length (List.filter (fun bs => String.eqb (encode bs) id) (outcomes n)).

(** Probability of a symbol when the byte is uniform over 0..255. *)
Definition Pr_symbol (c : ascii) : Q :=
  Z.of_nat (ways_symbol c) # 256.

End Room.

(** ** The signaling relay (route handlers over the key-value store) *)

Module Relay.
Import Js.

Definition ROOM_TTL_SECONDS : Z := 300.

(** The store keeps, per key, the value and the seconds it has left. *)
Record Entry := { entry_value : Value; entry_ttl : Z }.

Inductive KvOp :=
| KvGet (key : string)
| KvSet (key : string) (v : Value) (ex : Z).

(** What a handler runs against: the store, the requests it has made to
    the store so far, and the random source. *)
Record Server := {
  kv : gmap string Entry;
  kv_log : list KvOp;
  crypto : Room.Crypto
}.

Inductive Outcome (A : Type) :=
| Returned (a : A)
| Thrown (e : string).
Arguments Returned {A} a.
Arguments Thrown {A} e.

Definition Async (A : Type) : Type := Server -> Outcome A * Server.

Definition ret {A} (a : A) : Async A := fun s => (Returned a, s).

Definition throw {A} (e : string) : Async A := fun s => (Thrown e, s).

Definition bind {A B} (m : Async A) (k : A -> Async B) : Async B :=
  fun s =>
    match m s with
    | (Returned a, s') => k a s'
    | (Thrown e, s') => (Thrown e, s')
    end.

Notation "'await' x := m 'in' k" := (bind m (fun x => k))
  (at level 10, x name, m at level 100, k at level 200).
Notation "'await_' m 'in' k" := (bind m (fun _ => k))
  (at level 10, m at level 100, k at level 200).

Definition live (e : Entry) : bool := 0 <? entry_ttl e.

(** [kv.get(key)]: [null] for a key that is absent or has expired. *)
Definition read (m : gmap string Entry) (key : string) : Value :=
  match m !! key with
  | Some e => if live e then entry_value e else Null
  | None => Null
  end.

Definition logged (op : KvOp) (s : Server) : Server :=
  {| kv := kv s; kv_log := kv_log s ++ [op]; crypto := crypto s |}.

Definition stored (key : string) (e : Entry) (s : Server) : Server :=
  {| kv := <[ key := e ]> (kv s); kv_log := kv_log s; crypto := crypto s |}.

Definition kv_get (key : string) : Async Value :=
  fun s => (Returned (read (kv s) key), logged (KvGet key) s).

(** [kv.set(key, value, { ex })] *)
Definition kv_set (key : string) (v : Value) (ex : Z) : Async unit :=
  fun s =>
    (Returned tt,
     logged (KvSet key v ex) (stored key {| entry_value := v; entry_ttl := ex |} s)).

(** The store after [seconds] have passed. *)
Definition elapse (seconds : Z) (m : gmap string Entry) : gmap string Entry :=
  omap (fun e =>
          if seconds <? entry_ttl e
          then Some {| entry_value := entry_value e; entry_ttl := entry_ttl e - seconds |}
          else None) m.

Definition generateRoomId : Async string :=
  fun s =>
    let '(id, c) := Room.generateRoomId (crypto s) in
    (Returned id, {| kv := kv s; kv_log := kv_log s; crypto := c |}).

Inductive Response :=
| TextResponse (body : string) (status : Z)
| JsonResponse (body : Value).

Definition exists_key (roomId : string) : string := "room:" +:+ roomId +:+ ":exists".

(** *** [POST /api/signaling/create] *)

(** The [while] loop, lines 11-14. [existsKey] is the constant of line 8;
    [roomId] and [attempt] are the loop's variables. The loop runs at most
    six tests; [fuel] counts them. *)
Fixpoint create_loop (fuel : nat) (existsKey roomId : string) (attempt : Z)
  : Async (option string) :=
  match fuel with
  | O => ret None
  | S fuel' =>
      await marker := kv_get existsKey in
      if truthy marker && (attempt <? 5)
      then await roomId' := generateRoomId in
           create_loop fuel' existsKey roomId' (attempt + 1)
      else ret (Some roomId)
  end.

Definition POST_create : Async Response :=
  await roomId := generateRoomId in
  let existsKey := exists_key roomId in
  await looped := create_loop 6 existsKey roomId 0 in
  match looped with
  | None => throw "loop bound"
  | Some roomId =>
      await_ kv_set (exists_key roomId) (Str "1") ROOM_TTL_SECONDS in
      ret (JsonResponse (Obj [("roomId", Str roomId)]))
  end.

(** The spec's words for [createRoom]: the marker that is tested is the
    one of the current candidate. *)
Fixpoint createRoom_spec_loop (retries : nat) (roomId : string) : Async string :=
  await marker := kv_get (exists_key roomId) in
  match retries with
  | S retries' =>
      if truthy marker
      then await roomId' := generateRoomId in createRoom_spec_loop retries' roomId'
      else ret roomId
  | O => ret roomId
  end.

Definition createRoom_spec : Async Response :=
  await roomId := generateRoomId in
  await roomId := createRoom_spec_loop 5 roomId in
  await_ kv_set (exists_key roomId) (Str "1") ROOM_TTL_SECONDS in
  ret (JsonResponse (Obj [("roomId", Str roomId)])).

Section Handlers.
Context {json : JsonRuntime}.

(** *** [POST /api/signaling/[roomId]] *)

(** [request.json()]: [None] is a body that is not JSON. *)
Record Request := { json_body : option Value }.

Definition request_json (request : Request) : Async Value :=
  match json_body request with
  | Some v => ret v
  | None => throw "SyntaxError"
  end.

Definition prop (v : Value) (k : string) : Async Value :=
  match get v k with
  | Some x => ret x
  | None => throw "TypeError"
  end.

Definition POST_publish (roomId : string) (request : Request) : Async Response :=
  if negb (Room.isValidRoomId roomId)
  then ret (TextResponse "Invalid room" 400)
  else
    let existsKey := exists_key roomId in
    await marker := kv_get existsKey in
    if negb (truthy marker)
    then ret (TextResponse "Room not found" 404)
    else
      await body := request_json request in
      await type := prop body "type" in
      if negb (is_str type "offer") && negb (is_str type "answer")
      then ret (TextResponse "Invalid payload" 400)
      else
        await data := prop body "data" in
        if negb (truthy data) || negb (typeof_object data)
        then ret (TextResponse "Invalid payload" 400)
        else
          let key := "room:" +:+ roomId +:+ ":" +:+ to_string type in
          await_ kv_set key (Str (JSON_stringify data)) ROOM_TTL_SECONDS in
          await_ kv_set existsKey (Str "1") ROOM_TTL_SECONDS in
          ret (JsonResponse (Obj [("ok", Bool true)])).

(** *** [GET] poll, with [safeParse] and the legacy record *)

Definition safeParse (v : Value) : Value :=
  if negb (truthy v) then Null
  else match v with
       | Str s =>
           match JSON_parse s with
           | Some parsed => parsed
           | None => Null
           end
       | _ => if typeof_object v then v else Null
       end.

Definition poll_response (offer answer : Value) : Response :=
  JsonResponse (Obj [("offer", offer); ("answer", answer)]).

Definition GET_poll (roomId : string) : Async Response :=
  if negb (Room.isValidRoomId roomId)
  then ret (TextResponse "Invalid room" 400)
  else
    let existsKey := exists_key roomId in
    await marker := kv_get existsKey in
    if negb (truthy marker)
    then ret (TextResponse "Room not found" 404)
    else
      await offerValue := kv_get ("room:" +:+ roomId +:+ ":offer") in
      await answerValue := kv_get ("room:" +:+ roomId +:+ ":answer") in
      await legacyRoom := kv_get ("room:" +:+ roomId) in
      let legacy := safeParse legacyRoom in
      let offer := nullish (nullish (safeParse offerValue) (get_opt legacy "offer")) Null in
      let answer := nullish (nullish (safeParse answerValue) (get_opt legacy "answer")) Null in
      ret (poll_response offer answer).

(** What [GET_poll] answers for one field, read off the store. *)
Definition poll_field (s : Server) (roomId field : string) : Value :=
  nullish
    (nullish (safeParse (read (kv s) ("room:" +:+ roomId +:+ ":" +:+ field)))
             (get_opt (safeParse (read (kv s) ("room:" +:+ roomId))) field))
    Null.

(** *** [GET] poll, the handler that parses the two keys directly *)

(** [v ? JSON.parse(v) : null] *)
Definition parse_or_null (v : Value) : Async Value :=
  if truthy v
  then match JSON_parse (to_string v) with
       | Some parsed => ret parsed
       | None => throw "SyntaxError"
       end
  else ret Null.

Definition GET_poll_direct (roomId : string) : Async Response :=
  if negb (Room.isValidRoomId roomId)
  then ret (TextResponse "Invalid room" 400)
  else
    let existsKey := exists_key roomId in
    await marker := kv_get existsKey in
    if negb (truthy marker)
    then ret (TextResponse "Room not found" 404)
    else
      await offer := kv_get ("room:" +:+ roomId +:+ ":offer") in
      await answer := kv_get ("room:" +:+ roomId +:+ ":answer") in
      await offer' := parse_or_null offer in
      await answer' := parse_or_null answer in
      ret (poll_response offer' answer').

End Handlers.

Definition is_get (op : KvOp) : bool :=
  match op with
  | KvGet _ => true
  | KvSet _ _ _ => false
  end.

(** A handler that took [s] to [s'] without writing: store and random
    source are equal, and the requests it added are all [get]s. *)
Definition read_only (s s' : Server) : Prop :=
  kv s' = kv s /\ crypto s' = crypto s /\
  exists ops, kv_log s' = kv_log s ++ ops /\ forallb is_get ops = true.

(** [SignalType] and a request body of type [SignalPostBody] whose [data]
    is a description object. *)
Inductive SignalType := Offer | Answer.

Definition signal_name (t : SignalType) : string :=
  match t with
  | Offer => "offer"
  | Answer => "answer"
  end.

Definition publish_request (role : SignalType) (description : list (string * Value))
  : Request :=
  {| json_body := Some (Obj [("type", Str (signal_name role)); ("data", Obj description)]) |}.

(** What [kv.set(key, v, { ex: ROOM_TTL_SECONDS })] leaves under the key. *)
Definition fresh (v : Value) : Entry :=
  {| entry_value := v; entry_ttl := ROOM_TTL_SECONDS |}.

(** The [k]-th room id a handler draws from the random source [c]. *)
Definition candidate (k : nat) (c : Room.Crypto) : string :=
  fst (Room.generateRoomId
         {| Room.feed := Room.feed c; Room.drawn := (Room.drawn c + 6 * k)%nat |}).

(** A server whose random source yields the bytes 0,0,0,0,0,0, 1,1,1,1,1,1,
    2,...: the candidates are AAAAAA, BBBBBB, CCCCCC, ... *)
Definition server_with (m : gmap string Entry) : Server :=
  {| kv := m; kv_log := [];
     crypto := {| Room.feed := fun i => Z.of_nat (i / 6); Room.drawn := 0 |} |}.

(** Stores the handlers are run on below. *)

(** The first and the sixth candidate of [server_with] are live rooms. *)
Definition store_A_F : gmap string Entry :=
  <[ "room:FFFFFF:exists" := fresh (Str "1") ]>
    {[ "room:AAAAAA:exists" := fresh (Str "1") ]}.

Definition description : Value := Obj [("type", Str "offer"); ("sdp", Str "v=0")].

(** A room whose offer key holds the description as an object. *)
Definition store_offer_object : gmap string Entry :=
  <[ "room:ABC123:offer" := fresh description ]>
    {[ "room:ABC123:exists" := fresh (Str "1") ]}.

(** A room whose offer key holds a string that is not JSON. *)
Definition store_offer_broken : gmap string Entry :=
  <[ "room:ABC123:offer" := fresh (Str "{bad") ]>
    {[ "room:ABC123:exists" := fresh (Str "1") ]}.

(** A room with the legacy combined record only. *)
Definition store_legacy : gmap string Entry :=
  <[ "room:ABC123" := fresh (Str (MiniJson.stringify (Obj [("offer", description)]))) ]>
    {[ "room:ABC123:exists" := fresh (Str "1") ]}.

End Relay.

(** ** The peer channel *)

Module Wire.

(** [event.data] / the argument of [channel.send]: a string or an
    [ArrayBuffer]. *)
Inductive Data :=
| Text (s : string)
| Binary (buffer : list byte).

Definition byteLength (buffer : list byte) : Z := Z.of_nat (List.length buffer).

Definition data_size (d : Data) : Z :=
  match d with
  | Text s => Z.of_nat (String.length s)
  | Binary buffer => byteLength buffer
  end.


Inductive ReadyState := Connecting | Open | Closing | Closed.

(** The sending side of an [RTCDataChannel]. [outbox] lists what was
    handed to [send], in order, each with the [bufferedAmount] that the
    call found. *)
Record Channel := {
  readyState : ReadyState;
  bufferedAmount : Z;
  bufferedAmountLowThreshold : Z;
  outbox : list (Data * Z)
}.

(** [channel.send(data)]: [None] is the [InvalidStateError] of a channel
    that is not open. *)
Definition send (d : Data) (ch : Channel) : option Channel :=
  match readyState ch with
  | Open =>
      Some {| readyState := Open;
              bufferedAmount := bufferedAmount ch + data_size d;
              bufferedAmountLowThreshold := bufferedAmountLowThreshold ch;
              outbox := outbox ch ++ [(d, bufferedAmount ch)] |}
  | _ => None
  end.

Definition close (ch : Channel) : Channel :=
  {| readyState := match readyState ch with Closed => Closed | _ => Closing end;
     bufferedAmount := bufferedAmount ch;
     bufferedAmountLowThreshold := bufferedAmountLowThreshold ch;
     outbox := outbox ch |}.

(** The transport has put [n] more bytes on the network. *)
Definition transmit (n : N) (ch : Channel) : Channel :=
  {| readyState := readyState ch;
     bufferedAmount := Z.max 0 (bufferedAmount ch - Z.of_N n);
     bufferedAmountLowThreshold := bufferedAmountLowThreshold ch;
     outbox := outbox ch |}.

(** What the peer receives: the transport delivers in order. *)
Definition sent (ch : Channel) : list Data := map fst (outbox ch).

Definition meta_message (name : string) (size : Z) (mime : string) : Js.Value :=
  Js.Obj [("type", Js.Str "meta"); ("name", Js.Str name);
          ("size", Js.Num size); ("mime", Js.Str mime)].

Definition done_message : Js.Value := Js.Obj [("type", Js.Str "done")].

End Wire.

(** ** The sender ([PhoneClient.tsx]) *)

Module Phone.
Import Wire.

Definition CHUNK_SIZE : Z := 256 * 1024.
Definition BUFFERED_HIGH_WATER_MARK : Z := 16 * 1024 * 1024.
Definition BUFFERED_LOW_WATER_MARK : Z := 4 * 1024 * 1024.

Inductive Status :=
| Idle | Waiting | Connecting | Ready | Sending | Completed | Error | Expired.

Record File := { file_name : string; file_bytes : list byte; file_type : string }.

Definition file_size (f : File) : Z := byteLength (file_bytes f).

(** [file.slice(start, end)] followed by [arrayBuffer()]. *)
Definition slice (f : File) (start end_ : Z) : list byte :=
  firstn (Z.to_nat (end_ - start)) (skipn (Z.to_nat start) (file_bytes f)).

(** The promise of [waitForBufferedLow] while it is pending. *)
Inductive Wait :=
| Listening (watchdog_due : Z)   (* [onLow] registered, the 2000 ms timeout armed *)
| Polling (next_tick : Z).       (* [onLow] removed, the 200 ms interval armed *)

(** The [await] at which the running call of [sendFile] is suspended. *)
Inductive Pc :=
| NotRunning
| AwaitBufferedLow (w : Wait)    (* line 276 *)
| AwaitArrayBuffer               (* line 278 *)
| AwaitYield                     (* line 284 *)
| Finished                       (* the [try] block was left at its end *)
| Caught.                        (* the [try] block was left through [catch] *)

(** The component: its state cells, the channel its ref points to, the
    locals of the running [sendFile], and the clock of the event loop
    (milliseconds). *)
Record Sender := {
  status : Status;
  error : option string;
  selectedFile : option File;
  bytesSent : Z;
  channelRef : option Channel;
  pc : Pc;
  offset : Z;
  chunkCount : Z;
  clock : Z
}.

Definition setStatus (x : Status) (s : Sender) : Sender :=
  {| status := x; error := error s; selectedFile := selectedFile s;
     bytesSent := bytesSent s; channelRef := channelRef s; pc := pc s;
     offset := offset s; chunkCount := chunkCount s; clock := clock s |}.

Definition setError (x : option string) (s : Sender) : Sender :=
  {| status := status s; error := x; selectedFile := selectedFile s;
     bytesSent := bytesSent s; channelRef := channelRef s; pc := pc s;
     offset := offset s; chunkCount := chunkCount s; clock := clock s |}.

Definition setSelectedFile (x : option File) (s : Sender) : Sender :=
  {| status := status s; error := error s; selectedFile := x;
     bytesSent := bytesSent s; channelRef := channelRef s; pc := pc s;
     offset := offset s; chunkCount := chunkCount s; clock := clock s |}.

Definition setBytesSent (x : Z) (s : Sender) : Sender :=
  {| status := status s; error := error s; selectedFile := selectedFile s;
     bytesSent := x; channelRef := channelRef s; pc := pc s;
     offset := offset s; chunkCount := chunkCount s; clock := clock s |}.

Definition set_channel (x : option Channel) (s : Sender) : Sender :=
  {| status := status s; error := error s; selectedFile := selectedFile s;
     bytesSent := bytesSent s; channelRef := x; pc := pc s;
     offset := offset s; chunkCount := chunkCount s; clock := clock s |}.

Definition set_pc (x : Pc) (s : Sender) : Sender :=
  {| status := status s; error := error s; selectedFile := selectedFile s;
     bytesSent := bytesSent s; channelRef := channelRef s; pc := x;
     offset := offset s; chunkCount := chunkCount s; clock := clock s |}.

Definition set_offset (x : Z) (s : Sender) : Sender :=
  {| status := status s; error := error s; selectedFile := selectedFile s;
     bytesSent := bytesSent s; channelRef := channelRef s; pc := pc s;
     offset := x; chunkCount := chunkCount s; clock := clock s |}.

Definition set_chunkCount (x : Z) (s : Sender) : Sender :=
  {| status := status s; error := error s; selectedFile := selectedFile s;
     bytesSent := bytesSent s; channelRef := channelRef s; pc := pc s;
     offset := offset s; chunkCount := x; clock := clock s |}.

Definition set_clock (x : Z) (s : Sender) : Sender :=
  {| status := status s; error := error s; selectedFile := selectedFile s;
     bytesSent := bytesSent s; channelRef := channelRef s; pc := pc s;
     offset := offset s; chunkCount := chunkCount s; clock := x |}.

(** The message of the exception [channel.send] throws. *)
Definition InvalidStateError : string := "InvalidStateError".

(** [catch (err)], lines 294-297. *)
Definition catch (message : string) (s : Sender) : Sender :=
  set_pc Caught (setStatus Error (setError (Some message) s)).

Section Run.
Context {json : JsonRuntime}.

Definition meta_of (f : File) : Js.Value :=
  meta_message (file_name f) (file_size f)
    (if String.eqb (file_type f) "" then "application/octet-stream" else file_type f).

(** Lines 288-293: after the loop. *)
Definition after_loop (ch : Channel) (s : Sender) : Sender :=
  match send (Text (JSON_stringify done_message)) ch with
  | Some ch' => set_pc Finished (set_channel (Some (close ch')) (setStatus Completed s))
  | None => catch InvalidStateError s
  end.

(** Lines 275-278: the loop test and the call of [waitForBufferedLow]
    (lines 211-234), up to the [await] at which the call is suspended. A
    promise that is already settled lets the call run on to
    [slice.arrayBuffer()]. *)
Definition loop_head (s : Sender) : Sender :=
  match selectedFile s, channelRef s with
  | Some f, Some ch =>
      if offset s <? file_size f
      then if bufferedAmount ch <=? BUFFERED_HIGH_WATER_MARK
           then set_pc AwaitArrayBuffer s
           else set_pc (AwaitBufferedLow (Listening (clock s + 2000))) s
      else after_loop ch s
  | _, _ => s
  end.

(** Lines 279-285: from the array buffer to the end of the loop body. *)
Definition after_read (s : Sender) : Sender :=
  match selectedFile s, channelRef s with
  | Some f, Some ch =>
      let buffer := slice f (offset s) (offset s + CHUNK_SIZE) in
      match send (Binary buffer) ch with
      | Some ch' =>
          let offset' := offset s + byteLength buffer in
          let chunkCount' := chunkCount s + 1 in
          let s' := set_chunkCount chunkCount'
                      (setBytesSent offset' (set_offset offset' (set_channel (Some ch') s))) in
          if Z.rem chunkCount' 8 =? 0 then set_pc AwaitYield s' else loop_head s'
      | None => catch InvalidStateError s
      end
  | _, _ => s
  end.

(** Lines 244-273: [sendFile] up to the loop. *)
Definition sendFile (s : Sender) : Sender :=
  match selectedFile s, channelRef s with
  | Some f, Some ch =>
      match readyState ch with
      | Open =>
          let s := setBytesSent 0 (setStatus Sending s) in
          match send (Text (JSON_stringify (meta_of f))) ch with
          | Some ch' => loop_head (set_chunkCount 0 (set_offset 0 (set_channel (Some ch') s)))
          | None => catch InvalidStateError s
          end
      | _ => setStatus Error (setError (Some "Connection not ready yet. Please try again.") s)
      end
  | _, _ => setStatus Error (setError (Some "Choose a file before sending.") s)
  end.

(** What the event loop may run next. *)
Inductive Event :=
| Click_send                 (* the "Send file" button *)
| ArrayBufferReady           (* [slice.arrayBuffer()] settles *)
| YieldTimer                 (* the [setTimeout(resolve, 0)] of line 284 *)
| BufferedAmountLow          (* the channel dispatches [bufferedamountlow] *)
| WatchdogTimer              (* the 2000 ms timeout of [waitForBufferedLow] *)
| IntervalTimer              (* the 200 ms interval of [waitForBufferedLow] *)
| Transmit (n : N)           (* the transport sends [n] buffered bytes *)
| Elapse (ms : N)            (* time passes *)
| ChannelClose.              (* the channel dispatches [close] *)

Definition on_channel (g : Channel -> Channel) (s : Sender) : Sender :=
  match channelRef s with
  | Some ch => set_channel (Some (g ch)) s
  | None => s
  end.

Definition set_closed (ch : Channel) : Channel :=
  {| readyState := Closed; bufferedAmount := bufferedAmount ch;
     bufferedAmountLowThreshold := bufferedAmountLowThreshold ch;
     outbox := outbox ch |}.

(** One task of the event loop. A timer callback runs only when its
    delay has passed; an event nothing listens to changes nothing. *)
Definition step (s : Sender) (e : Event) : Sender :=
  match e, pc s with
  | Click_send, _ =>
      (* the button is disabled unless [status === "ready"] *)
      match status s with
      | Ready => sendFile s
      | _ => s
      end
  | ArrayBufferReady, AwaitArrayBuffer => after_read s
  | YieldTimer, AwaitYield => loop_head s
  | BufferedAmountLow, AwaitBufferedLow (Listening _) =>
      (* [onLow]: the promise resolves, the timeout is cleared *)
      set_pc AwaitArrayBuffer s
  | WatchdogTimer, AwaitBufferedLow (Listening due) =>
      if due <=? clock s
      then set_pc (AwaitBufferedLow (Polling (clock s + 200))) s
      else s
  | IntervalTimer, AwaitBufferedLow (Polling due) =>
      if due <=? clock s
      then match channelRef s with
           | Some ch =>
               if bufferedAmount ch <=? BUFFERED_LOW_WATER_MARK
               then set_pc AwaitArrayBuffer s
               else set_pc (AwaitBufferedLow (Polling (due + 200))) s
           | None => s
           end
      else s
  | Transmit n, _ => on_channel (transmit n) s
  | Elapse ms, _ => set_clock (clock s + Z.of_N ms) s
  | ChannelClose, _ =>
      (* [channel.onclose], lines 127-130 *)
      setStatus Error (setError (Some "Channel closed. Please reconnect.")
                         (on_channel set_closed s))
  | _, _ => s
  end.

Definition run (s : Sender) (events : list Event) : Sender :=
  fold_left step events s.

End Run.

(** The state cells as [useState] and [useRef] initialise them. *)
Definition initial : Sender :=
  {| status := Idle; error := None; selectedFile := None; bytesSent := 0;
     channelRef := None; pc := NotRunning; offset := 0; chunkCount := 0;
     clock := 0 |}.

(** [pc.ondatachannel], lines 112-116. *)
Definition ondatachannel (ch : Channel) (s : Sender) : Sender :=
  set_channel
    (Some {| readyState := readyState ch; bufferedAmount := bufferedAmount ch;
             bufferedAmountLowThreshold := BUFFERED_LOW_WATER_MARK;
             outbox := outbox ch |}) s.

(** [channel.onopen], lines 117-122. *)
Definition onopen (s : Sender) : Sender := setStatus Ready s.

(** An open channel as the transport hands it over, with [buffered] bytes
    not yet on the network. *)
Definition open_channel (buffered : N) : Channel :=
  {| readyState := Open; bufferedAmount := Z.of_N buffered;
     bufferedAmountLowThreshold := 0; outbox := [] |}.

(** The sender with the channel open and a file chosen. *)
Definition ready (f : File) (buffered : N) : Sender :=
  setSelectedFile (Some f) (onopen (ondatachannel (open_channel buffered) initial)).

(** The transport's contract for [bufferedamountlow]: the event is
    dispatched only while the buffered amount is at or below the
    threshold. *)
Definition low_event_allowed (s : Sender) (e : Event) : bool :=
  match e, channelRef s with
  | BufferedAmountLow, Some ch => bufferedAmount ch <=? bufferedAmountLowThreshold ch
  | _, _ => true
  end.

(** A trace respects the contract when each of its events is allowed in
    the state it meets. *)
Fixpoint respects_contract {json : JsonRuntime} (s : Sender) (events : list Event) : bool :=
  match events with
  | [] => true
  | e :: rest => low_event_allowed s e && respects_contract (step s e) rest
  end.

(** [frames] are the binary frames of the first [upto] bytes of the file:
    in order, none empty, none longer than [CHUNK_SIZE],
    ceil(upto / CHUNK_SIZE) of them, all full while bytes remain. *)
Definition framing (f : File) (upto : Z) (frames : list (list byte)) : Prop :=
  0 <= upto <= file_size f /\
  concat frames = firstn (Z.to_nat upto) (file_bytes f) /\
  Forall (fun fr => 0 < byteLength fr <= CHUNK_SIZE) frames /\
  Z.of_nat (List.length frames) = (upto + CHUNK_SIZE - 1) / CHUNK_SIZE /\
  (upto < file_size f -> upto = CHUNK_SIZE * Z.of_nat (List.length frames)).

(** What the sender has put on the channel. *)
Definition on_wire (s : Sender) : list Data :=
  match channelRef s with
  | Some ch => sent ch
  | None => []
  end.



Definition buffered (s : Sender) : Z :=
  match channelRef s with
  | Some ch => bufferedAmount ch
  | None => 0
  end.

(** The invariant of a run of [sendFile] on the file [f]: what is on the
    wire at each suspension point, and what the locals hold. *)
Section Invariant.
Context {json : JsonRuntime}.
Variable f : File.

Definition meta_text : string := JSON_stringify (meta_of f).

Definition done_text : string := JSON_stringify done_message.

Definition wire_inv (s : Sender) (ch : Channel) : Prop :=
  match pc s with
  | NotRunning =>
      outbox ch = [] /\ offset s = 0 /\ (status s = Ready -> readyState ch = Open)
  | AwaitBufferedLow _ | AwaitArrayBuffer =>
      exists frames,
        sent ch = Text meta_text :: map Binary frames /\
        framing f (offset s) frames /\ offset s < file_size f
  | AwaitYield | Caught =>
      exists frames,
        sent ch = Text meta_text :: map Binary frames /\
        framing f (offset s) frames
  | Finished =>
      exists frames,
        sent ch = Text meta_text :: map Binary frames ++ [Text done_text] /\
        framing f (file_size f) frames /\ offset s = file_size f
  end.

Definition sender_inv (s : Sender) : Prop :=
  selectedFile s = Some f /\
  bytesSent s = offset s /\
  (status s = Ready -> pc s = NotRunning) /\
  exists ch,
    channelRef s = Some ch /\
    bufferedAmountLowThreshold ch = BUFFERED_LOW_WATER_MARK /\
    wire_inv s ch.

End Invariant.




Definition channel_open (s : Sender) : Prop :=
  exists ch, channelRef s = Some ch /\ readyState ch = Open.

(** The sender is in the loop with this much of the file sent, or done. *)
Definition in_loop (s : Sender) (sent_bytes : Z) : Prop :=
  pc s = Finished \/
  (channel_open s /\ offset s = sent_bytes /\
   (pc s = AwaitYield \/ pc s = AwaitArrayBuffer \/
    exists due, pc s = AwaitBufferedLow (Listening due))).


End Phone.

(** ** The receiver ([computer/page.tsx]) *)

Module Computer.
Import Wire.

Inductive Status :=
| Idle | Starting | Waiting | Connecting | Receiving | Completed | Error | Expired.

(** [FileMeta] holds whatever the parsed message carried. *)
Record FileMeta := { name : Js.Value; size : Js.Value; mime : Js.Value }.

(** A [FileSystemWritableFileStream]: what was written, and whether it
    has been closed. *)
Record Writable := { written : list byte; closed : bool }.

(** [write] and [close] reject on a closed stream. *)
Definition write (chunk : list byte) (w : Writable) : option Writable :=
  if closed w then None
  else Some {| written := written w ++ chunk; closed := false |}.

Definition close (w : Writable) : option Writable :=
  if closed w then None
  else Some {| written := written w; closed := true |}.

(** [new Blob(parts, { type })], which an object URL then refers to. *)
Record Blob := { blob_bytes : list byte; blob_type : Js.Value }.

(** [window.showSaveFilePicker] and what becomes of the call: the
    function may be missing, the call (or [createWritable]) may reject, or
    a writable stream is obtained. *)
Inductive Picker := PickerMissing | PickerRejects | PickerGrants.

Record Receiver := {
  status : Status;
  error : option Js.Value;
  fileMeta : option FileMeta;
  bytesReceived : Z;
  downloadUrl : option Blob;
  downloadName : option Js.Value;
  saveWarning : option string;
  chunksRef : list (list byte);
  writableRef : option Writable
}.

Definition setStatus (x : Status) (r : Receiver) : Receiver :=
  {| status := x; error := error r; fileMeta := fileMeta r;
     bytesReceived := bytesReceived r; downloadUrl := downloadUrl r;
     downloadName := downloadName r; saveWarning := saveWarning r;
     chunksRef := chunksRef r; writableRef := writableRef r |}.

Definition setError (x : option Js.Value) (r : Receiver) : Receiver :=
  {| status := status r; error := x; fileMeta := fileMeta r;
     bytesReceived := bytesReceived r; downloadUrl := downloadUrl r;
     downloadName := downloadName r; saveWarning := saveWarning r;
     chunksRef := chunksRef r; writableRef := writableRef r |}.

Definition setFileMeta (x : option FileMeta) (r : Receiver) : Receiver :=
  {| status := status r; error := error r; fileMeta := x;
     bytesReceived := bytesReceived r; downloadUrl := downloadUrl r;
     downloadName := downloadName r; saveWarning := saveWarning r;
     chunksRef := chunksRef r; writableRef := writableRef r |}.

Definition setBytesReceived (x : Z) (r : Receiver) : Receiver :=
  {| status := status r; error := error r; fileMeta := fileMeta r;
     bytesReceived := x; downloadUrl := downloadUrl r;
     downloadName := downloadName r; saveWarning := saveWarning r;
     chunksRef := chunksRef r; writableRef := writableRef r |}.

Definition setDownload (url : option Blob) (nm : option Js.Value) (r : Receiver) : Receiver :=
  {| status := status r; error := error r; fileMeta := fileMeta r;
     bytesReceived := bytesReceived r; downloadUrl := url;
     downloadName := nm; saveWarning := saveWarning r;
     chunksRef := chunksRef r; writableRef := writableRef r |}.

Definition setSaveWarning (x : option string) (r : Receiver) : Receiver :=
  {| status := status r; error := error r; fileMeta := fileMeta r;
     bytesReceived := bytesReceived r; downloadUrl := downloadUrl r;
     downloadName := downloadName r; saveWarning := x;
     chunksRef := chunksRef r; writableRef := writableRef r |}.

Definition set_chunks (x : list (list byte)) (r : Receiver) : Receiver :=
  {| status := status r; error := error r; fileMeta := fileMeta r;
     bytesReceived := bytesReceived r; downloadUrl := downloadUrl r;
     downloadName := downloadName r; saveWarning := saveWarning r;
     chunksRef := x; writableRef := writableRef r |}.

Definition set_writable (x : option Writable) (r : Receiver) : Receiver :=
  {| status := status r; error := error r; fileMeta := fileMeta r;
     bytesReceived := bytesReceived r; downloadUrl := downloadUrl r;
     downloadName := downloadName r; saveWarning := saveWarning r;
     chunksRef := chunksRef r; writableRef := x |}.

(** The state cells as [useState] and [useRef] initialise them. *)
Definition initial : Receiver :=
  {| status := Idle; error := None; fileMeta := None; bytesReceived := 0;
     downloadUrl := None; downloadName := None; saveWarning := None;
     chunksRef := []; writableRef := None |}.

(** The receiver once the answer is applied and the channel is awaited
    (line 289). *)
Definition awaiting : Receiver := setStatus Waiting initial.

(** [handleReceiveDone], lines 129-142, run to its end on the state it is
    applied to, whose [fileMeta] it reads; [None] is the rejection of
    [close()]. *)
Definition handleReceiveDone (r : Receiver) : option Receiver :=
  match writableRef r with
  | Some w =>
      match close w with
      | Some w' => Some (setStatus Completed (set_writable (Some w') r))
      | None => None
      end
  | None =>
      let r' :=
        match chunksRef r, fileMeta r with
        | _ :: _, Some m =>
            setDownload (Some {| blob_bytes := concat (chunksRef r); blob_type := mime m |})
                        (Some (name m)) r
        | _, _ => r
        end in
      Some (setStatus Completed r')
  end.

(** Lines 163-165 throw when [message.name] has no [includes], or has the
    one of an array that finds ["."] and then has no [split]. *)
Definition extension_throws (nm : Js.Value) : bool :=
  match nm with
  | Js.Str _ => false
  | Js.Arr items => existsb (fun x => Js.is_str x ".") items
  | _ => true
  end.

(** [message.size > 500 * 1024 * 1024], for a size that is a number. *)
Definition is_large (sz : Js.Value) : bool :=
  match sz with
  | Js.Num n => 500 * 1024 * 1024 <? n
  | _ => false
  end.

(** Lines 153-184, run to their end: the picker settles within the
    call. *)
Definition on_meta (picker : Picker) (message : Js.Value) (r : Receiver) : Receiver :=
  let m := {| name := Js.get_opt message "name";
              size := Js.get_opt message "size";
              mime := Js.get_opt message "mime" |} in
  let r := setStatus Receiving (setFileMeta (Some m) r) in
  let caught :=
    if is_large (size m)
    then setSaveWarning
           (Some "Large file detected. Saving will complete after transfer finishes.") r
    else r in
  match writableRef r, picker with
  | Some _, _ => r
  | None, PickerMissing => r
  | None, PickerRejects => caught
  | None, PickerGrants =>
      if extension_throws (name m) then caught
      else set_writable (Some {| written := []; closed := false |}) r
  end.

Inductive Completion := Fulfilled | Rejected.

Section Handlers.
Context {json : JsonRuntime}.

(** The [try] block of lines 147-193; [None] is an exception. *)
Definition on_text (picker : Picker) (data : string) (r : Receiver) : option Receiver :=
  match JSON_parse data with
  | None => None
  | Some message =>
      match Js.get message "type" with
      | None => None
      | Some type =>
          let r1 := if Js.is_str type "meta" then on_meta picker message r else r in
          match (if Js.is_str type "done" then handleReceiveDone r1 else Some r1) with
          | None => None
          | Some r2 =>
              Some (if Js.is_str type "error"
                    then setStatus Error (setError (Some (Js.get_opt message "message")) r2)
                    else r2)
          end
      end
  end.

(** [handleDataMessage], lines 144-211. *)
Definition handleDataMessage (picker : Picker) (data : Data) (r : Receiver)
  : Completion * Receiver :=
  match data with
  | Text s =>
      match on_text picker s r with
      | Some r' => (Fulfilled, r')
      | None =>
          (Fulfilled,
           setStatus Error (setError (Some (Js.Str "Unable to parse incoming message.")) r))
      end
  | Binary chunk =>
      match writableRef r with
      | Some w =>
          match write chunk w with
          | Some w' =>
              (Fulfilled,
               setBytesReceived (bytesReceived r + byteLength chunk)
                 (set_writable (Some w') r))
          | None => (Rejected, r)
          end
      | None =>
          (Fulfilled,
           setBytesReceived (bytesReceived r + byteLength chunk)
             (set_chunks (chunksRef r ++ [chunk]) r))
      end
  end.

(** [channel.onmessage], lines 241-243: the promise is dropped. *)
Definition onmessage (picker : Picker) (r : Receiver) (data : Data) : Receiver :=
  snd (handleDataMessage picker data r).

(** One call after the other, with nothing in between. *)
Definition receive (picker : Picker) (r : Receiver) (frames : list Data) : Receiver :=
  fold_left (onmessage picker) frames r.

End Handlers.

End Computer.

(** ** One transfer: the sender's frames delivered to the receiver *)

Module Session.

(** The metadata the receiver holds once the sender's [meta] message for
    the file has been handled. *)
Definition expected_meta (f : Phone.File) : Computer.FileMeta :=
  {| Computer.name := Js.Str (Phone.file_name f);
     Computer.size := Js.Num (Phone.file_size f);
     Computer.mime :=
       Js.Str (if String.eqb (Phone.file_type f) ""
               then "application/octet-stream" else Phone.file_type f) |}.

(** The file of the spec's end-to-end scenario: [a.txt], 11 bytes. *)
Definition a_txt : Phone.File :=
  {| Phone.file_name := "a.txt";
     Phone.file_bytes := String.list_byte_of_string "hello world";
     Phone.file_type := "text/plain" |}.

(** The run in which nothing delays the sender. *)
Definition plain_run : list Phone.Event := [Phone.Click_send; Phone.ArrayBufferReady].



End Session.

(** ** The computer page as React runs it ([ComputerPage], [computer/page.tsx]) *)

Module ComputerPage.
Import Wire Computer.

(** The promise a call of [handleDataMessage] is suspended on, with what
    the rest of the call reads once the promise has settled. *)
Inductive Await :=
| SavePicker (size : Js.Value)               (* lines 166 and 175; [message.size], for line 177 *)
| StreamWrite (byteLength : Z)               (* line 203; [chunk.byteLength], for line 208 *)
| StreamClose (fileMeta : option FileMeta).  (* line 131; the [fileMeta] of the closure, for line 134 *)

(** What React keeps of the component from one render to the next.
    Dependencies are compared with [Object.is]: every
    [setFileMeta({ ... })] and every [URL.createObjectURL(blob)] makes an
    object that is identical to no other, so each is given a number. *)
Record Hooks := {
  objects : nat;                 (* the objects made so far *)
  metaObj : option nat;          (* the object the cell [fileMeta] holds; [None] is [null] *)
  urlObj : option nat;           (* the object URL the cell [downloadUrl] holds *)
  revoked : list nat;            (* the object URLs revoked *)
  seen_meta : option nat;        (* [fileMeta] at the last render: the dependency of
                                    [handleReceiveDone], and through it of
                                    [handleDataMessage] and of [connect] *)
  seen_url : option nat;         (* [downloadUrl] at the last render: the dependency of [cleanup] *)
  effect : option (option nat);  (* the effect of lines 307-318 is due again; the [cleanup]
                                    its last run returned closes over this [downloadUrl] *)
  startedRef : bool
}.

(** The connection [connect] has set up: whether each ref holds its
    object or [null], this end of the data channel, and the [fileMeta]
    that the [handleDataMessage] bound to [channel.onmessage] (lines
    241-243) closes over. *)
Record Connection := {
  abortRef : bool;
  channelRef : bool;
  pcRef : bool;
  countdownRef : bool;
  channel : ReadyState;
  listener : option FileMeta
}.

(** The page: the state cells with [chunksRef] and [writableRef], each at
    its latest value; the suspended handlers; React's bookkeeping; the
    connection. *)
Record Page := {
  cells : Receiver;
  pending : list Await;
  hooks : Hooks;
  link : Connection
}.

Definition on_cells (g : Receiver -> Receiver) (p : Page) : Page :=
  {| cells := g (cells p); pending := pending p; hooks := hooks p; link := link p |}.

Definition on_hooks (g : Hooks -> Hooks) (p : Page) : Page :=
  {| cells := cells p; pending := pending p; hooks := g (hooks p); link := link p |}.

Definition on_link (g : Connection -> Connection) (p : Page) : Page :=
  {| cells := cells p; pending := pending p; hooks := hooks p; link := g (link p) |}.

Definition set_pending (l : list Await) (p : Page) : Page :=
  {| cells := cells p; pending := l; hooks := hooks p; link := link p |}.

(** The handler is suspended at an [await]. *)
Definition suspend (a : Await) (p : Page) : Page := set_pending (pending p ++ [a]) p.

(** The [k]-th suspended handler is taken up again. *)
Definition resume (k : nat) (p : Page) : Page :=
  set_pending (firstn k (pending p) ++ skipn (S k) (pending p)) p.

Definition hold_meta (m : option FileMeta) (h : Hooks) : Hooks :=
  {| objects := match m with Some _ => S (objects h) | None => objects h end;
     metaObj := match m with Some _ => Some (objects h) | None => None end;
     urlObj := urlObj h; revoked := revoked h;
     seen_meta := seen_meta h; seen_url := seen_url h; effect := effect h;
     startedRef := startedRef h |}.

Definition hold_url (url : option Blob) (h : Hooks) : Hooks :=
  {| objects := match url with Some _ => S (objects h) | None => objects h end;
     metaObj := metaObj h;
     urlObj := match url with Some _ => Some (objects h) | None => None end;
     revoked := revoked h;
     seen_meta := seen_meta h; seen_url := seen_url h; effect := effect h;
     startedRef := startedRef h |}.

(** [URL.revokeObjectURL(downloadUrl)] under [if (downloadUrl)]. *)
Definition revoke (downloadUrl : option nat) (h : Hooks) : Hooks :=
  {| objects := objects h; metaObj := metaObj h; urlObj := urlObj h;
     revoked := match downloadUrl with Some u => u :: revoked h | None => revoked h end;
     seen_meta := seen_meta h; seen_url := seen_url h; effect := effect h;
     startedRef := startedRef h |}.

Definition set_effect (x : option (option nat)) (h : Hooks) : Hooks :=
  {| objects := objects h; metaObj := metaObj h; urlObj := urlObj h;
     revoked := revoked h; seen_meta := seen_meta h; seen_url := seen_url h;
     effect := x; startedRef := startedRef h |}.

Definition set_started (x : bool) (h : Hooks) : Hooks :=
  {| objects := objects h; metaObj := metaObj h; urlObj := urlObj h;
     revoked := revoked h; seen_meta := seen_meta h; seen_url := seen_url h;
     effect := effect h; startedRef := x |}.

(** [setFileMeta(x)]: an object is a new one. *)
Definition setFileMeta (m : option FileMeta) (p : Page) : Page :=
  on_hooks (hold_meta m) (on_cells (Computer.setFileMeta m) p).

(** [setDownloadUrl(url)] and [setDownloadName(name)]; a url is the one
    [URL.createObjectURL] has just made. *)
Definition setDownload (url : option Blob) (nm : option Js.Value) (p : Page) : Page :=
  on_hooks (hold_url url) (on_cells (Computer.setDownload url nm) p).

(** [channel.close()] as the ready state. *)
Definition closing (st : ReadyState) : ReadyState :=
  match st with
  | Closed => Closed
  | _ => Closing
  end.

(** Lines 79-88 of [cleanup]: each ref lets go of its object; closing the
    peer connection closes its data channel. *)
Definition hang_up (c : Connection) : Connection :=
  {| abortRef := false;
     channelRef := false;
     pcRef := false;
     countdownRef := false;
     channel := if pcRef c then Closed
                else if channelRef c then closing (channel c) else channel c;
     listener := listener c |}.

(** [cleanup], lines 78-99; [downloadUrl] is the one of its closure. *)
Definition cleanup (downloadUrl : option nat) (p : Page) : Page :=
  let p := on_link hang_up p in
  let p := on_cells (fun r => set_writable None (set_chunks [] r)) p in
  let p := on_hooks (revoke downloadUrl) p in
  let p := setDownload None None p in
  let p := on_cells (setBytesReceived 0) p in
  let p := setFileMeta None p in
  on_cells (setSaveWarning None) p.

(** [connect], lines 214-218, up to its first [await]. What the call goes
    on to do (the next room, countdown and peer connection) is not part of
    this machine. *)
Definition connect (p : Page) : Page :=
  on_cells (fun r => setError None (setStatus Starting r)) p.

(** React runs the effect that is due: first the function its last run
    returned (lines 314-317), then the effect itself (lines 308-312). *)
Definition flush (p : Page) : Page :=
  match effect (hooks p) with
  | None => p
  | Some downloadUrl =>
      let p := on_hooks (set_effect None) p in
      let p := on_hooks (set_started false) (cleanup downloadUrl p) in
      if startedRef (hooks p) then p
      else connect (on_hooks (set_started true) p)
  end.

(** [Object.is] on the numbered objects. *)
Definition same (a b : option nat) : bool :=
  match a, b with
  | None, None => true
  | Some x, Some y => Nat.eqb x y
  | _, _ => false
  end.

(** React renders the component with the latest state and commits. An
    effect still due from the commit before is run first. With a
    [fileMeta] or a [downloadUrl] that is not the one of the last render,
    [useCallback] makes [connect] or [cleanup] anew, and the effect, which
    depends on both, is due again. *)
Definition commit (p : Page) : Page :=
  let p := flush p in
  let h := hooks p in
  if same (seen_meta h) (metaObj h) && same (seen_url h) (urlObj h) then p
  else on_hooks (fun h =>
         {| objects := objects h; metaObj := metaObj h; urlObj := urlObj h;
            revoked := revoked h;
            seen_meta := metaObj h; seen_url := urlObj h;
            effect := Some (seen_url h);
            startedRef := startedRef h |}) p.

Definition save_warning : string :=
  "Large file detected. Saving will complete after transfer finishes.".

(** The [catch] of lines 176-182. *)
Definition picker_failed (size : Js.Value) (p : Page) : Page :=
  if is_large size then on_cells (setSaveWarning (Some save_warning)) p else p.

(** Lines 175-182, once the picker and [createWritable] have settled. *)
Definition after_picker (granted : bool) (size : Js.Value) (p : Page) : Page :=
  if granted then on_cells (set_writable (Some {| written := []; closed := false |})) p
  else picker_failed size p.

(** [handleReceiveDone], lines 134-141; [fileMeta] is the one of the
    closure. *)
Definition after_close (fileMeta : option FileMeta) (p : Page) : Page :=
  let p :=
    match writableRef (cells p), chunksRef (cells p), fileMeta with
    | None, _ :: _, Some m =>
        setDownload (Some {| blob_bytes := concat (chunksRef (cells p)); blob_type := mime m |})
                    (Some (name m)) p
    | _, _, _ => p
    end in
  on_cells (setStatus Completed) p.

(** [handleReceiveDone], lines 129-142, up to where the call is suspended
    or ends; [None] is the rejection of [close()]. *)
Definition handleReceiveDone (fileMeta : option FileMeta) (p : Page) : option Page :=
  match writableRef (cells p) with
  | Some w =>
      match close w with
      | Some w' => Some (suspend (StreamClose fileMeta) (on_cells (set_writable (Some w')) p))
      | None => None
      end
  | None => Some (after_close fileMeta p)
  end.

(** Lines 153-184, up to where the call is suspended or ends;
    [showSaveFilePicker] tells whether [window.showSaveFilePicker]
    exists. *)
Definition on_meta (showSaveFilePicker : bool) (message : Js.Value) (p : Page) : Page :=
  let m := {| name := Js.get_opt message "name";
              size := Js.get_opt message "size";
              mime := Js.get_opt message "mime" |} in
  let p := on_cells (setStatus Receiving) (setFileMeta (Some m) p) in
  match writableRef (cells p), showSaveFilePicker with
  | None, true =>
      if extension_throws (name m) then picker_failed (size m) p
      else suspend (SavePicker (size m)) p
  | _, _ => p
  end.

(** What the event loop may run next. *)
Inductive Event :=
| Message (data : Data)              (* the channel delivers a message *)
| Picked (k : nat) (granted : bool)  (* the save picker of the [k]-th suspended handler settles *)
| Written (k : nat)                  (* its [write] settles *)
| Closed (k : nat)                   (* its [close] settles *)
| Commit                             (* React renders and commits *)
| Flush.                             (* React runs the effect that is due *)

Section Run.
Context {json : JsonRuntime}.
Variable showSaveFilePicker : bool.

(** The [try] block of lines 147-193, up to where the call is suspended
    or ends; [None] is an exception. The tests of lines 153, 186 and 190
    exclude one another. *)
Definition on_text (data : string) (p : Page) : option Page :=
  match JSON_parse data with
  | None => None
  | Some message =>
      match Js.get message "type" with
      | None => None
      | Some type =>
          if Js.is_str type "meta" then Some (on_meta showSaveFilePicker message p)
          else if Js.is_str type "done" then handleReceiveDone (listener (link p)) p
          else if Js.is_str type "error"
          then Some (on_cells (fun r => setStatus Error
                                          (setError (Some (Js.get_opt message "message")) r)) p)
          else Some p
      end
  end.

(** [handleDataMessage], lines 144-211, up to where the call is suspended
    or ends. *)
Definition handleDataMessage (data : Data) (p : Page) : Page :=
  match data with
  | Text s =>
      match on_text s p with
      | Some p' => p'
      | None =>
          on_cells (fun r => setStatus Error
                               (setError (Some (Js.Str "Unable to parse incoming message.")) r)) p
      end
  | Binary chunk =>
      match writableRef (cells p) with
      | Some w =>
          match write chunk w with
          | Some w' =>
              suspend (StreamWrite (byteLength chunk)) (on_cells (set_writable (Some w')) p)
          | None => p
          end
      | None =>
          on_cells (fun r => setBytesReceived (bytesReceived r + byteLength chunk)
                               (set_chunks (chunksRef r ++ [chunk]) r)) p
      end
  end.

(** One task. A channel that is not open delivers nothing; a settlement
    other than the one the [k]-th handler waits for changes nothing. *)
Definition step (p : Page) (e : Event) : Page :=
  match e with
  | Message data =>
      match channel (link p) with
      | Open => handleDataMessage data p
      | _ => p
      end
  | Picked k granted =>
      match nth_error (pending p) k with
      | Some (SavePicker size) => after_picker granted size (resume k p)
      | _ => p
      end
  | Written k =>
      match nth_error (pending p) k with
      | Some (StreamWrite n) =>
          on_cells (fun r => setBytesReceived (bytesReceived r + n) r) (resume k p)
      | _ => p
      end
  | Closed k =>
      match nth_error (pending p) k with
      | Some (StreamClose fileMeta) => after_close fileMeta (resume k p)
      | _ => p
      end
  | Commit => commit p
  | Flush => flush p
  end.

Definition run (p : Page) (schedule : list Event) : Page :=
  fold_left step schedule p.

End Run.

(** The page when the channel of the transfer has opened: [connect] has
    applied the answer and returned (line 289), its refs hold the objects
    of the connection, and the handler bound to the channel is the one of
    the first render, where [fileMeta] is [null] (line 58). *)
Definition listening (fileMeta : option FileMeta) : Page :=
  {| cells := awaiting;
     pending := [];
     hooks := {| objects := 0; metaObj := None; urlObj := None; revoked := [];
                 seen_meta := None; seen_url := None; effect := None;
                 startedRef := true |};
     link := {| abortRef := true; channelRef := true; pcRef := true;
                countdownRef := true; channel := Open; listener := fileMeta |} |}.

Definition start : Page := listening None.

(** The messages among the events, in order. *)
Definition deliveries (schedule : list Event) : list Data :=
  flat_map (fun e => match e with Message d => [d] | _ => [] end) schedule.

(** React has rendered the latest state and run its effects. *)
Definition settled (p : Page) : Prop :=
  effect (hooks p) = None /\
  seen_meta (hooks p) = metaObj (hooks p) /\
  seen_url (hooks p) = urlObj (hooks p).



(** *** What the page keeps true *)

(** No download is built where the handler closes over no metadata. *)
Definition quiet (p : Page) : Prop :=
  listener (link p) = None /\
  downloadUrl (cells p) = None /\ downloadName (cells p) = None /\
  urlObj (hooks p) = None /\ seen_url (hooks p) = None /\
  Forall (fun a => match a with StreamClose m => m = None | _ => True end) (pending p).

(** The numbers of the objects in use are below the next number. *)
Definition below (n : nat) (x : option nat) : Prop :=
  match x with
  | Some k => (k < n)%nat
  | None => True
  end.

Definition numbered (p : Page) : Prop :=
  below (objects (hooks p)) (metaObj (hooks p)) /\
  below (objects (hooks p)) (seen_meta (hooks p)).

(** What a handler does to React's bookkeeping: nothing, or the cell
    [fileMeta] or [downloadUrl] holds a new object. *)
Definition handled (h h' : Hooks) : Prop :=
  h' = h \/ (exists m, h' = hold_meta (Some m) h) \/ (exists u, h' = hold_url (Some u) h).

(** While the channel is open, [pcRef] holds its peer connection. *)
Definition wired (p : Page) : Prop :=
  channel (link p) = Open -> pcRef (link p) = true.

(** In a browser without [showSaveFilePicker] no handler is ever
    suspended and there is no stream. *)
Definition no_stream (p : Page) : Prop :=
  pending p = [] /\ writableRef (cells p) = None.

(** The transfer is torn down: the channel is no longer open and the page
    holds nothing of what it received. *)
Definition torn_down (picker : bool) (p : Page) : Prop :=
  channel (link p) <> Open /\ chunksRef (cells p) = [] /\ fileMeta (cells p) = None /\
  metaObj (hooks p) = None /\ (picker = false -> bytesReceived (cells p) = 0).

(** What holds of the page from the first [meta] message on. *)
Definition after_meta (picker : bool) (p : Page) : Prop :=
  quiet p /\ numbered p /\ wired p /\ (picker = false -> no_stream p) /\
  (torn_down picker p \/ ~ settled p).



End ComputerPage.

(** ** The relay over time *)

Module Signaling.
Import Js Relay.

(** The requests the two pages send to the relay: [POST
    /api/signaling/create], [POST /api/signaling/[roomId]] and [GET
    /api/signaling/poll/[roomId]], the latter served by either of the two
    poll handlers. *)
Inductive Call :=
| Create
| Publish (roomId : string) (request : Request)
| Poll (roomId : string)
| PollDirect (roomId : string).

Definition handle {json : JsonRuntime} (c : Call) : Async Response :=
  match c with
  | Create => POST_create
  | Publish roomId request => POST_publish roomId request
  | Poll roomId => GET_poll roomId
  | PollDirect roomId => GET_poll_direct roomId
  end.

(** What happens at the relay: a request is served, or seconds pass. *)
Inductive Step :=
| Serve (c : Call)
| Pass (seconds : N).

Definition pass (seconds : N) (s : Server) : Server :=
  {| kv := elapse (Z.of_N seconds) (kv s); kv_log := kv_log s; crypto := crypto s |}.

Definition after {json : JsonRuntime} (s : Server) (st : Step) : Server :=
  match st with
  | Serve c => snd (handle c s)
  | Pass seconds => pass seconds s
  end.

Definition history {json : JsonRuntime} (s : Server) (steps : list Step) : Server :=
  fold_left after steps s.

(** A relay whose store holds nothing yet. *)
Definition empty_relay (c : Room.Crypto) : Server :=
  {| kv := ∅; kv_log := []; crypto := c |}.

(** The seconds for which [key] is still read. *)
Definition remaining (m : gmap string Entry) (key : string) : Z :=
  match m !! key with
  | Some e => Z.max 0 (entry_ttl e)
  | None => 0
  end.

(** The key of a role's description, as [POST_publish] builds it. *)
Definition signal_key (roomId : string) (role : SignalType) : string :=
  "room:" +:+ roomId +:+ ":" +:+ signal_name role.

Definition legacy_key (roomId : string) : string := "room:" +:+ roomId.

(** The three endings of the keys the handlers write. *)
Definition key_endings : list string := [":exists"; ":offer"; ":answer"].

(** The four keys a poll of [roomId] reads. *)
Definition polled_keys (roomId : string) : list string :=
  [exists_key roomId; signal_key roomId Offer; signal_key roomId Answer;
   legacy_key roomId].

(** The three ways a request leaves the store: as it was, with the marker
    of a room, or with a description and the marker of a room; what is
    written is given the 300-second window. *)
Inductive Effect :=
| Untouched
| Marked (roomId : string)
| Described (roomId : string) (role : SignalType) (text : string).

Definition apply_effect (e : Effect) (m : gmap string Entry) : gmap string Entry :=
  match e with
  | Untouched => m
  | Marked roomId => <[ exists_key roomId := fresh (Str "1") ]> m
  | Described roomId role text =>
      <[ exists_key roomId := fresh (Str "1") ]>
        (<[ signal_key roomId role := fresh (Str text) ]> m)
  end.

Definition effect_room (e : Effect) : option string :=
  match e with
  | Untouched => None
  | Marked roomId | Described roomId _ _ => Some roomId
  end.

(** The answer [{ ok: true }] of a publish. *)
Definition ok_response : Response := JsonResponse (Obj [("ok", Bool true)]).

(** What the handlers keep true of the store: nothing is read for more
    than 300 seconds; a description is read no longer than the marker of
    its room; a marker holds ["1"]; and every key is [room:<id>:<ending>]
    for a well-formed id. *)
Definition store_inv (m : gmap string Entry) : Prop :=
  (forall key, remaining m key <= ROOM_TTL_SECONDS) /\
  (forall roomId role,
      remaining m (signal_key roomId role) <= remaining m (exists_key roomId)) /\
  (forall roomId e, m !! exists_key roomId = Some e -> entry_value e = Str "1") /\
  (forall key, is_Some (m !! key) ->
      exists roomId u,
        Room.isValidRoomId roomId = true /\ In u key_endings /\
        key = "room:" +:+ roomId +:+ u).

(** The answers of a publish that writes nothing. *)
Definition publish_refusals : list (Outcome Response) :=
  [Returned (TextResponse "Invalid room" 400);
   Returned (TextResponse "Room not found" 404);
   Returned (TextResponse "Invalid payload" 400);
   Thrown "SyntaxError"; Thrown "TypeError"].

(** A value that [JSON.stringify] turns into a text that [JSON.parse]
    reads back. *)
Definition survives_json {json : JsonRuntime} (v : Value) : Prop :=
  JSON_parse (JSON_stringify v) = Some v /\ JSON_stringify v <> "".

End Signaling.

(** ** The sender after its channel has closed *)

Module Hangup.
Import Wire Phone.

(** What holds once the channel has dispatched [close]: the status is
    ["error"], and the channel the ref points to is closed. *)
Definition after_close (s : Sender) : Prop :=
  status s = Error /\ forall ch, channelRef s = Some ch -> readyState ch = Closed.

End Hangup.

(** ** Joining a room from the phone *)

Module Join.
Import Phone.

(** [PhonePage]: [searchParams.room ?? ""]. *)
Definition initialRoom (room : option string) : string :=
  match room with
  | Some r => r
  | None => ""
  end.

(** [useState(initialRoom.toUpperCase())] and the [onChange] of the input
    (line 330): the state cell holds the upper-cased text. *)
Definition setRoomInput (text : string) : string := Room.toUpperCase text.

(** [connect], lines 90-97: the test that precedes the polling; the
    boolean tells whether the call goes on to poll [roomInput]. *)
Definition connect_entry (roomInput : string) (s : Sender) : Sender * bool :=
  if negb (Room.isValidRoomId roomInput)
  then (setStatus Error (setError (Some "Enter a valid 6 character room code.") s), false)
  else (setError None (setStatus Connecting s), true).

(** The effect of lines 196-209 on mount: [connect] is called at once
    when the page was opened with a room. *)
Definition on_mount (room : option string) (s : Sender) : Sender * bool :=
  if String.eqb (initialRoom room) "" then (s, false)
  else connect_entry (setRoomInput (initialRoom room)) s.

(** Text of ASCII characters. *)
Definition ascii_text (s : string) : Prop :=
  Forall (fun c => (nat_of_ascii c < 128)%nat) (list_ascii_of_string s).

(** A letter of either case, or a digit. *)
Definition alphanumeric (c : ascii) : bool :=
  let n := nat_of_ascii c in
  ((65 <=? n) && (n <=? 90) || (97 <=? n) && (n <=? 122) || (48 <=? n) && (n <=? 57))%nat.

End Join.

(** ** The label of the countdown *)

Module Lobby.

(** [s.padStart(targetLength, padString)] *)
Fixpoint fill (n : nat) (padString rest : string) : string :=
  match n with
  | O => ""
  | S n' =>
      match rest with
      | String c rest' => String c (fill n' padString rest')
      | EmptyString =>
          match padString with
          | String c rest' => String c (fill n' padString rest')
          | EmptyString => ""
          end
      end
  end.

Definition padStart (targetLength : nat) (padString s : string) : string :=
  if (targetLength <=? String.length s)%nat then s
  else fill (targetLength - String.length s) padString padString +:+ s.

(** [countdownLabel], lines 320-324. *)
Definition countdownLabel (secondsLeft : Z) : string :=
  let minutes := secondsLeft / 60 in
  let seconds := Z.rem secondsLeft 60 in
  pretty minutes +:+ ":" +:+ padStart 2 "0" (pretty seconds).

(** The decimal digit of a number below ten. *)
Definition digit (n : Z) : ascii := ascii_of_nat (48 + Z.to_nat n).

End Lobby.

(** ** The two timed promises: [sleep] and [waitForIceGatheringComplete] *)

Module Timers.

Inductive Promise :=
| Pending
| Resolved
| Rejected (name : string).

(** [resolve()] and [reject(...)]: a settled promise stays as it is. *)
Definition resolve (p : Promise) : Promise :=
  match p with
  | Pending => Resolved
  | _ => p
  end.

Definition reject (name : string) (p : Promise) : Promise :=
  match p with
  | Pending => Rejected name
  | _ => p
  end.

(** What the event loop may run next for either promise. *)
Inductive Event :=
| Elapse (ms : N)                (* time passes *)
| TimeoutFires                   (* the callback of [setTimeout], once its delay has passed *)
| SignalAborts                   (* the signal dispatches [abort] *)
| StateChange (complete : bool). (* the connection dispatches [icegatheringstatechange] *)

(** *** [sleep(ms, signal)] *)

(** The promise, the timeout while it is armed (the time it is due), the
    [abort] listener while it is registered, and the clock. *)
Record Sleep := {
  promise : Promise;
  timeoutId : option Z;
  onAbort : bool;
  clock : Z
}.

(** The executor; [signal] is [None] when no signal is passed, else
    whether it has aborted already. *)
Definition sleep (now ms : Z) (signal : option bool) : Sleep :=
  match signal with
  | None =>
      {| promise := Pending; timeoutId := Some (now + ms); onAbort := false; clock := now |}
  | Some true =>
      {| promise := reject "AbortError" Pending; timeoutId := None; onAbort := false;
         clock := now |}
  | Some false =>
      {| promise := Pending; timeoutId := Some (now + ms); onAbort := true; clock := now |}
  end.

Definition sleep_step (s : Sleep) (e : Event) : Sleep :=
  match e with
  | Elapse ms =>
      {| promise := promise s; timeoutId := timeoutId s; onAbort := onAbort s;
         clock := clock s + Z.of_N ms |}
  | TimeoutFires =>
      match timeoutId s with
      | Some due =>
          if due <=? clock s
          then {| promise := resolve (promise s); timeoutId := None; onAbort := onAbort s;
                  clock := clock s |}
          else s
      | None => s
      end
  | SignalAborts =>
      if onAbort s
      then {| promise := reject "AbortError" (promise s); timeoutId := None;
              onAbort := false; clock := clock s |}
      else s
  | StateChange _ => s
  end.

Definition sleep_run (s : Sleep) (events : list Event) : Sleep :=
  fold_left sleep_step events s.

(** *** [waitForIceGatheringComplete(pc, timeoutMs)] *)

(** The promise, the timeout while armed, the [icegatheringstatechange]
    listener while registered, whether [pc.iceGatheringState] is
    ["complete"], and the clock. *)
Record IceWait := {
  ice_promise : Promise;
  ice_timeoutId : option Z;
  onStateChange : bool;
  gathering_complete : bool;
  ice_clock : Z
}.

Definition waitForIceGatheringComplete (now timeoutMs : Z) (complete : bool) : IceWait :=
  if complete
  then {| ice_promise := Resolved; ice_timeoutId := None; onStateChange := false;
          gathering_complete := true; ice_clock := now |}
  else {| ice_promise := Pending; ice_timeoutId := Some (now + timeoutMs);
          onStateChange := true; gathering_complete := false; ice_clock := now |}.

Definition ice_step (w : IceWait) (e : Event) : IceWait :=
  match e with
  | Elapse ms =>
      {| ice_promise := ice_promise w; ice_timeoutId := ice_timeoutId w;
         onStateChange := onStateChange w; gathering_complete := gathering_complete w;
         ice_clock := ice_clock w + Z.of_N ms |}
  | TimeoutFires =>
      match ice_timeoutId w with
      | Some due =>
          if due <=? ice_clock w
          then {| ice_promise := resolve (ice_promise w); ice_timeoutId := None;
                  onStateChange := false; gathering_complete := gathering_complete w;
                  ice_clock := ice_clock w |}
          else w
      | None => w
      end
  | StateChange complete =>
      if onStateChange w && complete
      then {| ice_promise := resolve (ice_promise w); ice_timeoutId := None;
              onStateChange := false; gathering_complete := complete;
              ice_clock := ice_clock w |}
      else {| ice_promise := ice_promise w; ice_timeoutId := ice_timeoutId w;
              onStateChange := onStateChange w; gathering_complete := complete;
              ice_clock := ice_clock w |}
  | SignalAborts => w
  end.

Definition ice_run (w : IceWait) (events : list Event) : IceWait :=
  fold_left ice_step events w.

(** A state change to ["complete"] among the events. *)
Definition completes (events : list Event) : bool :=
  existsb (fun e => match e with StateChange c => c | _ => false end) events.

End Timers.

(** ** Proof automation *)

(** Unfolds the monad of the route handlers. *)
Ltac run_async :=
  cbv beta iota zeta delta
    [Relay.bind Relay.ret Relay.throw Relay.kv_get Relay.kv_set Relay.prop
     Relay.request_json Relay.parse_or_null].

(** Case analysis on the tests of a handler. *)
Ltac split_cases :=
  repeat match goal with
         | |- context [if ?c then _ else _] => destruct c
         | |- context [match JSON_parse ?x with _ => _ end] => destruct (JSON_parse x)
         end.

(** Reads the fields of an updated sender. *)
Ltac sender_fields :=
  cbn [Phone.setStatus Phone.setError Phone.setSelectedFile Phone.setBytesSent
       Phone.set_channel Phone.set_pc Phone.set_offset Phone.set_chunkCount
       Phone.set_clock Phone.status Phone.error Phone.selectedFile Phone.bytesSent
       Phone.channelRef Phone.pc Phone.offset Phone.chunkCount Phone.clock] in *.

(** Reads the fields of an updated page. *)
Ltac page_fields :=
  cbn [ComputerPage.cells ComputerPage.pending ComputerPage.hooks ComputerPage.link ComputerPage.on_cells ComputerPage.on_hooks ComputerPage.on_link ComputerPage.set_pending ComputerPage.suspend ComputerPage.resume
       ComputerPage.hold_meta ComputerPage.hold_url ComputerPage.revoke ComputerPage.set_effect ComputerPage.set_started
       ComputerPage.setFileMeta ComputerPage.setDownload ComputerPage.hang_up ComputerPage.cleanup ComputerPage.connect
       ComputerPage.picker_failed ComputerPage.after_picker
       ComputerPage.objects ComputerPage.metaObj ComputerPage.urlObj ComputerPage.revoked ComputerPage.seen_meta ComputerPage.seen_url ComputerPage.effect ComputerPage.startedRef
       ComputerPage.abortRef ComputerPage.channelRef ComputerPage.pcRef ComputerPage.countdownRef ComputerPage.channel ComputerPage.listener
       Computer.setStatus Computer.setError Computer.setFileMeta Computer.setBytesReceived
       Computer.setDownload Computer.setSaveWarning Computer.set_chunks Computer.set_writable
       Computer.status Computer.error Computer.fileMeta Computer.bytesReceived
       Computer.downloadUrl Computer.downloadName Computer.saveWarning
       Computer.chunksRef Computer.writableRef] in *.

(** * Properties *)

(** ** Room codes *)

Section RoomFacts.
Import Room.

Lemma match_repeat_all (cls : list CharRange) (n : nat) (s : string) :
  match_repeat cls n s = Some EmptyString <->
  String.length s = n /\
  Forall (fun c => class_matches cls c = true) (list_ascii_of_string s).
Proof.
  revert s. induction n as [|n IH]; intros s; simpl.
  - destruct s; simpl; split.
    + intros _. split; [reflexivity | constructor].
    + reflexivity.
    + discriminate.
    + intros [H _]. discriminate.
  - destruct s as [|c rest]; simpl.
    + split; [discriminate | intros [H _]; discriminate].
    + destruct (class_matches cls c) eqn:Hc.
      * rewrite IH. split.
        -- intros [Hl Hf]. split; [congruence | constructor; assumption].
        -- intros [Hl Hf]. inversion Hf; subst. split; [congruence | assumption].
      * split; [discriminate |].
        intros [_ Hf]. inversion Hf; subst. congruence.
Qed.

Lemma test_true (re : Regex) (s : string) :
  test re s = true <-> match_repeat (char_class re) (repeat_count re) s = Some EmptyString.
Proof.
  unfold test. destruct (match_repeat _ _ s) as [[|c r]|]; split; congruence.
Qed.

Lemma room_class_codes (c : ascii) :
  class_matches (char_class ROOM_ID_REGEX) c = true <->
  (65 <= N_of_ascii c <= 90)%N \/ (48 <= N_of_ascii c <= 57)%N.
Proof.
  unfold class_matches, ROOM_ID_REGEX, in_range; simpl.
  rewrite orb_false_r, orb_true_iff, !andb_true_iff, !N.leb_le.
  reflexivity.
Qed.

(** C3 (amended): [isValidRoomId] accepts exactly the strings of six
    characters that are each an upper-case letter [A]-[Z] or a digit
    [0]-[9]; the candidate is tested as it is, and [I] and [O] pass. *)
Theorem isValidRoomId_iff (roomId : string) :
  isValidRoomId roomId = true <->
  String.length roomId = 6%nat /\
  Forall (fun c => (65 <= N_of_ascii c <= 90)%N \/ (48 <= N_of_ascii c <= 57)%N)
         (list_ascii_of_string roomId).
Proof.
  unfold isValidRoomId. rewrite test_true, match_repeat_all.
  change (repeat_count ROOM_ID_REGEX) with 6%nat.
  split; intros [Hl Hf]; (split; [exact Hl |]);
    eapply Forall_impl; try exact Hf; intros c Hc; apply room_class_codes; exact Hc.
Qed.

(** C3 (as stated) fails: ["ABCDEI"] is accepted although [I] is outside
    the 34-symbol alphabet, and ["abcdef"] is refused although its
    upper-case form lies in the alphabet. *)
Lemma isValidRoomId_not_validate_spec :
  (isValidRoomId "ABCDEI" = true /\ validate_spec "ABCDEI" = false) /\
  (isValidRoomId "abcdef" = false /\ validate_spec "abcdef" = true) /\
  ~ (forall candidate, isValidRoomId candidate = true <-> validate_spec candidate = true).
Proof.
  repeat split; try reflexivity.
  intros H. specialize (H "ABCDEI"). destruct H as [H _].
  specialize (H eq_refl). discriminate H.
Qed.

End RoomFacts.

(** ** The distribution of generated ids *)

Section Distribution.
Import Room.

Lemma get_nth (s : string) (i : nat) (d : ascii) :
  (i < String.length s)%nat ->
  String.get i s = Some (nth i (list_ascii_of_string s) d).
Proof.
  revert i. induction s as [|c s IH]; intros i Hi; simpl in *; [lia|].
  destruct i; [reflexivity|]. apply IH. lia.
Qed.

Lemma symbol_index_bound (b : Z) : (Z.to_nat (Z.rem b 34) < 34)%nat.
Proof.
  destruct (Z_lt_le_dec b 0) as [Hneg|Hpos].
  - pose proof (Z.rem_nonpos b 34 ltac:(lia) ltac:(lia)). lia.
  - pose proof (Z.rem_bound_pos b 34 Hpos ltac:(lia)). lia.
Qed.

Lemma symbol_single (b : Z) : symbol b = String (symbol_char b) EmptyString.
Proof.
  unfold symbol, alphabet_at, symbol_char.
  change (Z.of_nat (String.length ROOM_ALPHABET)) with 34.
  rewrite (get_nth ROOM_ALPHABET _ "A"%char); [reflexivity|].
  apply symbol_index_bound.
Qed.

Lemma append_String (c : ascii) (s t : string) :
  (String c s +:+ t) = String c (s +:+ t).
Proof. reflexivity. Qed.

Lemma append_empty_r (s : string) : (s +:+ "") = s.
Proof. induction s as [|c s IH]; [reflexivity|]. rewrite append_String, IH. reflexivity. Qed.

Lemma append_assoc (s t u : string) : ((s +:+ t) +:+ u) = (s +:+ (t +:+ u)).
Proof.
  induction s as [|c s IH]; [reflexivity|]. rewrite !append_String, IH. reflexivity.
Qed.

Lemma encode_from (bytes : list Z) (acc : string) :
  fold_left (fun result b => result +:+ symbol b) bytes acc
  = (acc +:+ encode bytes).
Proof.
  unfold encode. revert acc. induction bytes as [|b bs IH]; intros acc; cbn [fold_left].
  - rewrite append_empty_r. reflexivity.
  - rewrite IH, (IH ("" +:+ symbol b)), append_assoc. reflexivity.
Qed.

Lemma encode_cons (b : Z) (bytes : list Z) :
  encode (b :: bytes) = String (symbol_char b) (encode bytes).
Proof.
  unfold encode at 1. simpl. rewrite encode_from, symbol_single. reflexivity.
Qed.

Lemma encode_chars (bytes : list Z) :
  list_ascii_of_string (encode bytes) = map symbol_char bytes.
Proof.
  induction bytes as [|b bs IH]; [reflexivity|].
  rewrite encode_cons. simpl. congruence.
Qed.

(** The symbol at a position is a function of the byte at that position. *)
Lemma encode_position (bytes : list Z) (i : nat) :
  String.get i (encode bytes) = option_map symbol_char (nth_error bytes i).
Proof.
  revert i. induction bytes as [|b bs IH]; intros i.
  - destruct i; reflexivity.
  - rewrite encode_cons. destruct i; simpl; [reflexivity | apply IH].
Qed.

Lemma count_split (c : ascii) (Q : list Z -> bool) (L : list (list Z)) (B : list Z) :
  List.length
    (List.filter (fun bs => match bs with
                       | b :: rest => Ascii.eqb (symbol_char b) c && Q rest
                       | [] => false
                       end)
            (flat_map (fun b => map (cons b) L) B))
  = (List.length (List.filter (fun b => Ascii.eqb (symbol_char b) c) B)
     * List.length (List.filter Q L))%nat.
Proof.
  induction B as [|b B IH]; [reflexivity|].
  cbn [flat_map]. rewrite List.filter_app, List.length_app, IH. cbn [List.filter].
  assert (Hb : List.length
                 (List.filter (fun bs => match bs with
                                    | b0 :: rest => Ascii.eqb (symbol_char b0) c && Q rest
                                    | [] => false
                                    end) (map (cons b) L))
               = ((if Ascii.eqb (symbol_char b) c then 1 else 0)
                  * List.length (List.filter Q L))%nat).
  { clear IH. induction L as [|l L IHL]; cbn [map List.filter].
    - destruct (Ascii.eqb (symbol_char b) c); reflexivity.
    - destruct (Ascii.eqb (symbol_char b) c) eqn:E; cbn [andb].
      + destruct (Q l); cbn [List.length]; rewrite IHL; lia.
      + rewrite IHL. reflexivity. }
  rewrite Hb. destruct (Ascii.eqb (symbol_char b) c); cbn [List.length]; lia.
Qed.

Lemma filter_ext_length {A} (f g : A -> bool) (l : list A) :
  (forall x, f x = g x) -> List.length (List.filter f l) = List.length (List.filter g l).
Proof.
  intros H. induction l as [|x l IH]; [reflexivity|].
  cbn [List.filter]. rewrite H. destruct (g x); cbn [List.length]; congruence.
Qed.

Lemma ways_symbol_char (c : ascii) :
  ways_symbol c = List.length (List.filter (fun b => Ascii.eqb (symbol_char b) c) byte_values).
Proof.
  unfold ways_symbol. apply filter_ext_length. intros b.
  rewrite symbol_single. simpl. destruct (Ascii.eqb (symbol_char b) c); reflexivity.
Qed.

Lemma ways_id_cons (n : nat) (c : ascii) (id : string) :
  ways_id (S n) (String c id) = (ways_symbol c * ways_id n id)%nat.
Proof.
  unfold ways_id. cbn [outcomes].
  rewrite ways_symbol_char, <- count_split.
  apply filter_ext_length. intros [|b rest].
  - reflexivity.
  - rewrite encode_cons. reflexivity.
Qed.

Lemma ways_id_product (cs : list ascii) :
  ways_id (List.length cs) (string_of_list_ascii cs)
  = fold_right Nat.mul 1%nat (map ways_symbol cs).
Proof.
  induction cs as [|c cs IH]; [reflexivity|].
  cbn [List.length string_of_list_ascii map fold_right].
  rewrite ways_id_cons, IH. reflexivity.
Qed.

Lemma ways_symbol_table :
  map ways_symbol (list_ascii_of_string ROOM_ALPHABET)
  = repeat 8%nat 18 ++ repeat 7%nat 16.
Proof. vm_compute. reflexivity. Qed.

(** C9 (as stated) fails: with a uniform byte, [A] has probability
    8/256 = 1/32 and [9] has probability 7/256; neither is 1/34. *)
Lemma symbol_not_uniform :
  Pr_symbol "A" == 1 # 32 /\ Pr_symbol "9" == 7 # 256 /\
  ~ Pr_symbol "A" == 1 # 34 /\ ~ Pr_symbol "9" == 1 # 34.
Proof.
  assert (HA : ways_symbol "A" = 8%nat) by (vm_compute; reflexivity).
  assert (H9 : ways_symbol "9" = 7%nat) by (vm_compute; reflexivity).
  unfold Pr_symbol. rewrite HA, H9. unfold Qeq; simpl. repeat split; lia.
Qed.

(** C9 (amended): the symbol at position [i] is the image of the byte at
    position [i] alone; of the 256 byte values, 8 give each of the first
    18 symbols of the alphabet and 7 give each of the other 16; and the
    number of arrays that give an id is the product of these counts over
    its characters, for an id of any length and so for the six of a room
    code (the positions are independent). *)
Theorem generateRoomId_distribution :
  (forall (bytes : list Z) (i : nat),
      String.get i (encode bytes) = option_map symbol_char (nth_error bytes i)) /\
  (forall (k : nat) (c : ascii),
      nth_error (list_ascii_of_string ROOM_ALPHABET) k = Some c ->
      ways_symbol c = (if (k <? 18)%nat then 8 else 7)%nat /\
      Pr_symbol c == (if (k <? 18)%nat then 8 # 256 else 7 # 256)) /\
  (forall (cs : list ascii),
      ways_id (List.length cs) (string_of_list_ascii cs)
      = fold_right Nat.mul 1%nat (map ways_symbol cs)).
Proof.
  split; [exact encode_position|]. split.
  - intros k c Hk.
    assert (Hw : ways_symbol c = (if (k <? 18)%nat then 8 else 7)%nat).
    { pose proof ways_symbol_table as T.
      assert (Hn : nth_error (map ways_symbol (list_ascii_of_string ROOM_ALPHABET)) k
                   = Some (ways_symbol c)) by (rewrite nth_error_map, Hk; reflexivity).
      rewrite T in Hn. clear T Hk.
      do 34 (destruct k as [|k]; [simpl in Hn; injection Hn as <-; reflexivity|]).
      destruct k; discriminate Hn. }
    split; [exact Hw|].
    unfold Pr_symbol. rewrite Hw. destruct (k <? 18)%nat; reflexivity.
  - exact ways_id_product.
Qed.

(** The arrays [getRandomValues] fills are points of the sample space. *)
Lemma byte_value_mod (z : Z) : In (z mod 256) byte_values.
Proof.
  pose proof (Z.mod_pos_bound z 256 ltac:(lia)) as H.
  unfold byte_values. apply in_map_iff. exists (Z.to_nat (z mod 256)).
  split; [lia|]. apply in_seq. lia.
Qed.

Lemma outcomes_complete (l : list Z) :
  Forall (fun b => In b byte_values) l -> In l (outcomes (List.length l)).
Proof.
  induction 1 as [|b l Hb Hl IH]; [left; reflexivity|].
  cbn [List.length outcomes]. apply in_flat_map. exists b. split; [exact Hb|].
  apply in_map. exact IH.
Qed.

Lemma getRandomValues_outcome (n : nat) (c : Crypto) :
  In (fst (getRandomValues n c)) (outcomes n).
Proof.
  unfold getRandomValues. cbn [fst].
  set (l := map _ (seq 0 n)).
  assert (Hlen : List.length l = n) by (unfold l; rewrite length_map, length_seq; reflexivity).
  assert (Hall : Forall (fun b => In b byte_values) l).
  { unfold l. apply List.Forall_forall. intros b Hb.
    apply in_map_iff in Hb as (i & <- & _). apply byte_value_mod. }
  clearbody l. subst n. apply outcomes_complete, Hall.
Qed.

Lemma alphabet_in_class :
  forallb (fun c => class_matches (char_class ROOM_ID_REGEX) c && in_alphabet c)
          (list_ascii_of_string ROOM_ALPHABET) = true.
Proof. vm_compute. reflexivity. Qed.

Lemma symbol_char_ok (b : Z) :
  class_matches (char_class ROOM_ID_REGEX) (symbol_char b) = true /\
  in_alphabet (symbol_char b) = true.
Proof.
  pose proof alphabet_in_class as H. rewrite forallb_forall in H.
  apply andb_true_iff, H. unfold symbol_char. apply nth_In.
  pose proof (symbol_index_bound b). exact H0.
Qed.

(** Every generated id passes [isValidRoomId], and its characters lie in
    the 34-symbol alphabet. *)
Lemma generateRoomId_valid (c : Crypto) :
  isValidRoomId (fst (generateRoomId c)) = true /\
  validate_spec (fst (generateRoomId c)) = true /\
  Forall (fun ch => in_alphabet ch = true)
         (list_ascii_of_string (fst (generateRoomId c))).
Proof.
  unfold generateRoomId, getRandomValues. cbn [fst].
  set (bytes := map _ (seq 0 6)).
  assert (Hlen : List.length bytes = 6%nat) by reflexivity.
  assert (Hchars : list_ascii_of_string (encode bytes) = map symbol_char bytes)
    by apply encode_chars.
  assert (Hall : Forall (fun ch => in_alphabet ch = true) (list_ascii_of_string (encode bytes))).
  { rewrite Hchars. apply List.Forall_forall. intros ch Hin.
    apply in_map_iff in Hin as (b & <- & _). apply symbol_char_ok. }
  assert (Hsix : String.length (encode bytes) = 6%nat).
  { assert (G : forall t : string, String.length t = List.length (list_ascii_of_string t))
      by (induction t as [|x t IH]; cbn; congruence).
    rewrite G, Hchars, length_map. exact Hlen. }
  split; [|split; [|exact Hall]].
  - apply test_true, match_repeat_all. split; [exact Hsix|].
    rewrite Hchars. apply List.Forall_forall. intros ch Hin.
    apply in_map_iff in Hin as (b & <- & _). apply symbol_char_ok.
  - unfold validate_spec.
    assert (Hup : toUpperCase (encode bytes) = encode bytes).
    { rewrite <- (string_of_list_ascii_of_string (encode bytes)), Hchars.
      generalize bytes. induction bytes0 as [|b bs IH]; [reflexivity|].
      cbn [map string_of_list_ascii toUpperCase]. rewrite IH. f_equal.
      pose proof (symbol_char_ok b) as [_ Hb]. revert Hb.
      generalize (symbol_char b). intros ch Hch.
      unfold in_alphabet in Hch. apply existsb_exists in Hch as (x & Hx & Hcx).
      apply Ascii.eqb_eq in Hcx. subst x. revert Hx. clear.
      cbn [list_ascii_of_string ROOM_ALPHABET In].
      intros H. repeat (destruct H as [<- | H]; [reflexivity|]). destruct H. }
    rewrite Hup, Hsix. cbn [Nat.eqb andb]. apply forallb_forall.
    intros ch Hin. rewrite List.Forall_forall in Hall. apply Hall, Hin.
Qed.

End Distribution.

(** ** The signaling relay *)

Section RelayFacts.
Import Js Relay.
Context {json : JsonRuntime}.

Lemma valid_negb (roomId : string) :
  Room.isValidRoomId roomId = true -> negb (Room.isValidRoomId roomId) = false.
Proof. intros ->. reflexivity. Qed.

(** C5: a publish with a malformed id answers 400 and touches nothing; with
    a well-formed id and no live, truthy [exists] marker it answers 404 and
    leaves the store as it is; otherwise it stores the serialised
    description under the role's key and the marker, both with the
    300-second window, and answers [{ ok: true }]. *)
Theorem publish_outcome (roomId : string) (role : SignalType)
    (description : list (string * Value)) (s : Server) :
  let request := publish_request role description in
  let existsKey := exists_key roomId in
  let key := ("room:" +:+ roomId +:+ ":" +:+ signal_name role) in
  (Room.isValidRoomId roomId = false ->
     POST_publish roomId request s = (Returned (TextResponse "Invalid room" 400), s)) /\
  (Room.isValidRoomId roomId = true ->
   truthy (read (kv s) existsKey) = false ->
     fst (POST_publish roomId request s) = Returned (TextResponse "Room not found" 404) /\
     kv (snd (POST_publish roomId request s)) = kv s) /\
  (Room.isValidRoomId roomId = true ->
   truthy (read (kv s) existsKey) = true ->
     fst (POST_publish roomId request s) = Returned (JsonResponse (Obj [("ok", Bool true)])) /\
     kv (snd (POST_publish roomId request s))
     = <[ existsKey := fresh (Str "1") ]>
         (<[ key := fresh (Str (JSON_stringify (Obj description))) ]> (kv s)) /\
     ROOM_TTL_SECONDS = 300).
Proof.
  intros request existsKey key. unfold POST_publish. repeat split.
  - intros ->. reflexivity.
  - rewrite (valid_negb _ H). run_async. fold existsKey. rewrite H0. reflexivity.
  - rewrite (valid_negb _ H). run_async. fold existsKey. rewrite H0. reflexivity.
  - rewrite (valid_negb _ H). run_async. fold existsKey. rewrite H0.
    destruct role; reflexivity.
  - rewrite (valid_negb _ H). run_async. fold existsKey. rewrite H0.
    destruct role; reflexivity.
Qed.

Lemma read_only_refl (s : Server) : read_only s s.
Proof.
  repeat split. exists []. split; [symmetry; apply app_nil_r | reflexivity].
Qed.

Lemma read_only_get (key : string) (s s' : Server) :
  read_only s s' -> read_only s (logged (KvGet key) s').
Proof.
  intros (Hkv & Hc & ops & Hlog & Hops). repeat split; cbn; try assumption.
  exists (ops ++ [KvGet key]). split.
  - rewrite Hlog, app_assoc. reflexivity.
  - rewrite forallb_app, Hops. reflexivity.
Qed.

(** C10: neither poll handler writes: the store (values and remaining
    lifetimes) and the random source are as before, and every request the
    handler made to the store is a [get]. *)
Theorem poll_is_read_only (roomId : string) (s : Server) :
  read_only s (snd (GET_poll roomId s)) /\
  read_only s (snd (GET_poll_direct roomId s)).
Proof.
  split.
  - unfold GET_poll. run_async. split_cases; cbn [snd];
      repeat apply read_only_get; apply read_only_refl.
  - unfold GET_poll_direct. run_async. split_cases; cbn [snd];
      repeat apply read_only_get; apply read_only_refl.
Qed.

Lemma create_loop_returns (fuel : nat) (existsKey roomId : string) (attempt : Z) (s : Server) :
  (Z.to_nat (5 - attempt) < fuel)%nat ->
  exists roomId' s',
    create_loop fuel existsKey roomId attempt s = (Returned (Some roomId'), s') /\
    kv s' = kv s.
Proof.
  revert roomId attempt s. induction fuel as [|fuel IH]; intros roomId attempt s Hf; [lia|].
  cbn [create_loop]. run_async.
  destruct (truthy (read (kv s) existsKey) && (attempt <? 5)) eqn:Hc.
  - apply andb_true_iff in Hc as [_ Hlt]. apply Z.ltb_lt in Hlt.
    unfold generateRoomId at 1.
    destruct (Room.generateRoomId (crypto (logged (KvGet existsKey) s))) as [id c] eqn:Hg.
    edestruct (IH id (attempt + 1)) as (r & s' & Hrun & Hkv); [lia|].
    exists r, s'. split; [exact Hrun | rewrite Hkv; reflexivity].
  - exists roomId, (logged (KvGet existsKey) s). split; reflexivity.
Qed.

(** [POST_create] always answers with a room id, and what it leaves in
    the store is the marker of that id with the 300-second window. *)
Lemma POST_create_writes_marker (s : Server) :
  exists roomId s',
    POST_create s = (Returned (JsonResponse (Obj [("roomId", Str roomId)])), s') /\
    kv s' = <[ exists_key roomId := fresh (Str "1") ]> (kv s).
Proof.
  unfold POST_create. unfold bind at 1. unfold generateRoomId at 1.
  destruct (Room.generateRoomId (crypto s)) as [id c] eqn:Hg.
  unfold bind at 1.
  edestruct (create_loop_returns 6 (exists_key id) id 0) as (r & s' & Hrun & Hkv);
    [simpl; lia|].
  rewrite Hrun. run_async. eexists _, _. split; [reflexivity|].
  cbn. rewrite Hkv. reflexivity.
Qed.

Lemma generateRoomId_candidate (s : Server) :
  generateRoomId s
  = (Returned (candidate 0 (crypto s)),
     {| kv := kv s; kv_log := kv_log s;
        crypto := snd (Room.generateRoomId (crypto s)) |}).
Proof.
  unfold generateRoomId, candidate.
  replace (Room.drawn (crypto s) + 6 * 0)%nat with (Room.drawn (crypto s)) by lia.
  destruct (crypto s) as [feed drawn]. cbn [Room.feed Room.drawn].
  destruct (Room.generateRoomId _) as [id c]. reflexivity.
Qed.

Lemma candidate_shift (k : nat) (c : Room.Crypto) :
  candidate k (snd (Room.generateRoomId c)) = candidate (S k) c.
Proof.
  assert (H : snd (Room.generateRoomId c)
              = {| Room.feed := Room.feed c; Room.drawn := (Room.drawn c + 6)%nat |})
    by reflexivity.
  unfold candidate. rewrite H. cbn [Room.feed Room.drawn].
  do 3 f_equal. lia.
Qed.

Lemma create_loop_live_marker (fuel : nat) (existsKey roomId : string) (attempt : Z)
    (s : Server) :
  truthy (read (kv s) existsKey) = true ->
  0 <= attempt <= 5 ->
  (Z.to_nat (5 - attempt) < fuel)%nat ->
  exists s',
    create_loop fuel existsKey roomId attempt s
    = (Returned (Some (if attempt =? 5 then roomId
                       else candidate (Z.to_nat (4 - attempt)) (crypto s))), s').
Proof.
  revert roomId attempt s. induction fuel as [|fuel IH];
    intros roomId attempt s Hlive Ha Hf; [lia|].
  cbn [create_loop]. unfold bind at 1. unfold kv_get at 1. rewrite Hlive.
  destruct (attempt <? 5) eqn:Hlt; cbn [andb].
  - apply Z.ltb_lt in Hlt. unfold bind at 1. rewrite generateRoomId_candidate.
    edestruct (IH (candidate 0 (crypto (logged (KvGet existsKey) s))) (attempt + 1))
      as (s' & Hrun); [| | | rewrite Hrun].
    + exact Hlive.
    + lia.
    + lia.
    + exists s'. f_equal. f_equal. f_equal.
      cbn [crypto logged].
      destruct (attempt + 1 =? 5) eqn:E5.
      * apply Z.eqb_eq in E5.
        replace (attempt =? 5) with false by (symmetry; apply Z.eqb_neq; lia).
        replace (Z.to_nat (4 - attempt)) with 0%nat by lia. reflexivity.
      * apply Z.eqb_neq in E5.
        replace (attempt =? 5) with false by (symmetry; apply Z.eqb_neq; lia).
        rewrite candidate_shift. f_equal. lia.
  - apply Z.ltb_ge in Hlt. replace (attempt =? 5) with true by (symmetry; apply Z.eqb_eq; lia).
    eexists. reflexivity.
Qed.

(** Whenever the marker of the first candidate is live, [POST_create]
    answers the sixth candidate, whatever the store holds for the
    candidates in between and for the sixth itself. *)
Lemma POST_create_live_first_marker (s : Server) :
  truthy (read (kv s) (exists_key (candidate 0 (crypto s)))) = true ->
  fst (POST_create s)
  = Returned (JsonResponse (Obj [("roomId", Str (candidate 5 (crypto s)))])).
Proof.
  intros Hlive. unfold POST_create. unfold bind at 1.
  rewrite generateRoomId_candidate. unfold bind at 1.
  edestruct (create_loop_live_marker 6 (exists_key (candidate 0 (crypto s)))
               (candidate 0 (crypto s)) 0) as (s' & Hrun); [| | | rewrite Hrun].
  - exact Hlive.
  - lia.
  - simpl. lia.
  - cbn [Z.eqb Z.sub Z.to_nat crypto]. rewrite candidate_shift. reflexivity.
Qed.

(** *** The poll handler with [safeParse] *)

Lemma safeParse_unparsable (text : string) :
  JSON_parse text = None -> safeParse (Str text) = Null.
Proof.
  intros H. unfold safeParse. destruct (negb (truthy (Str text))); [reflexivity|].
  rewrite H. reflexivity.
Qed.

Lemma safeParse_absent : safeParse Null = Null.
Proof. reflexivity. Qed.

(** On a live room the handler always answers, with the two fields. *)
Lemma GET_poll_answers (roomId : string) (s : Server) :
  Room.isValidRoomId roomId = true ->
  truthy (read (kv s) (exists_key roomId)) = true ->
  fst (GET_poll roomId s)
  = Returned (poll_response (poll_field s roomId "offer") (poll_field s roomId "answer")).
Proof.
  intros Hv Hl. unfold GET_poll. rewrite (valid_negb _ Hv). run_async.
  rewrite Hl. reflexivity.
Qed.

(** A dedicated value that is absent or does not parse leaves the field
    to the legacy record; a field is never [undefined]. *)
Lemma poll_field_fallback (s : Server) (roomId field : string) :
  let dedicated := read (kv s) ("room:" +:+ roomId +:+ ":" +:+ field) in
  let legacy := safeParse (read (kv s) ("room:" +:+ roomId)) in
  (dedicated = Null \/ (exists text, dedicated = Str text /\ JSON_parse text = None) ->
   poll_field s roomId field = nullish (get_opt legacy field) Null) /\
  poll_field s roomId field <> Undefined.
Proof.
  intros dedicated legacy. split.
  - unfold poll_field. fold dedicated. fold legacy.
    intros [-> | (text & -> & Hp)]; [reflexivity|].
    rewrite (safeParse_unparsable _ Hp). reflexivity.
  - unfold poll_field.
    match goal with
    | |- nullish ?x Null <> Undefined => destruct x; cbn; discriminate
    end.
Qed.

(** *** Expiry *)

Lemma read_elapse (seconds : Z) (m : gmap string Entry) (key : string) :
  0 <= seconds ->
  read (elapse seconds m) key
  = match m !! key with
    | Some e => if seconds <? entry_ttl e then entry_value e else Null
    | None => Null
    end.
Proof.
  intros Hs. unfold read, elapse. rewrite lookup_omap.
  destruct (m !! key) as [e|]; [|reflexivity]. cbn.
  destruct (seconds <? entry_ttl e) eqn:E; [|reflexivity]. cbn.
  unfold live. cbn. apply Z.ltb_lt in E.
  replace (0 <? entry_ttl e - seconds) with true by (symmetry; apply Z.ltb_lt; lia).
  reflexivity.
Qed.

(** A marker written by the handlers is read for less than 300 seconds. *)
Lemma marker_lifetime (seconds : Z) (m : gmap string Entry) (roomId : string) :
  0 <= seconds ->
  truthy (read (elapse seconds (<[ exists_key roomId := fresh (Str "1") ]> m))
               (exists_key roomId))
  = (seconds <? 300).
Proof.
  intros Hs. rewrite read_elapse by exact Hs. rewrite lookup_insert_eq.
  cbn [fresh entry_ttl entry_value]. change ROOM_TTL_SECONDS with 300.
  destruct (seconds <? 300); reflexivity.
Qed.

End RelayFacts.

(** ** The handlers run on concrete stores *)

Section RelayRuns.
Import Js Relay.

(** C4, the failing input: the first candidate AAAAAA and the sixth
    candidate FFFFFF are live rooms, the candidates BBBBBB to EEEEEE are
    free. The handler tests the marker of AAAAAA six times and answers
    FFFFFF; testing the marker of the current candidate, as the spec
    words it, answers BBBBBB after one retry. *)
Example create_tests_first_marker_only :
  fst (POST_create (server_with store_A_F))
    = Returned (JsonResponse (Obj [("roomId", Str "FFFFFF")])) /\
  kv_log (snd (POST_create (server_with store_A_F)))
    = repeat (KvGet "room:AAAAAA:exists") 6
      ++ [KvSet "room:FFFFFF:exists" (Str "1") 300] /\
  fst (createRoom_spec (server_with store_A_F))
    = Returned (JsonResponse (Obj [("roomId", Str "BBBBBB")])) /\
  kv_log (snd (createRoom_spec (server_with store_A_F)))
    = [KvGet "room:AAAAAA:exists"; KvGet "room:BBBBBB:exists";
       KvSet "room:BBBBBB:exists" (Str "1") 300].
Proof. vm_compute. repeat split. Qed.

(** C6, the failing inputs: on a live room whose offer value does not
    parse, the handler that parses the two keys directly throws, where
    the handler with [safeParse] answers; and it does not read the legacy
    record. *)
Example poll_direct_throws :
  fst (GET_poll_direct "ABC123" (server_with store_offer_broken)) = Thrown "SyntaxError" /\
  fst (GET_poll "ABC123" (server_with store_offer_broken))
    = Returned (poll_response Null Null) /\
  fst (GET_poll_direct "ABC123" (server_with store_offer_object)) = Thrown "SyntaxError" /\
  fst (GET_poll "ABC123" (server_with store_offer_object))
    = Returned (poll_response description Null) /\
  fst (GET_poll_direct "ABC123" (server_with store_legacy))
    = Returned (poll_response Null Null) /\
  fst (GET_poll "ABC123" (server_with store_legacy))
    = Returned (poll_response description Null).
Proof. vm_compute. repeat split. Qed.

End RelayRuns.

(** ** The sender *)

Section Lists.
Context {A : Type}.

Lemma firstn_add_skipn (a b : nat) (l : list A) :
  firstn (a + b) l = firstn a l ++ firstn b (skipn a l).
Proof.
  revert l. induction a as [|a IH]; intros l; [reflexivity|].
  destruct l as [|x l]; cbn [Nat.add firstn skipn app].
  - rewrite firstn_nil. reflexivity.
  - rewrite IH. reflexivity.
Qed.

Lemma firstn_min_length (n : nat) (l : list A) :
  firstn n l = firstn (Nat.min n (List.length l)) l.
Proof.
  destruct (Nat.le_ge_cases n (List.length l)) as [H|H].
  - rewrite Nat.min_l by exact H. reflexivity.
  - rewrite Nat.min_r by exact H. rewrite !firstn_all2; [reflexivity | lia | lia].
Qed.

Lemma concat_snoc (ls : list (list A)) (l : list A) :
  concat (ls ++ [l]) = concat ls ++ l.
Proof. rewrite concat_app. cbn [concat]. rewrite app_nil_r. reflexivity. Qed.

End Lists.

Section Framing.
Import Wire Phone.
Variable f : File.

Lemma chunk_size_pos : 0 < CHUNK_SIZE.
Proof. unfold CHUNK_SIZE. lia. Qed.

Lemma file_size_nonneg : 0 <= file_size f.
Proof. unfold file_size, byteLength. lia. Qed.

Lemma slice_length (off : Z) :
  0 <= off ->
  byteLength (slice f off (off + CHUNK_SIZE)) = Z.min CHUNK_SIZE (Z.max 0 (file_size f - off)).
Proof.
  intros Hoff. unfold slice, byteLength, file_size, byteLength.
  replace (off + CHUNK_SIZE - off) with CHUNK_SIZE by lia.
  rewrite length_firstn, length_skipn. pose proof chunk_size_pos. lia.
Qed.

Lemma framing_start : framing f 0 [].
Proof.
  pose proof chunk_size_pos. pose proof file_size_nonneg.
  unfold framing. split; [lia|]. split; [reflexivity|]. split; [constructor|].
  cbn [List.length]. split; [|lia].
  symmetry. apply Z.div_small. lia.
Qed.

Lemma framing_next (off : Z) (frames : list (list byte)) :
  framing f off frames ->
  off < file_size f ->
  let buffer := slice f off (off + CHUNK_SIZE) in
  framing f (off + byteLength buffer) (frames ++ [buffer]) /\
  0 < byteLength buffer <= CHUNK_SIZE /\
  (off + byteLength buffer < file_size f -> byteLength buffer = CHUNK_SIZE).
Proof.
  intros (Hoff & Hcat & Hall & Hcount & Hfull) Hlt buffer.
  pose proof chunk_size_pos as HC.
  assert (Hlen : byteLength buffer = Z.min CHUNK_SIZE (file_size f - off)).
  { unfold buffer. rewrite slice_length by lia. lia. }
  assert (Hb : 0 < byteLength buffer <= CHUNK_SIZE) by lia.
  split; [|split; [exact Hb | lia]].
  specialize (Hfull Hlt).
  unfold framing. repeat split.
  - lia.
  - lia.
  - rewrite concat_snoc, Hcat.
    assert (Hbuf : buffer = firstn (Z.to_nat CHUNK_SIZE) (skipn (Z.to_nat off) (file_bytes f))).
    { unfold buffer, slice. do 2 f_equal. lia. }
    revert Hlen. generalize (byteLength buffer). intros L HL.
    rewrite Hbuf, <- firstn_add_skipn.
    rewrite (firstn_min_length (Z.to_nat off + Z.to_nat CHUNK_SIZE)).
    rewrite (firstn_min_length (Z.to_nat (off + L))).
    f_equal. unfold file_size, byteLength in *. lia.
  - apply Forall_app. split; [exact Hall|]. constructor; [exact Hb | constructor].
  - rewrite length_app. cbn [List.length].
    rewrite Nat2Z.inj_add. change (Z.of_nat 1) with 1.
    set (n := Z.of_nat (List.length frames)) in *.
    apply Z.div_unique with (r := byteLength buffer - 1); nia.
  - intros Hmore. rewrite length_app. cbn [List.length].
    rewrite Nat2Z.inj_add. change (Z.of_nat 1) with 1. lia.
Qed.

Lemma framing_whole (frames : list (list byte)) :
  framing f (file_size f) frames ->
  concat frames = file_bytes f /\
  Forall (fun fr => byteLength fr <= CHUNK_SIZE) frames /\
  Z.of_nat (List.length frames) = (file_size f + CHUNK_SIZE - 1) / CHUNK_SIZE.
Proof.
  intros (_ & Hcat & Hall & Hcount & _). repeat split.
  - rewrite Hcat. apply firstn_all2. unfold file_size, byteLength. lia.
  - eapply List.Forall_impl; [|exact Hall]. cbn. intros fr H. lia.
  - exact Hcount.
Qed.

End Framing.

Section SenderFacts.
Import Wire Phone.
Context {json : JsonRuntime}.
Variable f : File.

Lemma send_open (d : Data) (ch : Channel) :
  readyState ch = Open ->
  send d ch = Some {| readyState := Open;
                      bufferedAmount := bufferedAmount ch + data_size d;
                      bufferedAmountLowThreshold := bufferedAmountLowThreshold ch;
                      outbox := outbox ch ++ [(d, bufferedAmount ch)] |}.
Proof. unfold send. intros ->. reflexivity. Qed.

Lemma send_some (d : Data) (ch ch' : Channel) :
  send d ch = Some ch' ->
  readyState ch = Open /\ readyState ch' = Open /\
  sent ch' = sent ch ++ [d] /\
  outbox ch' = outbox ch ++ [(d, bufferedAmount ch)] /\
  bufferedAmount ch' = bufferedAmount ch + data_size d /\
  bufferedAmountLowThreshold ch' = bufferedAmountLowThreshold ch.
Proof.
  unfold send. destruct (readyState ch) eqn:E; try discriminate.
  intros [= <-]. cbn. unfold sent. cbn. rewrite map_app. repeat split.
Qed.

(** The loop test and what follows it, from a state in which the frames
    sent so far are the framing of the first [offset] bytes. *)
Lemma loop_head_inv (s : Sender) (ch : Channel) (frames : list (list byte)) :
  selectedFile s = Some f ->
  channelRef s = Some ch ->
  bufferedAmountLowThreshold ch = BUFFERED_LOW_WATER_MARK ->
  bytesSent s = offset s ->
  status s <> Ready ->
  sent ch = Text (meta_text f) :: map Binary frames ->
  framing f (offset s) frames ->
  sender_inv f (loop_head s).
Proof.
  intros Hf Hch Hthr Hbs Hst Hsent Hfr.
  unfold loop_head. rewrite Hf, Hch.
  destruct (offset s <? file_size f) eqn:Hlt.
  - apply Z.ltb_lt in Hlt.
    destruct (bufferedAmount ch <=? BUFFERED_HIGH_WATER_MARK);
      (split; [exact Hf|]; split; [exact Hbs|]; split; [intros H; contradiction|];
       exists ch; split; [exact Hch|]; split; [exact Hthr|];
       exists frames; split; [exact Hsent|]; split; [exact Hfr | exact Hlt]).
  - apply Z.ltb_ge in Hlt.
    assert (Hoff : offset s = file_size f) by (destruct Hfr as [? _]; lia).
    unfold after_loop. destruct (send _ ch) as [ch'|] eqn:Hsend.
    + apply send_some in Hsend as (_ & _ & Hs' & _ & _ & Ht').
      split; [exact Hf|]. split; [exact Hbs|]. split; [discriminate|].
      exists (close ch'). split; [reflexivity|]. split; [cbn; congruence|].
      exists frames. sender_fields. unfold wire_inv. cbn [pc set_pc].
      split; [|split; [rewrite <- Hoff; exact Hfr | exact Hoff]].
      unfold sent in *. cbn [close outbox]. rewrite Hs', Hsent. reflexivity.
    + split; [exact Hf|]. split; [exact Hbs|]. split; [discriminate|].
      exists ch. split; [exact Hch|]. split; [exact Hthr|].
      exists frames. split; assumption.
Qed.

(** A step that leaves the locals, the program point and the outbox as
    they are keeps the invariant. *)
Lemma inv_same_wire (s s' : Sender) :
  sender_inv f s ->
  selectedFile s' = selectedFile s ->
  bytesSent s' = bytesSent s ->
  offset s' = offset s ->
  pc s' = pc s ->
  (status s' = Ready -> status s = Ready) ->
  (forall ch, channelRef s = Some ch ->
     exists ch', channelRef s' = Some ch' /\ outbox ch' = outbox ch /\
                 bufferedAmountLowThreshold ch' = bufferedAmountLowThreshold ch /\
                 (status s' = Ready -> readyState ch' = readyState ch)) ->
  sender_inv f s'.
Proof.
  intros (Hf & Hbs & Hst & ch & Hch & Hthr & Hw) Ef Eb Eo Ep Es Ec.
  destruct (Ec ch Hch) as (ch' & Hch' & Hout & Hthr' & Hrs).
  split; [congruence|]. split; [congruence|].
  split; [intros H; rewrite Ep; auto|].
  exists ch'. split; [exact Hch'|]. split; [congruence|].
  unfold wire_inv, sent in *. rewrite Ep, Eo, Hout.
  destruct (pc s); try exact Hw.
  destruct Hw as (Ho & Hz & Hr). split; [exact Ho|]. split; [exact Hz|].
  intros H. rewrite (Hrs H). auto.
Qed.

(** Leaving [waitForBufferedLow], or going from listening to polling. *)
Lemma inv_wait (s : Sender) (w : Wait) (p : Pc) :
  sender_inv f s ->
  pc s = AwaitBufferedLow w ->
  (p = AwaitArrayBuffer \/ exists w', p = AwaitBufferedLow w') ->
  sender_inv f (set_pc p s).
Proof.
  intros (Hf & Hbs & Hst & ch & Hch & Hthr & Hw) Hpc Hp.
  assert (Hnr : status s <> Ready) by (intros H; apply Hst in H; congruence).
  split; [exact Hf|]. split; [exact Hbs|]. split; [intros H; contradiction|].
  exists ch. split; [exact Hch|]. split; [exact Hthr|].
  unfold wire_inv in *. rewrite Hpc in Hw. cbn [pc set_pc offset].
  destruct Hp as [-> | [w' ->]]; exact Hw.
Qed.

Lemma sendFile_inv (s : Sender) :
  sender_inv f s -> status s = Ready -> sender_inv f (sendFile s).
Proof.
  intros (Hf & Hbs & Hst & ch & Hch & Hthr & Hw) Hready.
  unfold wire_inv in Hw. rewrite (Hst Hready) in Hw.
  destruct Hw as (Hout & Hoff & Hopen). specialize (Hopen Hready).
  unfold sendFile. rewrite Hf, Hch, Hopen, (send_open _ _ Hopen).
  eapply loop_head_inv with (frames := []).
  - exact Hf.
  - reflexivity.
  - exact Hthr.
  - reflexivity.
  - discriminate.
  - unfold sent. cbn [outbox]. rewrite Hout. reflexivity.
  - apply framing_start.
Qed.

Lemma after_read_inv (s : Sender) :
  sender_inv f s -> pc s = AwaitArrayBuffer -> sender_inv f (after_read s).
Proof.
  intros (Hf & Hbs & Hst & ch & Hch & Hthr & Hw) Hpc.
  assert (Hnr : status s <> Ready) by (intros H; apply Hst in H; congruence).
  unfold wire_inv in Hw. rewrite Hpc in Hw. destruct Hw as (frames & Hsent & Hfr & Hlt).
  unfold after_read. rewrite Hf, Hch.
  destruct (framing_next f _ _ Hfr Hlt) as (Hfr' & Hlen & _).
  destruct (send _ ch) as [ch'|] eqn:Hsend.
  - apply send_some in Hsend as (_ & _ & Hs' & _ & _ & Ht').
    assert (Hsent' : sent ch' = Text (meta_text f)
                                :: map Binary (frames ++ [slice f (offset s) (offset s + CHUNK_SIZE)])).
    { rewrite Hs', Hsent, map_app. reflexivity. }
    destruct (Z.rem (chunkCount s + 1) 8 =? 0).
    + split; [exact Hf|]. split; [reflexivity|]. split; [intros H; contradiction|].
      exists ch'. split; [reflexivity|]. split; [congruence|].
      eexists. split; [exact Hsent' | exact Hfr'].
    + eapply loop_head_inv; try reflexivity; try eassumption.
      congruence.
  - split; [exact Hf|]. split; [exact Hbs|]. split; [discriminate|].
    exists ch. split; [exact Hch|]. split; [exact Hthr|].
    exists frames. split; assumption.
Qed.

Lemma yield_inv (s : Sender) :
  sender_inv f s -> pc s = AwaitYield -> sender_inv f (loop_head s).
Proof.
  intros (Hf & Hbs & Hst & ch & Hch & Hthr & Hw) Hpc.
  assert (Hnr : status s <> Ready) by (intros H; apply Hst in H; congruence).
  unfold wire_inv in Hw. rewrite Hpc in Hw. destruct Hw as (frames & Hsent & Hfr).
  eapply loop_head_inv; eassumption.
Qed.

Lemma step_inv (s : Sender) (e : Event) :
  sender_inv f s -> sender_inv f (step s e).
Proof.
  intros H. destruct e; unfold step.
  - destruct (status s) eqn:Hst; try exact H. apply sendFile_inv; assumption.
  - destruct (pc s) eqn:Hpc; try exact H. apply after_read_inv; assumption.
  - destruct (pc s) eqn:Hpc; try exact H. apply yield_inv; assumption.
  - destruct (pc s) as [|[due|next]| | | |] eqn:Hpc; try exact H.
    eapply inv_wait; eauto.
  - destruct (pc s) as [|[due|next]| | | |] eqn:Hpc; try exact H.
    destruct (due <=? clock s); [|exact H]. eapply inv_wait; eauto.
  - destruct (pc s) as [|[due|next]| | | |] eqn:Hpc; try exact H.
    destruct (next <=? clock s); [|exact H].
    destruct (channelRef s) as [ch|]; [|exact H].
    destruct (bufferedAmount ch <=? BUFFERED_LOW_WATER_MARK); eapply inv_wait; eauto.
  - assert (G : sender_inv f (on_channel (transmit n) s)).
    { eapply inv_same_wire; try exact H; unfold on_channel;
        try (destruct (channelRef s); reflexivity); try (destruct (channelRef s); auto; fail).
      intros ch Hch. rewrite Hch. eexists. split; [reflexivity|]. repeat split. }
    destruct (pc s) as [|[due|next]| | | |]; exact G.
  - assert (G : sender_inv f (set_clock (clock s + Z.of_N ms) s)).
    { eapply inv_same_wire; try exact H; try reflexivity; auto.
      intros ch Hch. exists ch. repeat split. exact Hch. }
    destruct (pc s) as [|[due|next]| | | |]; exact G.
  - assert (G : sender_inv f (setStatus Error
                   (setError (Some "Channel closed. Please reconnect.")
                      (on_channel set_closed s)))).
    { eapply inv_same_wire; try exact H; unfold on_channel;
        try (destruct (channelRef s); reflexivity); try discriminate.
      intros ch Hch. rewrite Hch. eexists. split; [reflexivity|].
      split; [reflexivity|]. split; [reflexivity|]. discriminate. }
    destruct (pc s) as [|[due|next]| | | |]; exact G.
Qed.

Lemma run_inv (s : Sender) (events : list Event) :
  sender_inv f s -> sender_inv f (run s events).
Proof.
  revert s. induction events as [|e events IH]; intros s H; [exact H|].
  apply IH, step_inv, H.
Qed.

Lemma ready_inv (buffered : N) : sender_inv f (ready f buffered).
Proof.
  split; [reflexivity|]. split; [reflexivity|]. split; [reflexivity|].
  eexists. split; [reflexivity|]. split; [reflexivity|].
  split; [reflexivity|]. split; reflexivity.
Qed.

(** *** Backpressure *)









Lemma contract_snoc (s : Sender) (events : list Event) (e : Event) :
  respects_contract s (events ++ [e]) = true ->
  respects_contract s events = true /\ low_event_allowed (run s events) e = true.
Proof.
  revert s. induction events as [|e0 events IH]; intros s H.
  - cbn in H. rewrite andb_true_r in H. split; [reflexivity | exact H].
  - cbn [app respects_contract] in H. apply andb_true_iff in H as [H0 H].
    destruct (IH _ H) as [H1 H2]. split; [|exact H2].
    cbn [respects_contract]. rewrite H0, H1. reflexivity.
Qed.





(** *** Progress *)

Lemma contract_app (s : Sender) (l1 l2 : list Event) :
  respects_contract s (l1 ++ l2)
  = respects_contract s l1 && respects_contract (run s l1) l2.
Proof.
  revert s. induction l1 as [|e l1 IH]; intros s; [reflexivity|].
  cbn [app respects_contract run fold_left]. rewrite IH, andb_assoc. reflexivity.
Qed.

Lemma run_app (s : Sender) (l1 l2 : list Event) :
  run s (l1 ++ l2) = run (run s l1) l2.
Proof. unfold run. apply fold_left_app. Qed.

Lemma loop_head_in_loop (s : Sender) (ch : Channel) :
  selectedFile s = Some f ->
  channelRef s = Some ch ->
  readyState ch = Open ->
  in_loop (loop_head s) (offset s).
Proof.
  intros Hf Hch Hopen. unfold loop_head. rewrite Hf, Hch.
  destruct (offset s <? file_size f).
  - destruct (bufferedAmount ch <=? BUFFERED_HIGH_WATER_MARK); right;
      (split; [exists ch; split; assumption|]; split; [reflexivity|]).
    + right. left. reflexivity.
    + right. right. eexists. reflexivity.
  - unfold after_loop. rewrite (send_open _ _ Hopen). left. reflexivity.
Qed.

Lemma sendFile_in_loop (buffered0 : N) :
  in_loop (step (ready f buffered0) Click_send) 0.
Proof.
  change (step (ready f buffered0) Click_send) with (sendFile (ready f buffered0)).
  unfold sendFile. cbn [ready selectedFile setSelectedFile channelRef onopen setStatus
                        ondatachannel set_channel initial readyState open_channel].
  rewrite send_open by reflexivity.
  match goal with
  | |- in_loop (loop_head ?s') _ =>
      exact (loop_head_in_loop s' _ eq_refl eq_refl eq_refl)
  end.
Qed.

Lemma after_read_in_loop (s : Sender) :
  sender_inv f s ->
  pc s = AwaitArrayBuffer ->
  channel_open s ->
  in_loop (after_read s)
          (offset s + byteLength (slice f (offset s) (offset s + CHUNK_SIZE))).
Proof.
  intros (Hf & _) Hpc (ch & Hch & Hopen).
  unfold after_read. rewrite Hf, Hch, (send_open _ _ Hopen).
  destruct (Z.rem (chunkCount s + 1) 8 =? 0).
  - right. split; [eexists; split; reflexivity|]. split; [reflexivity|].
    left. reflexivity.
  - match goal with
    | |- in_loop (loop_head ?s') _ =>
        exact (loop_head_in_loop s' _ Hf eq_refl eq_refl)
    end.
Qed.

(** From any point of the loop the sender can be brought to the next
    read, or to the end, by events the contract allows. *)
Lemma to_next_read (s : Sender) (sent_bytes : Z) :
  sender_inv f s ->
  in_loop s sent_bytes ->
  exists events,
    respects_contract s events = true /\
    (pc (run s events) = Finished \/
     (pc (run s events) = AwaitArrayBuffer /\ channel_open (run s events) /\
      offset (run s events) = sent_bytes)).
Proof.
  intros Hinv [Hfin | (Hopen & Hoff & [Hpc | [Hpc | [due Hpc]]])].
  - exists []. split; [reflexivity | left; exact Hfin].
  - destruct Hopen as (ch & Hch & Hopen).
    pose proof Hinv as (Hf & _).
    pose proof (loop_head_in_loop s ch Hf Hch Hopen) as
      [Hfin | (Hopen' & Hoff' & [Hy | [Hr | [due Hl]]])].
    + exists [YieldTimer]. split; [reflexivity|]. left.
      cbn [run fold_left]. unfold step. rewrite Hpc. exact Hfin.
    + exfalso. revert Hy. unfold loop_head. rewrite Hf, Hch.
      destruct (offset s <? file_size f);
        [destruct (bufferedAmount ch <=? BUFFERED_HIGH_WATER_MARK); discriminate|].
      unfold after_loop. rewrite (send_open _ _ Hopen). discriminate.
    + exists [YieldTimer]. split; [reflexivity|]. right.
      cbn [run fold_left]. unfold step. rewrite Hpc.
      split; [exact Hr|]. split; [exact Hopen' | congruence].
    + destruct Hopen' as (ch' & Hch' & Hopen').
      exists [YieldTimer; Transmit (Z.to_N (bufferedAmount ch')); BufferedAmountLow].
      assert (E1 : step s YieldTimer = loop_head s) by (unfold step; rewrite Hpc; reflexivity).
      cbn [run fold_left respects_contract]. rewrite E1.
      assert (E2 : step (loop_head s) (Transmit (Z.to_N (bufferedAmount ch')))
                   = on_channel (transmit (Z.to_N (bufferedAmount ch'))) (loop_head s)).
      { reflexivity. }
      rewrite E2. unfold on_channel. rewrite Hch'.
      assert (Hthr : bufferedAmountLowThreshold ch' = BUFFERED_LOW_WATER_MARK).
      { assert (Hi : sender_inv f (loop_head s))
          by (rewrite <- E1; apply step_inv; exact Hinv).
        destruct Hi as (_ & _ & _ & c & Hc & Ht & _). congruence. }
      split.
      * unfold low_event_allowed. cbn [channelRef set_channel transmit bufferedAmount
                                        bufferedAmountLowThreshold].
        rewrite Hthr. unfold BUFFERED_LOW_WATER_MARK.
        apply andb_true_iff. split; [reflexivity|]. apply andb_true_iff. split; [reflexivity|].
        rewrite andb_true_r. apply Z.leb_le. lia.
      * right. unfold step. cbn [pc set_channel]. rewrite Hl. cbn [pc set_pc].
        split; [reflexivity|]. split.
        -- eexists. split; [reflexivity|]. exact Hopen'.
        -- cbn [offset set_pc set_channel]. congruence.
  - exists []. split; [reflexivity|]. right. split; [exact Hpc|]. split; assumption.
  - destruct Hopen as (ch & Hch & Hopen).
    exists [Transmit (Z.to_N (bufferedAmount ch)); BufferedAmountLow].
    assert (Hthr : bufferedAmountLowThreshold ch = BUFFERED_LOW_WATER_MARK).
    { destruct Hinv as (_ & _ & _ & c & Hc & Ht & _). congruence. }
    assert (E2 : step s (Transmit (Z.to_N (bufferedAmount ch)))
                 = on_channel (transmit (Z.to_N (bufferedAmount ch))) s).
    { reflexivity. }
    cbn [run fold_left respects_contract]. rewrite E2. unfold on_channel. rewrite Hch.
    split.
    + unfold low_event_allowed. cbn [channelRef set_channel transmit bufferedAmount
                                      bufferedAmountLowThreshold].
      rewrite Hthr. unfold BUFFERED_LOW_WATER_MARK.
      apply andb_true_iff. split; [reflexivity|]. rewrite andb_true_r. apply Z.leb_le. lia.
    + right. unfold step. cbn [pc set_channel]. rewrite Hpc. cbn [pc set_pc].
      split; [reflexivity|]. split.
      * eexists. split; [reflexivity|]. exact Hopen.
      * exact Hoff.
Qed.

(** From a read, the transfer can be completed. *)
Lemma read_can_finish (n : nat) (s : Sender) :
  sender_inv f s ->
  pc s = AwaitArrayBuffer ->
  channel_open s ->
  file_size f - offset s <= Z.of_nat n * CHUNK_SIZE ->
  exists events,
    respects_contract s events = true /\ pc (run s events) = Finished.
Proof.
  revert s. induction n as [|n IH]; intros s Hinv Hpc Hopen Hn.
  - exfalso. destruct Hinv as (_ & _ & _ & ch & _ & _ & Hw).
    unfold wire_inv in Hw. rewrite Hpc in Hw. destruct Hw as (? & _ & _ & Hlt). lia.
  - set (s1 := step s ArrayBufferReady).
    assert (E1 : s1 = after_read s) by (unfold s1, step; rewrite Hpc; reflexivity).
    assert (Hinv1 : sender_inv f s1) by (apply step_inv, Hinv).
    pose proof (after_read_in_loop s Hinv Hpc Hopen) as Hloop. rewrite <- E1 in Hloop.
    destruct (to_next_read s1 _ Hinv1 Hloop) as (ev1 & Hc1 & [Hfin | (Hpc2 & Hopen2 & Hoff2)]).
    + exists (ArrayBufferReady :: ev1). split; [|exact Hfin].
      cbn [respects_contract]. fold s1. rewrite Hc1. reflexivity.
    + set (s2 := run s1 ev1) in *.
      assert (Hinv2 : sender_inv f s2) by (apply run_inv, Hinv1).
      assert (Hlt2 : offset s2 < file_size f).
      { destruct Hinv2 as (_ & _ & _ & ch & _ & _ & Hw).
        unfold wire_inv in Hw. rewrite Hpc2 in Hw. destruct Hw as (? & _ & _ & Hlt). exact Hlt. }
      assert (Hoff0 : 0 <= offset s).
      { destruct Hinv as (_ & _ & _ & ch & _ & _ & Hw).
        unfold wire_inv in Hw. rewrite Hpc in Hw.
        destruct Hw as (? & _ & ((H0 & _) & _) & _). exact H0. }
      pose proof (slice_length f (offset s) Hoff0) as Hlen.
      pose proof chunk_size_pos.
      destruct (IH s2 Hinv2 Hpc2 Hopen2) as (ev2 & Hc2 & Hfin2); [nia|].
      exists (ArrayBufferReady :: ev1 ++ ev2). split.
      * cbn [respects_contract]. fold s1. rewrite contract_app, Hc1. exact Hc2.
      * cbn [run fold_left]. fold s1. fold (run s1 (ev1 ++ ev2)). rewrite run_app. exact Hfin2.
Qed.

(** Every file can be sent to the end: from the ready sender there is a
    run, allowed by the transport's contract, that finishes [sendFile]. *)
Lemma sendFile_can_finish (buffered0 : N) :
  exists events,
    respects_contract (ready f buffered0) events = true /\
    pc (run (ready f buffered0) events) = Finished.
Proof.
  set (s0 := ready f buffered0).
  set (s1 := step s0 Click_send).
  assert (Hinv1 : sender_inv f s1) by (apply step_inv, ready_inv).
  destruct (to_next_read s1 0 Hinv1 (sendFile_in_loop buffered0))
    as (ev1 & Hc1 & [Hfin | (Hpc2 & Hopen2 & Hoff2)]).
  - exists (Click_send :: ev1). split; [|exact Hfin].
    cbn [respects_contract]. fold s1. rewrite Hc1. reflexivity.
  - pose proof chunk_size_pos. pose proof file_size_nonneg f.
    destruct (read_can_finish (Z.to_nat (file_size f)) (run s1 ev1))
      as (ev2 & Hc2 & Hfin2); try assumption.
    + apply run_inv, Hinv1.
    + rewrite Hoff2. nia.
    + exists (Click_send :: ev1 ++ ev2). split.
      * cbn [respects_contract]. fold s1. rewrite contract_app, Hc1. exact Hc2.
      * cbn [run fold_left]. fold s1. fold (run s1 (ev1 ++ ev2)). rewrite run_app. exact Hfin2.
Qed.






End SenderFacts.

(** ** The receiver *)

Section ReceiverFacts.
Import Wire Computer.
Context {json : JsonRuntime}.

(** C2 (amended): whatever the state, before [meta] and after [done]
    included, a binary frame raises nothing: status, error and file
    metadata stay as they are. The frame is payload: with no stream it is
    appended to the chunks and counted, with an open stream it is written
    and counted; only when the stream is already closed is it dropped,
    without a trace in the state. *)
Theorem binary_frame_any_time (picker : Picker) (chunk : list byte) (r : Receiver) :
  let r' := onmessage picker r (Binary chunk) in
  status r' = status r /\ error r' = error r /\ fileMeta r' = fileMeta r /\
  match writableRef r with
  | None =>
      chunksRef r' = chunksRef r ++ [chunk] /\
      bytesReceived r' = bytesReceived r + byteLength chunk
  | Some w =>
      if closed w then r' = r
      else writableRef r' = Some {| written := written w ++ chunk; closed := false |} /\
           bytesReceived r' = bytesReceived r + byteLength chunk
  end.
Proof.
  unfold onmessage, handleDataMessage. cbn zeta.
  destruct (writableRef r) as [w|] eqn:Hw.
  - unfold write. destruct (closed w); cbn; repeat split; reflexivity.
  - cbn. repeat split; reflexivity.
Qed.

End ReceiverFacts.

(** ** The computer page *)

Section PageFacts.
Import Wire Computer ComputerPage.
Context {json : JsonRuntime}.

Lemma same_eq (a b : option nat) : same a b = true <-> a = b.
Proof.
  destruct a as [x|], b as [y|]; cbn; try (split; [discriminate | congruence]);
    [|split; reflexivity].
  rewrite Nat.eqb_eq. split; congruence.
Qed.

Lemma page_run_snoc (picker : bool) (p : Page) (l : list Event) (e : Event) :
  run picker p (l ++ [e]) = step picker (run picker p l) e.
Proof. unfold run. rewrite fold_left_app. reflexivity. Qed.

Lemma page_run_app (picker : bool) (p : Page) (l1 l2 : list Event) :
  run picker p (l1 ++ l2) = run picker (run picker p l1) l2.
Proof. unfold run. apply fold_left_app. Qed.


Lemma Forall_resume {A} (P : A -> Prop) (k : nat) (l : list A) :
  Forall P l -> Forall P (firstn k l ++ skipn (S k) l).
Proof.
  intros H. apply Forall_app. split; [apply Forall_take | apply Forall_drop]; exact H.
Qed.

Lemma after_close_quiet (p : Page) :
  quiet p -> quiet (after_close None p).
Proof.
  intros (Hl & Hu & Hn & Ho & Hs & Hp). unfold after_close.
  destruct (writableRef (cells p)); [|destruct (chunksRef (cells p))];
    page_fields; repeat split; assumption.
Qed.

Lemma step_quiet (picker : bool) (p : Page) (e : Event) :
  quiet p -> quiet (step picker p e).
Proof.
  intros Q. pose proof Q as (Hl & Hu & Hn & Ho & Hs & Hp).
  assert (Hsus : forall a, match a with StreamClose m => m = None | _ => True end ->
                 Forall (fun a => match a with StreamClose m => m = None | _ => True end)
                        (pending p ++ [a])).
  { intros a Ha. apply Forall_app. split; [exact Hp|]. constructor; [exact Ha | constructor]. }
  pose proof (fun k => Forall_resume _ k _ Hp) as Hres.
  destruct e as [data|k granted|k|k| |]; unfold step.
  - destruct (channel (link p)); try exact Q.
    destruct data as [s|chunk]; unfold handleDataMessage, on_text, on_meta, handleReceiveDone, picker_failed.
    + rewrite Hl. repeat case_match; simplify_eq; try apply after_close_quiet;
        try exact Q; page_fields; repeat split; try assumption; try (apply Hsus; exact I);
        try (apply Hsus; reflexivity).
    + repeat case_match; simplify_eq; try exact Q; page_fields; repeat split;
        try assumption; apply Hsus; exact I.
  - destruct (nth_error (pending p) k) as [[size|n|m]|] eqn:Hk; try exact Q.
    unfold after_picker, picker_failed.
    destruct granted; [|destruct (is_large size)]; page_fields;
      repeat split; try assumption; apply Hres.
  - destruct (nth_error (pending p) k) as [[size|n|m]|] eqn:Hk; try exact Q.
    page_fields. repeat split; try assumption. apply Hres.
  - destruct (nth_error (pending p) k) as [[size|n|m]|] eqn:Hk; try exact Q.
    assert (m = None).
    { apply nth_error_In in Hk. rewrite List.Forall_forall in Hp. exact (Hp _ Hk). }
    subst m. apply after_close_quiet.
    page_fields. repeat split; try assumption. apply Hres.
  - unfold commit, flush.
    destruct (effect (hooks p)) as [u|]; page_fields.
    + rewrite Hs. cbn. destruct (same (seen_meta (hooks p)) None); page_fields;
        repeat split; assumption.
    + rewrite Hs, Ho. cbn. destruct (same (seen_meta (hooks p)) (metaObj (hooks p)));
        page_fields; repeat split; assumption.
  - unfold flush. destruct (effect (hooks p)) as [u|]; [|exact Q].
    page_fields. repeat split; assumption.
Qed.


Lemma below_S (n : nat) (x : option nat) : below n x -> below (S n) x.
Proof. destruct x; cbn; [lia | auto]. Qed.

Lemma after_close_handled (m : option FileMeta) (p : Page) :
  handled (hooks p) (hooks (after_close m p)) /\ link (after_close m p) = link p.
Proof.
  unfold after_close.
  destruct (writableRef (cells p)); [|destruct (chunksRef (cells p)); [|destruct m]];
    page_fields; (split; [|reflexivity]); try (left; reflexivity).
  right. right. eexists. reflexivity.
Qed.

Lemma step_handled (picker : bool) (p : Page) (e : Event) :
  e <> Commit -> e <> Flush ->
  handled (hooks p) (hooks (step picker p e)) /\ link (step picker p e) = link p.
Proof.
  intros Hc Hf.
  assert (Same : handled (hooks p) (hooks p) /\ link p = link p)
    by (split; [left|]; reflexivity).
  destruct e as [data|k granted|k|k| |]; unfold step; try contradiction.
  - destruct (channel (link p)); try exact Same.
    destruct data as [s|chunk]; unfold handleDataMessage, on_text, on_meta, handleReceiveDone,
      picker_failed.
    + repeat case_match; simplify_eq; try apply after_close_handled; try exact Same;
        page_fields; (split; [|reflexivity]); try (left; reflexivity);
        right; left; eexists; reflexivity.
    + repeat case_match; simplify_eq; try exact Same; page_fields;
        (split; [left|]; reflexivity).
  - destruct (nth_error (pending p) k) as [[size|n|m]|]; try exact Same.
    unfold after_picker, picker_failed.
    destruct granted; [|destruct (is_large size)]; exact Same.
  - destruct (nth_error (pending p) k) as [[size|n|m]|]; exact Same.
  - destruct (nth_error (pending p) k) as [[size|n|m]|]; try exact Same.
    apply (after_close_handled m (resume k p)).
Qed.

Lemma flush_hooks (p : Page) :
  effect (hooks (flush p)) = None /\
  seen_meta (hooks (flush p)) = seen_meta (hooks p) /\
  seen_url (hooks (flush p)) = seen_url (hooks p) /\
  objects (hooks (flush p)) = objects (hooks p) /\
  (effect (hooks p) = None -> flush p = p) /\
  (effect (hooks p) <> None ->
     metaObj (hooks (flush p)) = None /\ urlObj (hooks (flush p)) = None /\
     chunksRef (cells (flush p)) = [] /\ writableRef (cells (flush p)) = None /\
     fileMeta (cells (flush p)) = None /\ bytesReceived (cells (flush p)) = 0 /\
     downloadUrl (cells (flush p)) = None /\ downloadName (cells (flush p)) = None /\
     saveWarning (cells (flush p)) = None /\
     status (cells (flush p)) = Starting /\
     pending (flush p) = pending p /\
     link (flush p) = hang_up (link p)).
Proof.
  unfold flush. destruct (effect (hooks p)) as [u|] eqn:He.
  - page_fields. repeat split; try reflexivity; try discriminate.
  - repeat split; try assumption; try reflexivity; congruence.
Qed.

Lemma commit_hooks (p : Page) :
  let q := flush p in
  cells (commit p) = cells q /\ pending (commit p) = pending q /\ link (commit p) = link q /\
  objects (hooks (commit p)) = objects (hooks q) /\
  metaObj (hooks (commit p)) = metaObj (hooks q) /\
  urlObj (hooks (commit p)) = urlObj (hooks q) /\
  seen_meta (hooks (commit p)) = metaObj (hooks q) /\
  seen_url (hooks (commit p)) = urlObj (hooks q) /\
  (effect (hooks (commit p)) = None <->
   seen_meta (hooks q) = metaObj (hooks q) /\ seen_url (hooks q) = urlObj (hooks q)).
Proof.
  cbn zeta. unfold commit.
  pose proof (flush_hooks p) as (He & _).
  destruct (same (seen_meta (hooks (flush p))) (metaObj (hooks (flush p)))) eqn:E1;
    [destruct (same (seen_url (hooks (flush p))) (urlObj (hooks (flush p)))) eqn:E2|];
    cbn [andb]; page_fields.
  - apply same_eq in E1, E2. repeat split; try reflexivity; try assumption; congruence.
  - repeat split; try reflexivity; try discriminate.
    intros [_ H]. apply same_eq in H. congruence.
  - repeat split; try reflexivity; try discriminate.
    intros [H _]. apply same_eq in H. congruence.
Qed.

Lemma step_numbered (picker : bool) (p : Page) (e : Event) :
  numbered p -> numbered (step picker p e).
Proof.
  intros [Hm Hs].
  pose proof (flush_hooks p) as (_ & Hfs & _ & Hfo & Hsame & Hdue).
  assert (Hother : e <> Commit -> e <> Flush -> numbered (step picker p e)).
  { intros Hc Hf.
    destruct (step_handled picker p e Hc Hf) as [[E | [[m E] | [u E]]] _];
      unfold numbered; rewrite E; cbn [hold_meta hold_url objects metaObj seen_meta].
    - split; assumption.
    - split; [cbn; lia | apply below_S, Hs].
    - split; apply below_S; assumption. }
  destruct e as [data|k granted|k|k| |]; try (apply Hother; discriminate); cbn [step].
  - pose proof (commit_hooks p) as (_ & _ & _ & Ho & Hmo & _ & Hsm & _).
    cbn zeta in *.
    unfold numbered. rewrite Ho, Hmo, Hsm, Hfo.
    destruct (effect (hooks p)) as [u|] eqn:He.
    + destruct Hdue as (-> & _); [discriminate|]. split; exact I.
    + rewrite (Hsame eq_refl). split; exact Hm.
  - unfold numbered. rewrite Hfo, Hfs.
    destruct (effect (hooks p)) as [u|] eqn:He.
    + destruct Hdue as (-> & _); [discriminate|]. split; [exact I | exact Hs].
    + rewrite (Hsame eq_refl). split; assumption.
Qed.

Lemma hang_up_closed (c : Connection) :
  (channel c = Open -> pcRef c = true) -> channel (hang_up c) <> Open.
Proof.
  intros H. unfold hang_up. cbn [channel].
  destruct (pcRef c); [discriminate|].
  destruct (channelRef c); [destruct (channel c); discriminate|].
  intros E. specialize (H E). discriminate H.
Qed.

Lemma step_wired (picker : bool) (p : Page) (e : Event) :
  wired p -> wired (step picker p e).
Proof.
  intros W.
  assert (Hflush : wired (flush p)).
  { pose proof (flush_hooks p) as (_ & _ & _ & _ & Hsame & Hdue).
    destruct (effect (hooks p)) as [u|] eqn:He.
    - destruct Hdue as (_ & _ & _ & _ & _ & _ & _ & _ & _ & _ & _ & Hl); [discriminate|].
      unfold wired. rewrite Hl. intros E. exfalso. exact (hang_up_closed _ W E).
    - rewrite (Hsame eq_refl). exact W. }
  assert (Hother : e <> Commit -> e <> Flush -> wired (step picker p e)).
  { intros Hc Hf. destruct (step_handled picker p e Hc Hf) as [_ Hl].
    unfold wired. rewrite Hl. exact W. }
  destruct e as [data|k granted|k|k| |]; try (apply Hother; discriminate); cbn [step].
  - pose proof (commit_hooks p) as (_ & _ & Hl & _). cbn zeta in Hl.
    unfold wired. rewrite Hl. exact Hflush.
  - exact Hflush.
Qed.

Lemma after_close_cells (m : option FileMeta) (p : Page) :
  let q := after_close m p in
  pending q = pending p /\ writableRef (cells q) = writableRef (cells p) /\
  chunksRef (cells q) = chunksRef (cells p) /\ fileMeta (cells q) = fileMeta (cells p) /\
  bytesReceived (cells q) = bytesReceived (cells p) /\ status (cells q) = Completed.
Proof.
  cbn zeta. unfold after_close.
  destruct (writableRef (cells p)) eqn:Hw;
    [|destruct (chunksRef (cells p)) eqn:Hc; [|destruct m]];
    page_fields; rewrite ?Hw, ?Hc; repeat split; reflexivity.
Qed.

Lemma step_no_stream (p : Page) (e : Event) :
  no_stream p -> no_stream (step false p e).
Proof.
  intros [Hp Hw].
  assert (N : no_stream p) by (split; assumption).
  assert (Hflush : no_stream (flush p)).
  { pose proof (flush_hooks p) as (_ & _ & _ & _ & Hsame & Hdue).
    destruct (effect (hooks p)) as [u|] eqn:He.
    - destruct Hdue as (_ & _ & _ & Hw' & _ & _ & _ & _ & _ & _ & Hp' & _); [discriminate|].
      split; congruence.
    - rewrite (Hsame eq_refl). exact N. }
  destruct e as [data|k granted|k|k| |]; unfold step.
  - destruct (channel (link p)); try exact N.
    destruct data as [s|chunk]; unfold handleDataMessage, on_text, on_meta, handleReceiveDone.
    + rewrite ?Hw. repeat case_match; simplify_eq; try exact N;
        try (pose proof (after_close_cells (listener (link p)) p) as (Ha & Hb & _);
             cbn zeta in *; split; congruence);
        page_fields; split; assumption.
    + rewrite Hw. page_fields. split; assumption.
  - rewrite Hp. destruct k; exact N.
  - rewrite Hp. destruct k; exact N.
  - rewrite Hp. destruct k; exact N.
  - pose proof (commit_hooks p) as (Hc & Hpe & _). cbn zeta in *.
    destruct Hflush as [H1 H2]. split; congruence.
  - exact Hflush.
Qed.


Lemma after_close_meta (m : option FileMeta) (p : Page) :
  metaObj (hooks (after_close m p)) = metaObj (hooks p).
Proof.
  unfold after_close.
  destruct (writableRef (cells p)); [|destruct (chunksRef (cells p)); [|destruct m]];
    reflexivity.
Qed.

Lemma flush_torn_down (picker : bool) (p : Page) :
  wired p -> effect (hooks p) <> None -> torn_down picker (flush p).
Proof.
  intros W He. pose proof (flush_hooks p) as (_ & _ & _ & _ & _ & Hdue).
  destruct (Hdue He) as (Hm & _ & Hc & _ & Hf & Hb & _ & _ & _ & _ & _ & Hl).
  unfold torn_down. rewrite Hl, Hc, Hf, Hm, Hb.
  split; [apply hang_up_closed, W|]. repeat split; reflexivity.
Qed.

Lemma step_torn_down (picker : bool) (p : Page) (e : Event) :
  wired p -> (picker = false -> no_stream p) ->
  torn_down picker p -> torn_down picker (step picker p e).
Proof.
  intros W N T. pose proof T as (Hch & Hc & Hf & Hm & Hb).
  assert (Hflush : torn_down picker (flush p)).
  { pose proof (flush_hooks p) as (_ & _ & _ & _ & Hsame & _).
    destruct (effect (hooks p)) as [u|] eqn:He.
    - apply flush_torn_down; [exact W | congruence].
    - rewrite (Hsame eq_refl). exact T. }
  destruct e as [data|k granted|k|k| |]; unfold step.
  - destruct (channel (link p)); try exact T. contradiction.
  - destruct (nth_error (pending p) k) as [[size|n|m]|]; try exact T.
    unfold after_picker, picker_failed.
    destruct granted; [|destruct (is_large size)]; exact T.
  - destruct (nth_error (pending p) k) as [[size|n|m]|] eqn:Hk; try exact T.
    unfold torn_down. page_fields. repeat split; try assumption.
    intros ->. destruct (N eq_refl) as [Hp _]. rewrite Hp in Hk. destruct k; discriminate.
  - destruct (nth_error (pending p) k) as [[size|n|m]|]; try exact T.
    pose proof (after_close_cells m (resume k p)) as (_ & _ & Hc' & Hf' & Hb' & _).
    pose proof (after_close_handled m (resume k p)) as [_ Hl'].
    cbn zeta in *. unfold torn_down.
    rewrite Hl', Hc', Hf', Hb', after_close_meta. exact T.
  - pose proof (commit_hooks p) as (Hce & _ & Hl & _ & Hmo & _). cbn zeta in *.
    unfold torn_down. rewrite Hl, Hce, Hmo. exact Hflush.
  - exact Hflush.
Qed.

Lemma handled_unsettled (p : Page) (h' : Hooks) :
  numbered p -> seen_url (hooks p) = None -> ~ settled p ->
  handled (hooks p) h' ->
  ~ (effect h' = None /\ seen_meta h' = metaObj h' /\ seen_url h' = urlObj h').
Proof.
  intros [_ Hs] Hu Hn [-> | [[m ->] | [u ->]]]; [exact Hn| |];
    cbn [hold_meta hold_url effect seen_meta metaObj seen_url urlObj];
    intros (_ & H1 & H2).
  - rewrite H1 in Hs. cbn in Hs. lia.
  - congruence.
Qed.

Lemma step_after_meta (picker : bool) (p : Page) (e : Event) :
  after_meta picker p -> after_meta picker (step picker p e).
Proof.
  intros (Q & Nu & W & N & T).
  split; [apply step_quiet, Q|]. split; [apply step_numbered, Nu|].
  split; [apply step_wired, W|].
  split; [intros ->; apply step_no_stream, N; reflexivity|].
  destruct T as [T | U]; [left; apply step_torn_down; assumption|].
  pose proof (flush_hooks p) as (Hfe & Hfm & Hfu & _ & Hsame & _).
  assert (Hother : e <> Commit -> e <> Flush -> ~ settled (step picker p e)).
  { intros Hc Hf. destruct (step_handled picker p e Hc Hf) as [Hh _].
    destruct Q as (_ & _ & _ & _ & Hsu & _).
    exact (handled_unsettled p _ Nu Hsu U Hh). }
  destruct e as [data|k granted|k|k| |]; try (right; apply Hother; discriminate); cbn [step].
  - destruct (effect (hooks p)) as [u|] eqn:He.
    + left. pose proof (commit_hooks p) as (Hce & _ & Hl & _ & Hmo & _). cbn zeta in *.
      assert (T : torn_down picker (flush p))
        by (apply flush_torn_down; [exact W | congruence]).
      unfold torn_down. rewrite Hl, Hce, Hmo. exact T.
    + right. pose proof (commit_hooks p) as (_ & _ & _ & _ & _ & _ & _ & _ & Hiff).
      cbn zeta in Hiff. rewrite (Hsame eq_refl) in Hiff.
      intros (H1 & _). apply Hiff in H1. apply U. split; [exact He | exact H1].
  - destruct (effect (hooks p)) as [u|] eqn:He.
    + left. apply flush_torn_down; [exact W | congruence].
    + right. rewrite (Hsame eq_refl). exact U.
Qed.

Lemma run_after_meta (picker : bool) (schedule : list Event) (p : Page) :
  after_meta picker p -> after_meta picker (run picker p schedule).
Proof.
  revert p. induction schedule as [|e l IH]; intros p H; [exact H|].
  cbn [run fold_left]. apply IH, step_after_meta, H.
Qed.

(** Before the first message nothing happens to the page. *)
Lemma idle_start (picker : bool) (l : list Event) (m : option FileMeta) :
  deliveries l = [] -> run picker (listening m) l = listening m.
Proof.
  induction l as [|e l IH]; [reflexivity|].
  destruct e as [data|k granted|k|k| |]; cbn [deliveries flat_map app];
    try discriminate; intros H; cbn [run fold_left];
    [destruct k | destruct k | destruct k | |]; apply IH, H.
Qed.

(** React catches up with the state in two rounds. *)
Lemma two_rounds (picker : bool) (p : Page) :
  settled (run picker p [Commit; Flush; Commit; Flush]).
Proof.
  cbn [run fold_left step].
  set (p1 := flush (commit p)).
  assert (H1 : effect (hooks p1) = None /\
               ((seen_meta (hooks p1) = metaObj (hooks p1) /\
                 seen_url (hooks p1) = urlObj (hooks p1)) \/
                (metaObj (hooks p1) = None /\ urlObj (hooks p1) = None))).
  { unfold p1. pose proof (flush_hooks (commit p)) as (He & Hm & Hu & _ & Hsame & Hdue).
    split; [exact He|].
    destruct (effect (hooks (commit p))) as [u|] eqn:Hc.
    - right. destruct Hdue as (H1 & H2 & _); [discriminate|]. split; assumption.
    - left. rewrite (Hsame eq_refl).
      pose proof (commit_hooks p) as (_ & _ & _ & _ & Hmo & Huo & Hsm & Hsu & _).
      cbn zeta in *. split; congruence. }
  destruct H1 as [He1 H1].
  pose proof (flush_hooks p1) as (_ & _ & _ & _ & Hsame1 & _).
  pose proof (commit_hooks p1) as (_ & _ & _ & _ & Hmo & Huo & Hsm & Hsu & Hiff).
  cbn zeta in *. rewrite (Hsame1 He1) in *.
  pose proof (flush_hooks (commit p1)) as (He2 & Hm2 & Hu2 & _ & Hsame2 & Hdue2).
  destruct (effect (hooks (commit p1))) as [u|] eqn:Hc.
  - destruct H1 as [H1 | [H1 H1']]; [apply Hiff in H1; discriminate|].
    destruct Hdue2 as (G1 & G2 & _); [discriminate|].
    split; [exact He2|]. split; congruence.
  - rewrite (Hsame2 eq_refl). split; [exact Hc|]. split; congruence.
Qed.


(** *** The counter *)












(** Binary frames handled with no stream are appended to the chunks. *)
Lemma binaries_memory (picker : bool) (frames : list (list byte)) (p : Page) :
  writableRef (cells p) = None -> channel (link p) = Open ->
  let q := run picker p (map Message (map Binary frames)) in
  chunksRef (cells q) = chunksRef (cells p) ++ frames /\
  writableRef (cells q) = None /\ channel (link q) = Open /\
  link q = link p /\ hooks q = hooks p /\ pending q = pending p /\
  fileMeta (cells q) = fileMeta (cells p) /\
  downloadUrl (cells q) = downloadUrl (cells p).
Proof.
  revert p. induction frames as [|fr frames IH]; intros p Hw Ho.
  - cbn. rewrite app_nil_r. repeat split; auto.
  - cbn [map run fold_left].
    assert (E : step picker p (Message (Binary fr))
                = on_cells (fun r => setBytesReceived (bytesReceived r + byteLength fr)
                                       (set_chunks (chunksRef r ++ [fr]) r)) p).
    { unfold step. rewrite Ho. unfold handleDataMessage. rewrite Hw. reflexivity. }
    rewrite E.
    match goal with |- context [fold_left _ _ ?p1] => set (q1 := p1) end.
    destruct (IH q1 Hw Ho) as (H1 & H2 & H3 & H4 & H5 & H6 & H7 & H8). cbn zeta in *.
    unfold run in *. rewrite H1, H2, H4, H5, H6, H7, H8. unfold q1. page_fields.
    rewrite <- app_assoc. repeat split; auto.
Qed.

End PageFacts.

(** ** One transfer *)

Section SessionFacts.
Import Wire.
Context {json : JsonRuntime}.
Variable f : Phone.File.

(** The receiver's [JSON.parse] reads back the two control messages the
    sender's [JSON.stringify] wrote. *)
Hypothesis parse_meta :
  JSON_parse (JSON_stringify (Phone.meta_of f)) = Some (Phone.meta_of f).
Hypothesis parse_done :
  JSON_parse (JSON_stringify done_message) = Some done_message.








Lemma first_delivery (l : list ComputerPage.Event) (d : Data) (rest : list Data) :
  ComputerPage.deliveries l = d :: rest ->
  exists pre post,
    l = pre ++ ComputerPage.Message d :: post /\ ComputerPage.deliveries pre = [].
Proof.
  induction l as [|e l IH]; [discriminate|].
  destruct e as [data|k granted|k|k| |]; cbn [ComputerPage.deliveries flat_map app].
  - intros [= -> _]. exists [], l. split; reflexivity.
  - intros H. destruct (IH H) as (pre & post & -> & Hp).
    exists (ComputerPage.Picked k granted :: pre), post. split; [reflexivity | exact Hp].
  - intros H. destruct (IH H) as (pre & post & -> & Hp).
    exists (ComputerPage.Written k :: pre), post. split; [reflexivity | exact Hp].
  - intros H. destruct (IH H) as (pre & post & -> & Hp).
    exists (ComputerPage.Closed k :: pre), post. split; [reflexivity | exact Hp].
  - intros H. destruct (IH H) as (pre & post & -> & Hp).
    exists (ComputerPage.Commit :: pre), post. split; [reflexivity | exact Hp].
  - intros H. destruct (IH H) as (pre & post & -> & Hp).
    exists (ComputerPage.Flush :: pre), post. split; [reflexivity | exact Hp].
Qed.

(** The sender's [meta] message, handled by the page that listens. *)
Lemma first_meta (picker : bool) (m : option Computer.FileMeta) :
  ComputerPage.step picker (ComputerPage.listening m)
    (ComputerPage.Message (Text (Phone.meta_text f)))
  = ComputerPage.on_meta picker (Phone.meta_of f) (ComputerPage.listening m).
Proof.
  unfold ComputerPage.step, ComputerPage.handleDataMessage, ComputerPage.on_text,
    Phone.meta_text.
  cbn [ComputerPage.listening ComputerPage.link ComputerPage.channel].
  rewrite parse_meta. reflexivity.
Qed.

Lemma first_meta_page (picker : bool) (m : option Computer.FileMeta) :
  let p := ComputerPage.on_meta picker (Phone.meta_of f) (ComputerPage.listening m) in
  Computer.writableRef (ComputerPage.cells p) = None /\
  ComputerPage.channel (ComputerPage.link p) = Open /\
  ComputerPage.link p = ComputerPage.link (ComputerPage.listening m) /\
  Computer.chunksRef (ComputerPage.cells p) = [] /\
  Computer.bytesReceived (ComputerPage.cells p) = 0 /\
  Computer.fileMeta (ComputerPage.cells p) = Some (Session.expected_meta f) /\
  Computer.downloadUrl (ComputerPage.cells p) = None /\
  ComputerPage.effect (ComputerPage.hooks p) = None /\
  ComputerPage.seen_meta (ComputerPage.hooks p) = None /\
  ComputerPage.metaObj (ComputerPage.hooks p) = Some 0%nat /\
  ComputerPage.objects (ComputerPage.hooks p) = 1%nat /\
  (picker = false -> ComputerPage.pending p = []).
Proof.
  cbn zeta. unfold ComputerPage.on_meta. destruct picker; cbn; repeat split; discriminate.
Qed.

(** From the first [meta] message on the page is torn down whenever
    React has caught up with it. *)
Lemma session_after_meta (picker : bool) (schedule : list ComputerPage.Event)
    (rest : list Data) :
  ComputerPage.deliveries schedule = Text (Phone.meta_text f) :: rest ->
  ComputerPage.after_meta picker (ComputerPage.run picker ComputerPage.start schedule).
Proof.
  intros Hd. destruct (first_delivery _ _ _ Hd) as (pre & post & -> & Hpre).
  rewrite page_run_app. unfold ComputerPage.start. rewrite (idle_start picker pre None Hpre).
  cbn [ComputerPage.run fold_left]. rewrite first_meta.
  apply run_after_meta.
  pose proof (first_meta_page picker None)
    as (Hw & Ho & Hl & Hc & Hb & Hf & Hu & He & Hs & Hm & Hn & Hp).
  cbn zeta in *.
  set (p := ComputerPage.on_meta picker (Phone.meta_of f) (ComputerPage.listening None)) in *.
  assert (Hq : ComputerPage.quiet p).
  { unfold p, ComputerPage.on_meta. destruct picker; cbn; repeat split;
      repeat constructor. }
  split; [exact Hq|]. split; [|split; [|split]].
  - unfold ComputerPage.numbered, ComputerPage.below. rewrite Hm, Hs, Hn. split; [lia | exact I].
  - unfold ComputerPage.wired. rewrite Hl. reflexivity.
  - intros E. split; [exact (Hp E) | exact Hw].
  - right. intros (_ & H & _). congruence.
Qed.


(** The whole transfer handled, with nothing in between, by a handler
    that closes over the metadata [m]: the download is built from the
    chunks, with the type and the name of [m]. *)
Lemma download_built (m : Computer.FileMeta) (frames : list (list byte)) :
  frames <> [] ->
  let q := ComputerPage.run false (ComputerPage.listening (Some m))
             (map ComputerPage.Message
                (Text (Phone.meta_text f) :: map Binary frames ++ [Text Phone.done_text])) in
  Computer.downloadUrl (ComputerPage.cells q)
  = Some {| Computer.blob_bytes := concat frames; Computer.blob_type := Computer.mime m |} /\
  Computer.downloadName (ComputerPage.cells q) = Some (Computer.name m).
Proof.
  intros Hne. cbn zeta. cbn [map]. rewrite map_app. cbn [map].
  cbn [ComputerPage.run fold_left]. rewrite first_meta.
  fold (ComputerPage.run false
          (ComputerPage.on_meta false (Phone.meta_of f) (ComputerPage.listening (Some m)))
          (map ComputerPage.Message (map Binary frames) ++
           [ComputerPage.Message (Text Phone.done_text)])).
  rewrite page_run_snoc.
  pose proof (first_meta_page false (Some m)) as (Hw & Ho & Hl & Hc & _).
  cbn zeta in *.
  destruct (binaries_memory false frames _ Hw Ho) as (G1 & G2 & G3 & G4 & _).
  cbn zeta in *. rewrite Hc in G1. cbn [app] in G1. rewrite Hl in G4.
  match goal with
  | |- context [ComputerPage.step false ?p2 _] => set (q := p2) in *
  end.
  unfold ComputerPage.step. rewrite G3.
  unfold ComputerPage.handleDataMessage, ComputerPage.on_text, Phone.done_text.
  rewrite parse_done. cbn [Js.get done_message Js.lookup_field String.eqb Ascii.eqb
                           Bool.eqb Js.is_str].
  unfold ComputerPage.handleReceiveDone. rewrite G2, G4.
  cbn [ComputerPage.listening ComputerPage.link ComputerPage.listener].
  unfold ComputerPage.after_close. rewrite G2, G1.
  destruct frames as [|fr frames]; [contradiction|].
  cbn. split; reflexivity.
Qed.

(** C1 (a bug of the code): the sender can send every file to the end,
    and what it puts on the channel is as the claim says: one [meta]
    message, ceil(S / CHUNK_SIZE) binary frames of at most CHUNK_SIZE = 256
    KiB bytes whose concatenation is the file, one [done] message. The
    page does not keep what it receives. In every schedule of the page's
    tasks that delivers these messages (as long as the channel is open),
    whatever the save picker and the stream do and whenever React
    renders, no download is ever built: [downloadUrl] and [downloadName]
    stay [null]. And once React has rendered the latest state and run its
    effects, which two rounds of rendering achieve from any state, the
    channel is no longer open, [chunksRef] is empty and [fileMeta] is
    [null]; in a browser without [showSaveFilePicker] the counter is 0
    and there is no stream. The lines that build the download do work for
    a handler that closes over some metadata [m]: the same messages then
    give the Blob of the file's bytes, with the type and name of [m]; the
    handler bound to the channel closes over [null]. *)
Theorem chunked_transfer_is_torn_down (buffered0 : N) (picker : bool) :
  (exists events,
      Phone.respects_contract (Phone.ready f buffered0) events = true /\
      Phone.pc (Phone.run (Phone.ready f buffered0) events) = Phone.Finished) /\
  (forall events,
      let s := Phone.run (Phone.ready f buffered0) events in
      Phone.pc s = Phone.Finished ->
      exists frames,
        Phone.on_wire s
        = Text (JSON_stringify (Phone.meta_of f))
            :: map Binary frames ++ [Text (JSON_stringify done_message)] /\
        Z.of_nat (List.length frames)
        = (Phone.file_size f + Phone.CHUNK_SIZE - 1) / Phone.CHUNK_SIZE /\
        Forall (fun fr => byteLength fr <= Phone.CHUNK_SIZE) frames /\
        concat frames = Phone.file_bytes f /\
        Phone.CHUNK_SIZE = 256 * 1024 /\
        (forall schedule,
            ComputerPage.deliveries schedule = Phone.on_wire s ->
            let p := ComputerPage.run picker ComputerPage.start schedule in
            Computer.downloadUrl (ComputerPage.cells p) = None /\
            Computer.downloadName (ComputerPage.cells p) = None /\
            (ComputerPage.settled p ->
               ComputerPage.channel (ComputerPage.link p) <> Open /\
               Computer.chunksRef (ComputerPage.cells p) = [] /\
               Computer.fileMeta (ComputerPage.cells p) = None /\
               (picker = false ->
                  Computer.bytesReceived (ComputerPage.cells p) = 0 /\
                  Computer.writableRef (ComputerPage.cells p) = None)) /\
            ComputerPage.settled
              (ComputerPage.run picker p
                 [ComputerPage.Commit; ComputerPage.Flush;
                  ComputerPage.Commit; ComputerPage.Flush])) /\
        (0 < Phone.file_size f ->
         forall m,
           let q := ComputerPage.run false (ComputerPage.listening (Some m))
                      (map ComputerPage.Message (Phone.on_wire s)) in
           Computer.downloadUrl (ComputerPage.cells q)
           = Some {| Computer.blob_bytes := Phone.file_bytes f;
                     Computer.blob_type := Computer.mime m |} /\
           Computer.downloadName (ComputerPage.cells q) = Some (Computer.name m))).
Proof.
  split; [apply sendFile_can_finish|].
  intros events s Hfin.
  pose proof (run_inv f _ events (ready_inv f buffered0)) as Hinv. fold s in Hinv.
  destruct Hinv as (_ & _ & _ & ch & Hch & _ & Hw).
  unfold Phone.wire_inv in Hw. rewrite Hfin in Hw.
  destruct Hw as (frames & Hsent & Hfr & _).
  destruct (framing_whole f frames Hfr) as (Hcat & Hall & Hcount).
  assert (Hwire : Phone.on_wire s
                  = Text (Phone.meta_text f) :: map Binary frames ++ [Text Phone.done_text])
    by (unfold Phone.on_wire; rewrite Hch; exact Hsent).
  exists frames. split; [exact Hwire|]. split; [exact Hcount|]. split; [exact Hall|].
  split; [exact Hcat|]. split; [reflexivity|]. split.
  - intros schedule Hd p. rewrite Hwire in Hd.
    pose proof (session_after_meta picker schedule _ Hd) as (Q & _ & _ & N & T).
    fold p in Q, N, T. destruct Q as (_ & Hu & Hn & _).
    split; [exact Hu|]. split; [exact Hn|]. split; [|apply two_rounds].
    intros Hs. destruct T as [(T1 & T2 & T3 & _ & T5) | U]; [|contradiction].
    split; [exact T1|]. split; [exact T2|]. split; [exact T3|].
    intros E. split; [exact (T5 E) | exact (proj2 (N E))].
  - intros Hpos m q. unfold q. rewrite Hwire, <- Hcat.
    apply download_built. intros ->.
    unfold Phone.file_size in Hpos. rewrite <- Hcat in Hpos.
    unfold byteLength in Hpos. cbn [concat List.length] in Hpos. lia.
Qed.

(** *** The counters *)





End SessionFacts.

(** ** Sessions run on concrete files *)

Section SessionRuns.
Import Wire Session.

Example a_txt_on_the_wire :
  Phone.on_wire (Phone.run (Phone.ready a_txt 0) plain_run)
  = [Text (JSON_stringify (meta_message "a.txt" 11 "text/plain"));
     Binary (String.list_byte_of_string "hello world");
     Text (JSON_stringify done_message)].
Proof. vm_compute. reflexivity. Qed.

(** Witness of C1: the scenario of the spec, [a.txt] of 11 bytes, in a
    browser without [showSaveFilePicker]. The three messages are handled
    one after the other: the page shows the transfer completed and 11
    bytes received, and has no download. Then React renders: the page has
    let go of the channel and of the bytes. *)
Lemma chunked_transfer_is_torn_down_witness :
  let s := Phone.run (Phone.ready a_txt 0) plain_run in
  let received := ComputerPage.run false ComputerPage.start
                    (map ComputerPage.Message (Phone.on_wire s)) in
  let p := ComputerPage.run false received
             [ComputerPage.Commit; ComputerPage.Flush;
              ComputerPage.Commit; ComputerPage.Flush] in
  Phone.pc s = Phone.Finished /\
  (Computer.status (ComputerPage.cells received) = Computer.Completed /\
   Computer.bytesReceived (ComputerPage.cells received) = 11 /\
   Computer.downloadUrl (ComputerPage.cells received) = None) /\
  (ComputerPage.settled p /\
   ComputerPage.channel (ComputerPage.link p) <> Open /\
   Computer.bytesReceived (ComputerPage.cells p) = 0 /\
   Computer.chunksRef (ComputerPage.cells p) = [] /\
   Computer.downloadUrl (ComputerPage.cells p) = None).
Proof.
  assert (Hm : JSON_parse (JSON_stringify (Phone.meta_of a_txt)) = Some (Phone.meta_of a_txt))
    by (vm_compute; reflexivity).
  assert (Hd : JSON_parse (JSON_stringify done_message) = Some done_message)
    by (vm_compute; reflexivity).
  assert (Hfin : Phone.pc (Phone.run (Phone.ready a_txt 0) plain_run) = Phone.Finished)
    by (vm_compute; reflexivity).
  destruct (chunked_transfer_is_torn_down a_txt Hm Hd 0 false) as [_ H].
  destruct (H plain_run Hfin) as (frames & _ & _ & _ & _ & _ & Hpage & _).
  set (wire := Phone.on_wire (Phone.run (Phone.ready a_txt 0) plain_run)) in *.
  set (rounds := [ComputerPage.Commit; ComputerPage.Flush;
                  ComputerPage.Commit; ComputerPage.Flush]).
  destruct (Hpage (map ComputerPage.Message wire)) as (Hu1 & _ & _ & Hsettled);
    [vm_compute; reflexivity|].
  destruct (Hpage (map ComputerPage.Message wire ++ rounds)) as (Hu2 & _ & Htorn & _);
    [vm_compute; reflexivity|].
  rewrite page_run_app in Hu2, Htorn.
  cbv zeta. fold wire. fold rounds.
  destruct (Htorn Hsettled) as (Hch & Hc & _ & Hb).
  destruct (Hb eq_refl) as [Hb0 _].
  split; [exact Hfin|]. split.
  - split; [vm_compute; reflexivity|]. split; [vm_compute; reflexivity | exact Hu1].
  - split; [exact Hsettled|]. split; [exact Hch|]. split; [exact Hb0|].
    split; [exact Hc | exact Hu2].
Defined.



(** C2 (as stated) fails: a binary frame that arrives before [meta], and
    one that arrives after [done], is stored and counted, and no error is
    raised; with a stream, the frame after [done] is dropped and nothing
    records it. *)
Lemma binary_frame_outside_envelope :
  let stray := Binary [Byte.x2a] in
  let early := Computer.onmessage Computer.PickerMissing Computer.awaiting stray in
  let wire := Phone.on_wire (Phone.run (Phone.ready a_txt 0) plain_run) in
  let done_memory := Computer.receive Computer.PickerMissing Computer.awaiting wire in
  let late_memory := Computer.onmessage Computer.PickerMissing done_memory stray in
  let done_stream := Computer.receive Computer.PickerGrants Computer.awaiting wire in
  let late_stream := Computer.onmessage Computer.PickerGrants done_stream stray in
  (Computer.fileMeta Computer.awaiting = None /\
   Computer.status early = Computer.Waiting /\ Computer.error early = None /\
   Computer.chunksRef early = [[Byte.x2a]] /\ Computer.bytesReceived early = 1) /\
  (Computer.status done_memory = Computer.Completed /\
   Computer.status late_memory = Computer.Completed /\ Computer.error late_memory = None /\
   Computer.bytesReceived late_memory = 12 /\
   List.length (Computer.chunksRef late_memory) = 2%nat) /\
  (Computer.status done_stream = Computer.Completed /\ late_stream = done_stream) /\
  ~ (forall picker r chunk,
        Computer.fileMeta r = None \/ Computer.status r = Computer.Completed ->
        Computer.status (Computer.onmessage picker r (Binary chunk)) = Computer.Error).
Proof.
  cbn zeta. split; [vm_compute; repeat split|]. split; [vm_compute; repeat split|].
  split; [vm_compute; repeat split|].
  intros H.
  specialize (H Computer.PickerMissing Computer.awaiting [Byte.x2a] (or_introl eq_refl)).
  discriminate H.
Qed.

End SessionRuns.

(** ** The relay over time *)

Section Keys.
Import Js Relay Signaling.

Lemma chars_append (s t : string) :
  list_ascii_of_string (s +:+ t) = list_ascii_of_string s ++ list_ascii_of_string t.
Proof.
  induction s as [|c s IH]; [reflexivity|].
  change (String c s +:+ t) with (String c (s +:+ t)).
  cbn [list_ascii_of_string]. rewrite IH. reflexivity.
Qed.

Lemma chars_inj (s t : string) :
  list_ascii_of_string s = list_ascii_of_string t -> s = t.
Proof.
  intros H. rewrite <- (string_of_list_ascii_of_string s),
    <- (string_of_list_ascii_of_string t), H. reflexivity.
Qed.

Lemma length_chars (s : string) :
  String.length s = List.length (list_ascii_of_string s).
Proof. induction s as [|c s IH]; cbn; congruence. Qed.

(** A key with one of the three endings has one room id and one ending. *)
Lemma ending_unique (a b u v : string) :
  In u key_endings -> In v key_endings ->
  a +:+ u = b +:+ v -> a = b /\ u = v.
Proof.
  intros Hu Hv H. apply (f_equal list_ascii_of_string) in H.
  rewrite !chars_append in H. apply (f_equal (@rev ascii)) in H.
  rewrite !rev_app_distr in H.
  assert (Hrev : forall x y : string,
             rev (list_ascii_of_string x) = rev (list_ascii_of_string y) -> x = y).
  { intros x y E. apply chars_inj. rewrite <- (rev_involutive (list_ascii_of_string x)), E.
    apply rev_involutive. }
  cbn [key_endings In] in Hu, Hv.
  destruct Hu as [<-|[<-|[<-|[]]]], Hv as [<-|[<-|[<-|[]]]];
    cbn [list_ascii_of_string rev app] in H;
    try discriminate H;
    (split; [|reflexivity]); apply Hrev; congruence.
Qed.

Lemma room_key (a b u v : string) :
  In u key_endings -> In v key_endings ->
  "room:" +:+ a +:+ u = "room:" +:+ b +:+ v -> a = b /\ u = v.
Proof.
  intros Hu Hv H. apply String.app_inj in H. exact (ending_unique a b u v Hu Hv H).
Qed.

Lemma signal_key_ending (roomId : string) (role : SignalType) :
  exists u, In u key_endings /\ u <> ":exists" /\
            signal_key roomId role = "room:" +:+ roomId +:+ u /\
            u = ":" +:+ signal_name role.
Proof.
  destruct role; [exists ":offer" | exists ":answer"];
    (split; [cbn; auto|]); (split; [discriminate|]); split; reflexivity.
Qed.

Lemma exists_key_inj (a b : string) : exists_key a = exists_key b -> a = b.
Proof.
  intros H.
  exact (proj1 (room_key a b ":exists" ":exists" ltac:(cbn; auto) ltac:(cbn; auto) H)).
Qed.

Lemma signal_key_inj (a b : string) (r r' : SignalType) :
  signal_key a r = signal_key b r' -> a = b /\ r = r'.
Proof.
  intros H.
  destruct (signal_key_ending a r) as (u & Hu & _ & Eu & Hr).
  destruct (signal_key_ending b r') as (v & Hv & _ & Ev & Hr').
  rewrite Eu, Ev in H. destruct (room_key a b u v Hu Hv H) as [Ha Huv].
  split; [exact Ha|]. subst u v.
  destruct r, r'; try reflexivity; discriminate Huv.
Qed.

Lemma signal_key_not_marker (a b : string) (r : SignalType) :
  signal_key a r <> exists_key b.
Proof.
  intros H. destruct (signal_key_ending a r) as (u & Hu & Hne & Eu & _).
  rewrite Eu in H.
  destruct (room_key a b u ":exists" Hu ltac:(cbn; auto) H) as [_ Huv].
  exact (Hne Huv).
Qed.

Lemma valid_length (roomId : string) :
  Room.isValidRoomId roomId = true -> String.length roomId = 6%nat.
Proof.
  unfold Room.isValidRoomId. rewrite test_true, match_repeat_all. intros [H _]. exact H.
Qed.

(** The legacy key of a well-formed id is none of the keys with an ending:
    it is shorter than each of them. *)
Lemma legacy_key_apart (roomId other u : string) :
  Room.isValidRoomId roomId = true -> Room.isValidRoomId other = true ->
  In u key_endings ->
  legacy_key roomId <> "room:" +:+ other +:+ u.
Proof.
  intros Hv Ho Hu H. unfold legacy_key in H. apply String.app_inj in H.
  apply (f_equal (fun s => List.length (list_ascii_of_string s))) in H. cbv beta in H.
  rewrite chars_append, length_app, <- !length_chars in H.
  rewrite (valid_length _ Hv), (valid_length _ Ho) in H.
  cbn [key_endings In] in Hu. destruct Hu as [<-|[<-|[<-|[]]]]; cbn in H; lia.
Qed.

End Keys.

Section SignalingFacts.
Import Js Relay Signaling.
Context {json : JsonRuntime}.

Lemma read_insert_ne (m : gmap string Entry) (k k' : string) (e : Entry) :
  k <> k' -> read (<[ k := e ]> m) k' = read m k'.
Proof. intros H. unfold read. rewrite lookup_insert_ne by exact H. reflexivity. Qed.

Lemma read_fresh (m : gmap string Entry) (k : string) (v : Value) :
  read (<[ k := fresh v ]> m) k = v.
Proof. unfold read. rewrite lookup_insert_eq. reflexivity. Qed.

Lemma create_loop_valid (fuel : nat) (existsKey roomId : string) (attempt : Z) (s : Server) :
  Room.isValidRoomId roomId = true ->
  (Z.to_nat (5 - attempt) < fuel)%nat ->
  exists roomId' s',
    create_loop fuel existsKey roomId attempt s = (Returned (Some roomId'), s') /\
    kv s' = kv s /\ Room.isValidRoomId roomId' = true.
Proof.
  revert roomId attempt s. induction fuel as [|fuel IH]; intros roomId attempt s Hv Hf; [lia|].
  cbn [create_loop]. run_async.
  destruct (truthy (read (kv s) existsKey) && (attempt <? 5)) eqn:Hc.
  - apply andb_true_iff in Hc as [_ Hlt]. apply Z.ltb_lt in Hlt.
    unfold generateRoomId at 1.
    pose proof (generateRoomId_valid (crypto (logged (KvGet existsKey) s))) as (Hid & _).
    destruct (Room.generateRoomId (crypto (logged (KvGet existsKey) s))) as [id c] eqn:Hg.
    cbn [fst] in Hid.
    edestruct (IH id (attempt + 1)) as (r & s' & Hrun & Hkv & Hr); [exact Hid | lia |].
    exists r, s'. split; [exact Hrun|]. split; [rewrite Hkv; reflexivity | exact Hr].
  - exists roomId, (logged (KvGet existsKey) s). repeat split. exact Hv.
Qed.

(** [POST_create] answers a well-formed id and marks it. *)
Lemma POST_create_effect (s : Server) :
  exists roomId s',
    POST_create s = (Returned (JsonResponse (Obj [("roomId", Str roomId)])), s') /\
    kv s' = apply_effect (Marked roomId) (kv s) /\
    Room.isValidRoomId roomId = true.
Proof.
  unfold POST_create. unfold bind at 1. unfold generateRoomId at 1.
  pose proof (generateRoomId_valid (crypto s)) as (Hid & _).
  destruct (Room.generateRoomId (crypto s)) as [id c] eqn:Hg. cbn [fst] in Hid.
  unfold bind at 1.
  edestruct (create_loop_valid 6 (exists_key id) id 0) as (r & s' & Hrun & Hkv & Hr);
    [exact Hid | simpl; lia |].
  rewrite Hrun. run_async. eexists _, _. split; [reflexivity|].
  split; [|exact Hr]. cbn. rewrite Hkv. reflexivity.
Qed.

Lemma is_str_eq (v : Value) (s : string) : is_str v s = true -> v = Str s.
Proof.
  destruct v; try discriminate. cbn. intros H. apply String.eqb_eq in H. congruence.
Qed.

(** A publish leaves the store as it was, or with a description and
    the marker of its room, whose id is then well-formed. *)
Lemma POST_publish_effect (roomId : string) (request : Request) (s : Server) :
  kv (snd (POST_publish roomId request s)) = kv s \/
  exists role text,
    Room.isValidRoomId roomId = true /\
    kv (snd (POST_publish roomId request s))
    = apply_effect (Described roomId role text) (kv s).
Proof.
  unfold POST_publish.
  destruct (Room.isValidRoomId roomId) eqn:Hv; cbn [negb]; [|left; reflexivity].
  run_async.
  destruct (truthy (read (kv s) (exists_key roomId))); cbn [negb]; [|left; reflexivity].
  destruct (json_body request) as [body|]; [|left; reflexivity].
  destruct (get body "type") as [type|]; [|left; reflexivity].
  destruct (get body "data") as [data|];
    [|destruct (negb (is_str type "offer") && negb (is_str type "answer")); left; reflexivity].
  destruct (negb (truthy data) || negb (typeof_object data));
    [destruct (negb (is_str type "offer") && negb (is_str type "answer")); left; reflexivity|].
  destruct (is_str type "offer") eqn:Eo; cbn [negb andb].
  - apply is_str_eq in Eo. subst type. right. exists Offer, (JSON_stringify data).
    split; reflexivity.
  - destruct (is_str type "answer") eqn:Ea; cbn [negb]; [|left; reflexivity].
    apply is_str_eq in Ea. subst type. right. exists Answer, (JSON_stringify data).
    split; reflexivity.
Qed.

(** A publish either answers [{ ok: true }], for a body whose [type] is a
    role and whose [data] is a truthy object, and leaves the description
    and the marker; or it refuses and leaves the store as it was. *)
Lemma POST_publish_cases (roomId : string) (request : Request) (s : Server) :
  let r := POST_publish roomId request s in
  (fst r = Returned ok_response /\
   Room.isValidRoomId roomId = true /\
   truthy (read (kv s) (exists_key roomId)) = true /\
   exists body role data,
     json_body request = Some body /\
     get body "type" = Some (Str (signal_name role)) /\
     get body "data" = Some data /\
     truthy data = true /\ typeof_object data = true /\
     kv (snd r) = apply_effect (Described roomId role (JSON_stringify data)) (kv s))
  \/
  (In (fst r) publish_refusals /\ kv (snd r) = kv s).
Proof.
  cbv zeta. unfold POST_publish.
  destruct (Room.isValidRoomId roomId) eqn:Hv; cbn [negb];
    [|right; split; [cbn; auto | reflexivity]].
  run_async.
  destruct (truthy (read (kv s) (exists_key roomId))) eqn:Hl; cbn [negb];
    [|right; split; [cbn; auto | reflexivity]].
  destruct (json_body request) as [body|] eqn:Hb;
    [|right; split; [cbn; auto 10 | reflexivity]].
  destruct (get body "type") as [type|] eqn:Ht;
    [|right; split; [cbn; auto 10 | reflexivity]].
  destruct (is_str type "offer") eqn:Eo; cbn [negb andb].
  - apply is_str_eq in Eo.
    destruct (get body "data") as [data|] eqn:Hd;
      [|right; split; [cbn; auto 10 | reflexivity]].
    destruct (truthy data) eqn:Hy; cbn [negb orb];
      [|right; split; [cbn; auto 10 | reflexivity]].
    destruct (typeof_object data) eqn:Ho; cbn [negb];
      [|right; split; [cbn; auto 10 | reflexivity]].
    left. split; [reflexivity|]. split; [reflexivity|]. split; [reflexivity|].
    exists body, Offer, data. subst type. repeat split; first [assumption | reflexivity].
  - destruct (is_str type "answer") eqn:Ea; cbn [negb];
      [|right; split; [cbn; auto 10 | reflexivity]].
    apply is_str_eq in Ea.
    destruct (get body "data") as [data|] eqn:Hd;
      [|right; split; [cbn; auto 10 | reflexivity]].
    destruct (truthy data) eqn:Hy; cbn [negb orb];
      [|right; split; [cbn; auto 10 | reflexivity]].
    destruct (typeof_object data) eqn:Ho; cbn [negb];
      [|right; split; [cbn; auto 10 | reflexivity]].
    left. split; [reflexivity|]. split; [reflexivity|]. split; [reflexivity|].
    exists body, Answer, data. subst type. repeat split; first [assumption | reflexivity].
Qed.

Lemma poll_keeps_store (roomId : string) (s : Server) :
  kv (snd (GET_poll roomId s)) = kv s /\ kv (snd (GET_poll_direct roomId s)) = kv s.
Proof.
  split.
  - unfold GET_poll. run_async. split_cases; reflexivity.
  - unfold GET_poll_direct. run_async. split_cases; reflexivity.
Qed.

(** Every request leaves the store in one of the three ways, and the room
    it writes to has a well-formed id. *)
Lemma handle_effect (c : Call) (s : Server) :
  exists e,
    kv (snd (handle c s)) = apply_effect e (kv s) /\
    (forall roomId, effect_room e = Some roomId -> Room.isValidRoomId roomId = true).
Proof.
  destruct c as [|roomId request|roomId|roomId]; cbn [handle].
  - destruct (POST_create_effect s) as (id & s' & Hrun & Hkv & Hv).
    exists (Marked id). rewrite Hrun. split; [exact Hkv|].
    intros x [= <-]. exact Hv.
  - destruct (POST_publish_effect roomId request s) as [Hkv | (role & text & Hv & Hkv)].
    + exists Untouched. split; [exact Hkv | discriminate].
    + exists (Described roomId role text). split; [exact Hkv|].
      intros x [= <-]. exact Hv.
  - exists Untouched. split; [apply poll_keeps_store | discriminate].
  - exists Untouched. split; [apply poll_keeps_store | discriminate].
Qed.

Lemma remaining_fresh (m : gmap string Entry) (k k' : string) (v : Value) :
  remaining (<[ k := fresh v ]> m) k'
  = if decide (k = k') then ROOM_TTL_SECONDS else remaining m k'.
Proof.
  unfold remaining. destruct (decide (k = k')) as [<-|Hne].
  - rewrite lookup_insert_eq. reflexivity.
  - rewrite lookup_insert_ne by exact Hne. reflexivity.
Qed.

Lemma remaining_elapse (n : N) (m : gmap string Entry) (k : string) :
  remaining (elapse (Z.of_N n) m) k = Z.max 0 (remaining m k - Z.of_N n).
Proof.
  unfold remaining, elapse. rewrite lookup_omap.
  destruct (m !! k) as [e|]; cbn; [|lia].
  destruct (Z.of_N n <? entry_ttl e) eqn:E; cbn.
  - apply Z.ltb_lt in E. lia.
  - apply Z.ltb_ge in E. lia.
Qed.


Lemma store_inv_empty : store_inv ∅.
Proof.
  unfold store_inv, remaining. repeat split; intros.
  - rewrite lookup_empty. unfold ROOM_TTL_SECONDS. lia.
  - rewrite !lookup_empty. lia.
  - rewrite lookup_empty in H. discriminate.
  - rewrite lookup_empty in H. destruct H as [? H]. discriminate.
Qed.

Lemma store_inv_marked (m : gmap string Entry) (roomId : string) :
  Room.isValidRoomId roomId = true ->
  store_inv m -> store_inv (<[ exists_key roomId := fresh (Str "1") ]> m).
Proof.
  intros Hv (Hmax & Hle & Hone & Hshape). repeat split.
  - intros key. rewrite remaining_fresh. destruct (decide _); [lia | apply Hmax].
  - intros id role. rewrite !remaining_fresh.
    destruct (decide (exists_key roomId = signal_key id role)) as [E|_];
      [symmetry in E; destruct (signal_key_not_marker _ _ _ E)|].
    destruct (decide _); [|apply Hle].
    etransitivity; [apply Hle | apply Hmax].
  - intros id e. destruct (decide (exists_key roomId = exists_key id)) as [E|Hne].
    + rewrite <- E, lookup_insert_eq. intros [= <-]. reflexivity.
    + rewrite lookup_insert_ne by exact Hne. apply Hone.
  - intros key. destruct (decide (exists_key roomId = key)) as [<-|Hne].
    + intros _. exists roomId, ":exists". split; [exact Hv|]. split; [cbn; auto | reflexivity].
    + rewrite lookup_insert_ne by exact Hne. apply Hshape.
Qed.

Lemma store_inv_described (m : gmap string Entry) (roomId : string) (role : SignalType)
    (text : string) :
  Room.isValidRoomId roomId = true ->
  store_inv m -> store_inv (apply_effect (Described roomId role text) m).
Proof.
  intros Hv (Hmax & Hle & Hone & Hshape). cbn [apply_effect]. repeat split.
  - intros key. rewrite !remaining_fresh. repeat destruct (decide _); try lia. apply Hmax.
  - intros id r. rewrite !remaining_fresh.
    destruct (decide (exists_key roomId = signal_key id r)) as [E|_];
      [symmetry in E; destruct (signal_key_not_marker _ _ _ E)|].
    destruct (decide (signal_key roomId role = exists_key id)) as [E|_];
      [destruct (signal_key_not_marker _ _ _ E)|].
    destruct (decide (signal_key roomId role = signal_key id r)) as [E|_].
    + apply signal_key_inj in E as [<- _].
      destruct (decide (exists_key roomId = exists_key roomId)); [lia | congruence].
    + destruct (decide _); [|apply Hle].
      etransitivity; [apply Hle | apply Hmax].
  - intros id e. destruct (decide (exists_key roomId = exists_key id)) as [E|Hne].
    + rewrite <- E, lookup_insert_eq. intros [= <-]. reflexivity.
    + rewrite lookup_insert_ne by exact Hne.
      rewrite lookup_insert_ne by apply signal_key_not_marker. apply Hone.
  - intros key. destruct (decide (exists_key roomId = key)) as [<-|Hne].
    + intros _. exists roomId, ":exists". split; [exact Hv|]. split; [cbn; auto | reflexivity].
    + rewrite lookup_insert_ne by exact Hne.
      destruct (decide (signal_key roomId role = key)) as [<-|Hne'].
      * intros _. destruct (signal_key_ending roomId role) as (u & Hu & _ & Eu & _).
        exists roomId, u. split; [exact Hv|]. split; [exact Hu | exact Eu].
      * rewrite lookup_insert_ne by exact Hne'. apply Hshape.
Qed.

Lemma store_inv_elapse (n : N) (m : gmap string Entry) :
  store_inv m -> store_inv (elapse (Z.of_N n) m).
Proof.
  intros (Hmax & Hle & Hone & Hshape). repeat split.
  - intros key. rewrite remaining_elapse. specialize (Hmax key).
    unfold ROOM_TTL_SECONDS in *. lia.
  - intros id r. rewrite !remaining_elapse. specialize (Hle id r). lia.
  - intros id e. unfold elapse. rewrite lookup_omap.
    destruct (m !! exists_key id) as [e0|] eqn:E; cbn; [|discriminate].
    destruct (Z.of_N n <? entry_ttl e0); cbn; [|discriminate].
    intros [= <-]. cbn. eapply Hone, E.
  - intros key [e He]. apply Hshape. unfold elapse in He. rewrite lookup_omap in He.
    destruct (m !! key) as [e0|]; [eexists; reflexivity | discriminate].
Qed.

Lemma store_inv_after (s : Server) (st : Step) :
  store_inv (kv s) -> store_inv (kv (after s st)).
Proof.
  intros Hinv. destruct st as [c|n]; cbn [after].
  - destruct (handle_effect c s) as (e & -> & Hv). destruct e as [|id|id role text].
    + exact Hinv.
    + apply store_inv_marked; [apply Hv; reflexivity | exact Hinv].
    + apply store_inv_described; [apply Hv; reflexivity | exact Hinv].
  - apply store_inv_elapse, Hinv.
Qed.

Lemma store_inv_history (s : Server) (steps : list Step) :
  store_inv (kv s) -> store_inv (kv (history s steps)).
Proof.
  revert s. induction steps as [|st steps IH]; intros s H; [exact H|].
  apply IH, store_inv_after, H.
Qed.

(** X8: in every history of a relay that starts with an empty store,
    every key of the store is [room:<id>:exists], [room:<id>:offer] or
    [room:<id>:answer] for an id that passes [isValidRoomId], every entry
    has at most 300 seconds left, and a marker holds ["1"]. *)
Theorem stored_keys_are_rooms (c : Room.Crypto) (steps : list Step) :
  map_Forall
    (fun key e =>
       entry_ttl e <= 300 /\
       exists roomId,
         Room.isValidRoomId roomId = true /\
         ((key = exists_key roomId /\ entry_value e = Str "1") \/
          exists role, key = signal_key roomId role))
    (kv (history (empty_relay c) steps)).
Proof.
  pose proof (store_inv_history (empty_relay c) steps store_inv_empty)
    as (Hmax & _ & Hone & Hshape).
  intros key e He. split.
  - specialize (Hmax key). unfold remaining in Hmax. rewrite He in Hmax.
    unfold ROOM_TTL_SECONDS in Hmax. lia.
  - destruct (Hshape key) as (roomId & u & Hv & Hu & ->); [eexists; exact He|].
    exists roomId. split; [exact Hv|].
    cbn [key_endings In] in Hu. destruct Hu as [<-|[<-|[<-|[]]]].
    + left. split; [reflexivity|]. eapply Hone. exact He.
    + right. exists Offer. reflexivity.
    + right. exists Answer. reflexivity.
Qed.



(** *** Publish, poll, and the passing of time *)

(** What a poll answers depends on the store only through the values read
    under the four keys of its room. *)
Lemma poll_same_reads (roomId : string) (s1 s2 : Server) :
  (forall key, In key (polled_keys roomId) -> read (kv s1) key = read (kv s2) key) ->
  fst (GET_poll roomId s1) = fst (GET_poll roomId s2) /\
  fst (GET_poll_direct roomId s1) = fst (GET_poll_direct roomId s2).
Proof.
  intros H.
  assert (Hm : read (kv s1) (exists_key roomId) = read (kv s2) (exists_key roomId))
    by (apply H; cbn; auto).
  assert (Ho : read (kv s1) ("room:" +:+ roomId +:+ ":offer")
               = read (kv s2) ("room:" +:+ roomId +:+ ":offer"))
    by (apply (H (signal_key roomId Offer)); cbn; auto).
  assert (Ha : read (kv s1) ("room:" +:+ roomId +:+ ":answer")
               = read (kv s2) ("room:" +:+ roomId +:+ ":answer"))
    by (apply (H (signal_key roomId Answer)); cbn; auto).
  assert (Hl : read (kv s1) ("room:" +:+ roomId) = read (kv s2) ("room:" +:+ roomId))
    by (apply (H (legacy_key roomId)); cbn; auto).
  split.
  - unfold GET_poll. destruct (negb (Room.isValidRoomId roomId)); [reflexivity|].
    run_async. cbn [kv logged]. rewrite Hm.
    destruct (negb (truthy (read (kv s2) (exists_key roomId)))); [reflexivity|].
    cbv beta. cbn [kv logged fst]. rewrite Ho, Ha, Hl. reflexivity.
  - unfold GET_poll_direct. destruct (negb (Room.isValidRoomId roomId)); [reflexivity|].
    run_async. cbn [kv logged]. rewrite Hm.
    destruct (negb (truthy (read (kv s2) (exists_key roomId)))); [reflexivity|].
    cbv beta. cbn [kv logged fst]. rewrite Ho, Ha.
    destruct (truthy (read (kv s2) ("room:" +:+ roomId +:+ ":offer")));
      [destruct (JSON_parse _); [|reflexivity]|];
      (destruct (truthy (read (kv s2) ("room:" +:+ roomId +:+ ":answer")));
       [destruct (JSON_parse _)|]; reflexivity).
Qed.

Lemma reads_apart (e : Effect) (a b : string) (m : gmap string Entry) :
  effect_room e = Some a ->
  Room.isValidRoomId a = true -> Room.isValidRoomId b = true -> a <> b ->
  forall key, In key (polled_keys b) -> read (apply_effect e m) key = read m key.
Proof.
  intros He Ha Hb Hne key Hkey.
  assert (Hmarker : exists_key a <> key).
  { cbn [polled_keys In] in Hkey. destruct Hkey as [<-|[<-|[<-|[<-|[]]]]].
    - intros E. apply exists_key_inj in E. exact (Hne E).
    - intros E. symmetry in E. exact (signal_key_not_marker _ _ _ E).
    - intros E. symmetry in E. exact (signal_key_not_marker _ _ _ E).
    - intros E. symmetry in E.
      exact (legacy_key_apart b a ":exists" Hb Ha ltac:(cbn; auto) E). }
  destruct e as [|id|id role text]; cbn [effect_room] in He; try discriminate;
    injection He as ->; cbn [apply_effect].
  - apply read_insert_ne, Hmarker.
  - rewrite read_insert_ne by exact Hmarker. apply read_insert_ne.
    cbn [polled_keys In] in Hkey. destruct Hkey as [<-|[<-|[<-|[<-|[]]]]].
    + apply signal_key_not_marker.
    + intros E. apply signal_key_inj in E as [E _]. exact (Hne E).
    + intros E. apply signal_key_inj in E as [E _]. exact (Hne E).
    + intros E. symmetry in E.
      destruct (signal_key_ending a role) as (u & Hu & _ & Eu & _). rewrite Eu in E.
      exact (legacy_key_apart b a u Hb Ha Hu E).
Qed.

(** X6: rooms are isolated. Whatever is published to a room, with
    whatever body, a poll of another room answers as it did before; and
    so it does after a room with another id has been created. *)
Theorem rooms_are_isolated (a b : string) (request : Request) (s : Server) :
  a <> b ->
  (let s' := snd (POST_publish a request s) in
   fst (GET_poll b s') = fst (GET_poll b s) /\
   fst (GET_poll_direct b s') = fst (GET_poll_direct b s)) /\
  (fst (POST_create s) = Returned (JsonResponse (Obj [("roomId", Str a)])) ->
   let s' := snd (POST_create s) in
   fst (GET_poll b s') = fst (GET_poll b s) /\
   fst (GET_poll_direct b s') = fst (GET_poll_direct b s)).
Proof.
  intros Hne.
  assert (Hbad : Room.isValidRoomId b = false ->
                 forall s1 s2, fst (GET_poll b s1) = fst (GET_poll b s2) /\
                               fst (GET_poll_direct b s1) = fst (GET_poll_direct b s2)).
  { intros Hb s1 s2. unfold GET_poll, GET_poll_direct. rewrite Hb. split; reflexivity. }
  split.
  - intros s'. destruct (Room.isValidRoomId b) eqn:Hb; [|apply Hbad; reflexivity].
    apply poll_same_reads. intros key Hkey. unfold s'.
    destruct (POST_publish_effect a request s) as [-> | (role & text & Ha & ->)];
      [reflexivity|].
    apply (reads_apart (Described a role text) a b); auto.
  - intros Hcreated s'.
    destruct (Room.isValidRoomId b) eqn:Hb; [|apply Hbad; reflexivity].
    apply poll_same_reads. intros key Hkey. unfold s'.
    destruct (POST_create_effect s) as (id & s1 & Hrun & Hkv & Hv).
    rewrite Hrun in Hcreated |- *. cbn [fst snd] in *. injection Hcreated as ->.
    rewrite Hkv. apply (reads_apart (Marked a) a b); auto.
Qed.

Lemma POST_publish_ok (roomId : string) (role : SignalType)
    (description : list (string * Value)) (s : Server) :
  Room.isValidRoomId roomId = true ->
  truthy (read (kv s) (exists_key roomId)) = true ->
  fst (POST_publish roomId (publish_request role description) s) = Returned ok_response /\
  kv (snd (POST_publish roomId (publish_request role description) s))
  = apply_effect (Described roomId role (JSON_stringify (Obj description))) (kv s).
Proof.
  intros Hv Hl. unfold POST_publish. rewrite (valid_negb _ Hv). run_async.
  rewrite Hl. destruct role; split; reflexivity.
Qed.

Lemma safeParse_stored (v : Value) :
  survives_json v -> safeParse (Str (JSON_stringify v)) = v.
Proof.
  intros [Hp Hne]. unfold safeParse. cbn [truthy].
  destruct (String.eqb (JSON_stringify v) "") eqn:E;
    [apply String.eqb_eq in E; destruct (Hne E)|].
  cbn [negb]. rewrite Hp. reflexivity.
Qed.

Lemma parse_or_null_stored (v : Value) (s : Server) :
  survives_json v -> parse_or_null (Str (JSON_stringify v)) s = (Returned v, s).
Proof.
  intros [Hp Hne]. unfold parse_or_null. cbn [truthy to_string].
  destruct (String.eqb (JSON_stringify v) "") eqn:E;
    [apply String.eqb_eq in E; destruct (Hne E)|].
  cbn [negb]. rewrite Hp. reflexivity.
Qed.

Lemma signal_keys_apart (roomId : string) (role role' : SignalType) :
  role <> role' -> signal_key roomId role <> signal_key roomId role'.
Proof. intros Hne E. apply signal_key_inj in E as [_ E]. exact (Hne E). Qed.

(** The field of the published role, and the other field, after a publish. *)
Lemma poll_field_described (roomId : string) (role : SignalType)
    (description : list (string * Value)) (s s' : Server) :
  Room.isValidRoomId roomId = true ->
  survives_json (Obj description) ->
  kv s' = apply_effect (Described roomId role (JSON_stringify (Obj description))) (kv s) ->
  poll_field s' roomId (signal_name role) = Obj description /\
  forall role', role' <> role ->
    poll_field s' roomId (signal_name role') = poll_field s roomId (signal_name role').
Proof.
  intros Hv Hj Hkv. unfold poll_field. rewrite Hkv. cbn [apply_effect].
  change ("room:" +:+ roomId +:+ ":" +:+ signal_name role) with (signal_key roomId role).
  split.
  - rewrite read_insert_ne by (intros E; symmetry in E; exact (signal_key_not_marker _ _ _ E)).
    rewrite read_fresh, (safeParse_stored _ Hj). reflexivity.
  - intros role' Hne.
    change ("room:" +:+ roomId +:+ ":" +:+ signal_name role') with (signal_key roomId role').
    change ("room:" +:+ roomId) with (legacy_key roomId).
    rewrite !(read_insert_ne _ (exists_key roomId)).
    + rewrite !(read_insert_ne _ (signal_key roomId role)); [reflexivity | |].
      * destruct (signal_key_ending roomId role) as (u & Hu & _ & Eu & _). rewrite Eu.
        intros E. symmetry in E. exact (legacy_key_apart roomId roomId u Hv Hv Hu E).
      * apply signal_keys_apart. congruence.
    + intros E. symmetry in E.
      exact (legacy_key_apart roomId roomId ":exists" Hv Hv ltac:(cbn; auto) E).
    + intros E. symmetry in E. exact (signal_key_not_marker _ _ _ E).
Qed.

(** X5: what is published is what a poll answers. After a publish of a
    description object for a role to a live room, the poll with
    [safeParse] answers that description in the role's field and, in the
    other field, what it answered before; the hypotheses are that the id
    is well-formed, the room is live, and [JSON.parse] reads the
    serialised description back. *)
Theorem publish_then_poll (roomId : string) (role : SignalType)
    (description : list (string * Value)) (s : Server) :
  Room.isValidRoomId roomId = true ->
  truthy (read (kv s) (exists_key roomId)) = true ->
  survives_json (Obj description) ->
  let s' := snd (POST_publish roomId (publish_request role description) s) in
  fst (POST_publish roomId (publish_request role description) s) = Returned ok_response /\
  fst (GET_poll roomId s')
  = Returned (poll_response
                (match role with
                 | Offer => Obj description
                 | Answer => poll_field s roomId "offer"
                 end)
                (match role with
                 | Offer => poll_field s roomId "answer"
                 | Answer => Obj description
                 end)).
Proof.
  intros Hv Hl Hj s'. destruct (POST_publish_ok roomId role description s Hv Hl) as [Hok Hkv].
  split; [exact Hok|]. fold s' in Hkv.
  destruct (poll_field_described roomId role description s s' Hv Hj Hkv) as [Hrole Hother].
  rewrite GET_poll_answers; [|exact Hv|].
  - destruct role; cbn [signal_name] in Hrole; rewrite Hrole.
    + pose proof (Hother Answer ltac:(discriminate)) as H. cbn [signal_name] in H.
      rewrite H. reflexivity.
    + pose proof (Hother Offer ltac:(discriminate)) as H. cbn [signal_name] in H.
      rewrite H. reflexivity.
  - rewrite Hkv. cbn [apply_effect]. rewrite read_fresh. reflexivity.
Qed.

(** X4: a publish is all or nothing, and what it answers is decided by
    the id, the marker and the body, in this order. An id that is not
    well-formed is answered 400 [Invalid room]; a well-formed id whose
    marker is not live, 404 [Room not found]; for a well-formed id of a
    live room, a JSON body whose [type] is ["offer"] or ["answer"] and
    whose [data] is a truthy object (an array counts) is answered
    [{ ok: true }]. Whenever the answer is [{ ok: true }] the id is
    well-formed, the marker was live and the body is such a body; the
    role's key now reads the serialised [data] and the marker reads
    ["1"], both for 300 seconds, and every other key is as it was. In
    every other case the answer is 400 or 404, or the handler throws
    ([request.json()] fails, or the body is [null]), and the store is as
    it was. *)
Theorem publish_all_or_nothing (roomId : string) (request : Request) (s : Server) :
  let r := POST_publish roomId request s in
  let valid := Room.isValidRoomId roomId in
  let live := truthy (read (kv s) (exists_key roomId)) in
  (valid = false -> fst r = Returned (TextResponse "Invalid room" 400)) /\
  (valid = true -> live = false -> fst r = Returned (TextResponse "Room not found" 404)) /\
  (forall body role data,
      valid = true -> live = true ->
      json_body request = Some body ->
      get body "type" = Some (Str (signal_name role)) ->
      get body "data" = Some data -> truthy data = true -> typeof_object data = true ->
      fst r = Returned ok_response) /\
  ((fst r = Returned ok_response /\
    valid = true /\ live = true /\
    exists body role data,
      json_body request = Some body /\
      get body "type" = Some (Str (signal_name role)) /\
      get body "data" = Some data /\ truthy data = true /\ typeof_object data = true /\
      read (kv (snd r)) (signal_key roomId role) = Str (JSON_stringify data) /\
      read (kv (snd r)) (exists_key roomId) = Str "1" /\
      remaining (kv (snd r)) (signal_key roomId role) = 300 /\
      remaining (kv (snd r)) (exists_key roomId) = 300 /\
      forall key, key <> signal_key roomId role -> key <> exists_key roomId ->
                  kv (snd r) !! key = kv s !! key)
   \/
   (In (fst r) publish_refusals /\ kv (snd r) = kv s)).
Proof.
  intros r valid live.
  split; [|split; [|split]].
  - intros Hv. unfold r, POST_publish. fold valid. rewrite Hv. reflexivity.
  - intros Hv Hl. unfold r, POST_publish. fold valid. rewrite Hv. cbn [negb]. run_async.
    fold live. rewrite Hl. reflexivity.
  - intros body role data Hv Hl Hb Ht Hd Hy Ho.
    unfold r, POST_publish. fold valid. rewrite Hv. cbn [negb]. run_async.
    fold live. rewrite Hl, Hb, Ht, Hd, Hy, Ho. destruct role; reflexivity.
  - destruct (POST_publish_cases roomId request s)
      as [(Hok & Hv & Hl & body & role & data & Hb & Ht & Hd & Hy & Ho & Hkv) | Hrefused];
      [left | right; exact Hrefused].
    fold r in Hok, Hkv. split; [exact Hok|]. split; [exact Hv|]. split; [exact Hl|].
    exists body, role, data. rewrite Hkv. cbn [apply_effect].
    assert (Hne : exists_key roomId <> signal_key roomId role)
      by (intros E; symmetry in E; exact (signal_key_not_marker _ _ _ E)).
    repeat split; try assumption.
    + rewrite read_insert_ne by exact Hne. apply read_fresh.
    + apply read_fresh.
    + rewrite !remaining_fresh.
      destruct (decide (exists_key roomId = signal_key roomId role)); [reflexivity|].
      destruct (decide (signal_key roomId role = signal_key roomId role));
        [reflexivity | congruence].
    + rewrite remaining_fresh.
      destruct (decide (exists_key roomId = exists_key roomId)); [reflexivity | congruence].
    + intros key Hk1 Hk2. rewrite !lookup_insert_ne by congruence. reflexivity.
Qed.

Lemma marker_after (m : gmap string Entry) (roomId : string) (t : N) :
  truthy (read (elapse (Z.of_N t) (<[ exists_key roomId := fresh (Str "1") ]> m))
               (exists_key roomId))
  = (t <? 300)%N.
Proof.
  rewrite marker_lifetime by apply N2Z.is_nonneg.
  destruct (t <? 300)%N eqn:E.
  - apply N.ltb_lt in E. apply Z.ltb_lt. lia.
  - apply N.ltb_ge in E. apply Z.ltb_ge. lia.
Qed.

Lemma poll_not_found (roomId : string) (s : Server) :
  Room.isValidRoomId roomId = true ->
  truthy (read (kv s) (exists_key roomId)) = false ->
  fst (GET_poll roomId s) = Returned (TextResponse "Room not found" 404) /\
  fst (GET_poll_direct roomId s) = Returned (TextResponse "Room not found" 404).
Proof.
  intros Hv Hl. unfold GET_poll, GET_poll_direct. rewrite (valid_negb _ Hv).
  run_async. rewrite Hl. split; reflexivity.
Qed.

Lemma poll_found (roomId : string) (s : Server) :
  Room.isValidRoomId roomId = true ->
  truthy (read (kv s) (exists_key roomId)) = true ->
  fst (GET_poll roomId s) <> Returned (TextResponse "Room not found" 404) /\
  fst (GET_poll_direct roomId s) <> Returned (TextResponse "Room not found" 404).
Proof.
  intros Hv Hl. split.
  - rewrite (GET_poll_answers _ _ Hv Hl). discriminate.
  - unfold GET_poll_direct. rewrite (valid_negb _ Hv). run_async. rewrite Hl.
    cbn [negb]. split_cases; discriminate.
Qed.

(** A room whose marker was just written is found by the polls for the
    next 300 seconds and not after. *)
Lemma marked_room_lifetime (roomId : string) (s : Server) (m : gmap string Entry) (t : N) :
  Room.isValidRoomId roomId = true ->
  kv s = <[ exists_key roomId := fresh (Str "1") ]> m ->
  (fst (GET_poll roomId (pass t s)) = Returned (TextResponse "Room not found" 404)
   <-> (300 <= t)%N) /\
  (fst (GET_poll_direct roomId (pass t s)) = Returned (TextResponse "Room not found" 404)
   <-> (300 <= t)%N).
Proof.
  intros Hv Hkv.
  assert (Hl : truthy (read (kv (pass t s)) (exists_key roomId)) = (t <? 300)%N)
    by (cbn [pass kv]; rewrite Hkv; apply marker_after).
  destruct (t <? 300)%N eqn:E.
  - apply N.ltb_lt in E. destruct (poll_found roomId (pass t s) Hv Hl) as [H1 H2].
    split; (split; [intros H; contradiction | lia]).
  - apply N.ltb_ge in E. destruct (poll_not_found roomId (pass t s) Hv Hl) as [H1 H2].
    split; (split; [intros _; exact E | intros _; assumption]).
Qed.

(** X7: a room lives 300 seconds from its last write. The id that
    [POST_create] answers, and the id of a publish that answered
    [{ ok: true }], are reported as not found by a poll [t] seconds later
    exactly when [t >= 300]; a publish thus renews the whole window. *)
Theorem room_lifetime (s : Server) (roomId : string) (request : Request) (t : N) :
  (exists created,
      fst (POST_create s) = Returned (JsonResponse (Obj [("roomId", Str created)])) /\
      Room.isValidRoomId created = true /\
      let s' := pass t (snd (POST_create s)) in
      (fst (GET_poll created s') = Returned (TextResponse "Room not found" 404)
       <-> (300 <= t)%N) /\
      (fst (GET_poll_direct created s') = Returned (TextResponse "Room not found" 404)
       <-> (300 <= t)%N)) /\
  (fst (POST_publish roomId request s) = Returned ok_response ->
   let s' := pass t (snd (POST_publish roomId request s)) in
   (fst (GET_poll roomId s') = Returned (TextResponse "Room not found" 404)
    <-> (300 <= t)%N) /\
   (fst (GET_poll_direct roomId s') = Returned (TextResponse "Room not found" 404)
    <-> (300 <= t)%N)).
Proof.
  split.
  - destruct (POST_create_effect s) as (id & s1 & Hrun & Hkv & Hv).
    exists id. rewrite Hrun. split; [reflexivity|]. split; [exact Hv|].
    cbn [snd]. exact (marked_room_lifetime id s1 _ t Hv Hkv).
  - intros Hok s'.
    destruct (POST_publish_cases roomId request s)
      as [(_ & Hv & _ & body & role & data & _ & _ & _ & _ & _ & Hkv) | (Hin & _)].
    + exact (marked_room_lifetime roomId _ _ t Hv Hkv).
    + rewrite Hok in Hin. cbn [publish_refusals In] in Hin.
      repeat (destruct Hin as [Hin|Hin]; [discriminate Hin|]). destruct Hin.
Qed.

(** *** The handshake of the two pages *)

Lemma candidate_valid (k : nat) (c : Room.Crypto) :
  Room.isValidRoomId (candidate k c) = true.
Proof. unfold candidate. apply generateRoomId_valid. Qed.

(** With no live marker for the first candidate, [POST_create] answers
    it after one test. *)
Lemma POST_create_fresh (s : Server) :
  truthy (read (kv s) (exists_key (candidate 0 (crypto s)))) = false ->
  exists s',
    POST_create s
    = (Returned (JsonResponse (Obj [("roomId", Str (candidate 0 (crypto s)))])), s') /\
    kv s' = <[ exists_key (candidate 0 (crypto s)) := fresh (Str "1") ]> (kv s).
Proof.
  intros Hdead. eexists. split.
  - unfold POST_create. unfold bind at 1.
    rewrite generateRoomId_candidate. unfold bind at 1.
    cbn [create_loop]. unfold bind at 1, kv_get at 1. cbn [kv]. rewrite Hdead.
    cbn [andb]. run_async. reflexivity.
  - reflexivity.
Qed.

Lemma lookup_pass (t : N) (s : Server) (key : string) :
  kv (pass t s) !! key
  = match kv s !! key with
    | Some e =>
        if Z.of_N t <? entry_ttl e
        then Some {| entry_value := entry_value e; entry_ttl := entry_ttl e - Z.of_N t |}
        else None
    | None => None
    end.
Proof.
  cbn [pass kv]. unfold elapse. rewrite lookup_omap.
  destruct (kv s !! key); reflexivity.
Qed.

Lemma read_pass (t : N) (s : Server) (key : string) :
  read (kv (pass t s)) key
  = match kv s !! key with
    | Some e => if Z.of_N t <? entry_ttl e then entry_value e else Null
    | None => Null
    end.
Proof. cbn [pass kv]. apply read_elapse, N2Z.is_nonneg. Qed.

Lemma read_absent (m : gmap string Entry) (key : string) :
  m !! key = None -> read m key = Null.
Proof. intros H. unfold read. rewrite H. reflexivity. Qed.

(** The answer of the poll that parses the two keys directly, when both
    parse. *)
Lemma GET_poll_direct_answers (roomId : string) (s : Server) (offer answer : Value) :
  Room.isValidRoomId roomId = true ->
  truthy (read (kv s) (exists_key roomId)) = true ->
  (forall s0, parse_or_null (read (kv s) (signal_key roomId Offer)) s0 = (Returned offer, s0)) ->
  (forall s0, parse_or_null (read (kv s) (signal_key roomId Answer)) s0 = (Returned answer, s0)) ->
  fst (GET_poll_direct roomId s) = Returned (poll_response offer answer).
Proof.
  intros Hv Hl Ho Ha. unfold GET_poll_direct. rewrite (valid_negb _ Hv).
  unfold bind at 1, kv_get at 1. rewrite Hl. cbn [negb].
  unfold bind at 1, kv_get at 1. unfold bind at 1, kv_get at 1.
  cbn [kv logged].
  change ("room:" +:+ roomId +:+ ":offer") with (signal_key roomId Offer).
  change ("room:" +:+ roomId +:+ ":answer") with (signal_key roomId Answer).
  unfold bind at 1. rewrite Ho. unfold bind at 1. rewrite Ha. reflexivity.
Qed.

(** The two fields of a poll whose room holds no legacy record. *)
Lemma poll_field_plain (s : Server) (roomId : string) (role : SignalType) :
  read (kv s) (legacy_key roomId) = Null ->
  poll_field s roomId (signal_name role)
  = nullish (safeParse (read (kv s) (signal_key roomId role))) Null.
Proof.
  intros Hl. unfold poll_field.
  change ("room:" +:+ roomId) with (legacy_key roomId). rewrite Hl.
  change ("room:" +:+ roomId +:+ ":" +:+ signal_name role) with (signal_key roomId role).
  destruct (safeParse (read (kv s) (signal_key roomId role))); reflexivity.
Qed.

(** X10: the handshake through the relay. On a relay with an empty store
    the computer creates a room and gets the first candidate id; it
    publishes its offer [t1] seconds later; [t2] seconds after that the
    phone's poll answers that offer and no answer; the phone publishes its
    answer; [t3] seconds later the computer's poll answers that answer,
    and the offer as long as it is younger than 300 seconds. Both poll
    handlers answer the same. Hypotheses: each pause is shorter than 300
    seconds, and [JSON.parse] reads the two serialised descriptions back. *)
Theorem handshake (c : Room.Crypto) (offer answer : list (string * Value)) (t1 t2 t3 : N) :
  (t1 < 300)%N -> (t2 < 300)%N -> (t3 < 300)%N ->
  survives_json (Obj offer) -> survives_json (Obj answer) ->
  let roomId := candidate 0 c in
  let s1 := history (empty_relay c)
              [Serve Create; Pass t1;
               Serve (Publish roomId (publish_request Offer offer)); Pass t2] in
  let s2 := history s1
              [Serve (Publish roomId (publish_request Answer answer)); Pass t3] in
  let kept := if (t2 + t3 <? 300)%N then Obj offer else Null in
  fst (handle Create (empty_relay c))
  = Returned (JsonResponse (Obj [("roomId", Str roomId)])) /\
  fst (handle (Poll roomId) s1) = Returned (poll_response (Obj offer) Null) /\
  fst (handle (PollDirect roomId) s1) = Returned (poll_response (Obj offer) Null) /\
  fst (handle (Poll roomId) s2) = Returned (poll_response kept (Obj answer)) /\
  fst (handle (PollDirect roomId) s2) = Returned (poll_response kept (Obj answer)).
Proof.
  intros Ht1 Ht2 Ht3 Hjo Hja roomId s1 s2 kept.
  pose proof (candidate_valid 0 c) as Hv. fold roomId in Hv.
  set (mk := exists_key roomId). set (ok := signal_key roomId Offer).
  set (ak := signal_key roomId Answer). set (lk := legacy_key roomId).
  assert (Hmo : mk <> ok) by (intros E; symmetry in E; exact (signal_key_not_marker _ _ _ E)).
  assert (Hma : mk <> ak) by (intros E; symmetry in E; exact (signal_key_not_marker _ _ _ E)).
  assert (Hoa : ok <> ak) by (apply signal_keys_apart; discriminate).
  assert (Hml : mk <> lk).
  { intros E. symmetry in E.
    exact (legacy_key_apart roomId roomId ":exists" Hv Hv ltac:(cbn; auto) E). }
  assert (Hol : ok <> lk).
  { intros E. symmetry in E.
    exact (legacy_key_apart roomId roomId ":offer" Hv Hv ltac:(cbn; auto) E). }
  assert (Hal : ak <> lk).
  { intros E. symmetry in E.
    exact (legacy_key_apart roomId roomId ":answer" Hv Hv ltac:(cbn; auto) E). }
  (* the room is created *)
  destruct (POST_create_fresh (empty_relay c)) as (sa & Hcreate & Hkva).
  { unfold read. cbn [empty_relay kv]. rewrite lookup_empty. reflexivity. }
  cbn [empty_relay kv crypto] in Hcreate, Hkva. fold roomId in Hcreate, Hkva. fold mk in Hkva.
  (* the offer is published after t1 seconds *)
  set (sb := snd (POST_publish roomId (publish_request Offer offer) (pass t1 sa))).
  assert (Hs1 : s1 = pass t2 sb).
  { unfold s1, history. cbn [fold_left after handle]. rewrite Hcreate. reflexivity. }
  assert (Hlive_a : truthy (read (kv (pass t1 sa)) mk) = true).
  { cbn [pass kv]. rewrite Hkva. unfold mk. rewrite marker_after. apply N.ltb_lt, Ht1. }
  destruct (POST_publish_ok roomId Offer offer (pass t1 sa) Hv Hlive_a) as [_ Hkvb].
  fold sb in Hkvb. cbn [apply_effect] in Hkvb. fold mk ok in Hkvb.
  assert (Hnone_a : forall key, key <> mk -> kv (pass t1 sa) !! key = None).
  { intros key Hk. rewrite lookup_pass, Hkva, lookup_insert_ne by congruence.
    rewrite lookup_empty. reflexivity. }
  (* the phone polls after t2 seconds *)
  assert (Hlive_1 : truthy (read (kv s1) mk) = true).
  { rewrite Hs1. cbn [pass kv]. rewrite Hkvb. unfold mk. rewrite marker_after.
    apply N.ltb_lt, Ht2. }
  assert (Hok_1 : kv s1 !! ok
                  = Some {| entry_value := Str (JSON_stringify (Obj offer));
                            entry_ttl := 300 - Z.of_N t2 |}).
  { rewrite Hs1, lookup_pass, Hkvb, lookup_insert_ne, lookup_insert_eq by exact Hmo.
    cbn [fresh entry_ttl entry_value]. change ROOM_TTL_SECONDS with 300.
    replace (Z.of_N t2 <? 300) with true by (symmetry; apply Z.ltb_lt; lia). reflexivity. }
  assert (Hak_1 : kv s1 !! ak = None).
  { rewrite Hs1, lookup_pass, Hkvb, !lookup_insert_ne, Hnone_a by congruence. reflexivity. }
  assert (Hlk_1 : kv s1 !! lk = None).
  { rewrite Hs1, lookup_pass, Hkvb, !lookup_insert_ne, Hnone_a by congruence. reflexivity. }
  assert (Hro_1 : read (kv s1) ok = Str (JSON_stringify (Obj offer))).
  { unfold read, live. rewrite Hok_1. cbn [entry_ttl entry_value].
    replace (0 <? 300 - Z.of_N t2) with true by (symmetry; apply Z.ltb_lt; lia). reflexivity. }
  (* the answer is published, and the computer polls after t3 seconds *)
  set (sc := snd (POST_publish roomId (publish_request Answer answer) s1)).
  assert (Hs2 : s2 = pass t3 sc) by reflexivity.
  destruct (POST_publish_ok roomId Answer answer s1 Hv Hlive_1) as [_ Hkvc].
  fold sc in Hkvc. cbn [apply_effect] in Hkvc. fold mk ak in Hkvc.
  assert (Hlive_2 : truthy (read (kv s2) mk) = true).
  { rewrite Hs2. cbn [pass kv]. rewrite Hkvc. unfold mk. rewrite marker_after.
    apply N.ltb_lt, Ht3. }
  assert (Hra_2 : read (kv s2) ak = Str (JSON_stringify (Obj answer))).
  { rewrite Hs2, read_pass, Hkvc, lookup_insert_ne, lookup_insert_eq by exact Hma.
    cbn [fresh entry_ttl entry_value]. change ROOM_TTL_SECONDS with 300.
    replace (Z.of_N t3 <? 300) with true by (symmetry; apply Z.ltb_lt; lia). reflexivity. }
  assert (Hro_2 : read (kv s2) ok
                  = if (t2 + t3 <? 300)%N then Str (JSON_stringify (Obj offer)) else Null).
  { rewrite Hs2, read_pass, Hkvc, !lookup_insert_ne, Hok_1 by congruence.
    cbn [entry_ttl entry_value].
    destruct (t2 + t3 <? 300)%N eqn:E.
    - apply N.ltb_lt in E.
      replace (Z.of_N t3 <? 300 - Z.of_N t2) with true by (symmetry; apply Z.ltb_lt; lia).
      reflexivity.
    - apply N.ltb_ge in E.
      replace (Z.of_N t3 <? 300 - Z.of_N t2) with false by (symmetry; apply Z.ltb_ge; lia).
      reflexivity. }
  assert (Hrl_2 : read (kv s2) lk = Null).
  { rewrite Hs2, read_pass, Hkvc, !lookup_insert_ne, Hlk_1 by congruence. reflexivity. }
  assert (Hkept : nullish (safeParse (read (kv s2) ok)) Null = kept).
  { rewrite Hro_2. unfold kept. destruct (t2 + t3 <? 300)%N; [|reflexivity].
    rewrite (safeParse_stored _ Hjo). reflexivity. }
  assert (Hkept' : forall s0, parse_or_null (read (kv s2) ok) s0 = (Returned kept, s0)).
  { intros s0. rewrite Hro_2. unfold kept. destruct (t2 + t3 <? 300)%N; [|reflexivity].
    apply parse_or_null_stored, Hjo. }
  cbn [handle]. split; [rewrite Hcreate; reflexivity|].
  split; [|split; [|split]].
  - rewrite (GET_poll_answers _ _ Hv Hlive_1).
    pose proof (poll_field_plain s1 roomId Offer (read_absent _ _ Hlk_1)) as Po.
    pose proof (poll_field_plain s1 roomId Answer (read_absent _ _ Hlk_1)) as Pa.
    cbn [signal_name] in Po, Pa. rewrite Po, Pa.
    fold ok ak. rewrite Hro_1, (read_absent _ _ Hak_1), (safeParse_stored _ Hjo). reflexivity.
  - apply (GET_poll_direct_answers _ _ _ _ Hv Hlive_1); fold ok ak; intros s0.
    + rewrite Hro_1. apply parse_or_null_stored, Hjo.
    + rewrite (read_absent _ _ Hak_1). reflexivity.
  - rewrite (GET_poll_answers _ _ Hv Hlive_2).
    pose proof (poll_field_plain s2 roomId Offer Hrl_2) as Po.
    pose proof (poll_field_plain s2 roomId Answer Hrl_2) as Pa.
    cbn [signal_name] in Po, Pa. rewrite Po, Pa.
    fold ok ak. rewrite Hkept, Hra_2, (safeParse_stored _ Hja). reflexivity.
  - apply (GET_poll_direct_answers _ _ _ _ Hv Hlive_2); fold ok ak; intros s0.
    + apply Hkept'.
    + rewrite Hra_2. apply parse_or_null_stored, Hja.
Qed.

End SignalingFacts.

Section SignalingRuns.
Import Js Relay Signaling.

(** Witness of [rooms_are_isolated]: an offer published to ABC123 while
    XYZ789 is live too. *)
Lemma rooms_are_isolated_witness :
  let s := server_with (<[ "room:XYZ789:exists" := fresh (Str "1") ]> store_offer_broken) in
  let request := publish_request Offer [("type", Str "offer"); ("sdp", Str "v=0")] in
  "ABC123" <> "XYZ789" /\
  fst (POST_publish "ABC123" request s) = Returned ok_response /\
  fst (GET_poll "XYZ789" (snd (POST_publish "ABC123" request s)))
  = fst (GET_poll "XYZ789" s).
Proof.
  intros s request.
  assert (Hne : "ABC123" <> "XYZ789") by discriminate.
  split; [exact Hne|]. split; [vm_compute; reflexivity|].
  exact (proj1 (proj1 (rooms_are_isolated "ABC123" "XYZ789" request s Hne))).
Defined.

(** Witness of [publish_then_poll]: the answer published to a room that
    holds an offer. *)
Lemma publish_then_poll_witness :
  let s := server_with store_offer_object in
  let answer := [("type", Str "answer"); ("sdp", Str "v=0")] in
  fst (GET_poll "ABC123" (snd (POST_publish "ABC123" (publish_request Answer answer) s)))
  = Returned (poll_response description (Obj answer)).
Proof.
  intros s answer.
  assert (Hv : Room.isValidRoomId "ABC123" = true) by reflexivity.
  assert (Hl : truthy (read (kv s) (exists_key "ABC123")) = true) by (vm_compute; reflexivity).
  assert (Hj : survives_json (Obj answer))
    by (split; [vm_compute; reflexivity | vm_compute; discriminate]).
  destruct (publish_then_poll "ABC123" Answer answer s Hv Hl Hj) as [_ H].
  rewrite H. vm_compute. reflexivity.
Defined.

(** Witness of [handshake]: pauses of 2, 1 and 1 seconds. *)
Lemma handshake_witness :
  let c := crypto (server_with ∅) in
  let offer := [("type", Str "offer"); ("sdp", Str "v=0")] in
  let answer := [("type", Str "answer"); ("sdp", Str "v=0")] in
  let roomId := candidate 0 c in
  let s1 := history (empty_relay c)
              [Serve Create; Pass 2;
               Serve (Publish roomId (publish_request Offer offer)); Pass 1] in
  let s2 := history s1
              [Serve (Publish roomId (publish_request Answer answer)); Pass 1] in
  roomId = "AAAAAA" /\
  fst (handle (Poll roomId) s1) = Returned (poll_response (Obj offer) Null) /\
  fst (handle (Poll roomId) s2) = Returned (poll_response (Obj offer) (Obj answer)).
Proof.
  intros c offer answer roomId s1 s2.
  assert (Hjo : survives_json (Obj offer))
    by (split; [vm_compute; reflexivity | vm_compute; discriminate]).
  assert (Hja : survives_json (Obj answer))
    by (split; [vm_compute; reflexivity | vm_compute; discriminate]).
  destruct (handshake c offer answer 2 1 1 eq_refl eq_refl eq_refl Hjo Hja)
    as (_ & H1 & _ & H2 & _).
  split; [reflexivity|]. split; [exact H1 | exact H2].
Defined.

End SignalingRuns.

(** ** Room codes on their way to the phone *)

Section JoinFacts.
Import Room Join.

Lemma toUpperCase_chars (s : string) :
  list_ascii_of_string (toUpperCase s) = map toUpperCase_char (list_ascii_of_string s).
Proof. induction s as [|c s IH]; cbn; congruence. Qed.

Lemma toUpperCase_length (s : string) : String.length (toUpperCase s) = String.length s.
Proof. induction s as [|c s IH]; cbn; congruence. Qed.

(** Upper-casing leaves the symbols of the alphabet as they are. *)
Lemma toUpperCase_alphabet (s : string) :
  Forall (fun ch => in_alphabet ch = true) (list_ascii_of_string s) -> toUpperCase s = s.
Proof.
  induction s as [|c s IH]; [reflexivity|]. cbn [list_ascii_of_string toUpperCase].
  intros H. inversion H as [|x l Hc Hs]; subst. rewrite (IH Hs). f_equal.
  unfold in_alphabet in Hc. apply existsb_exists in Hc as (x & Hx & Hcx).
  apply Ascii.eqb_eq in Hcx. subst x. revert Hx.
  cbn [list_ascii_of_string ROOM_ALPHABET In].
  intros Hx. repeat (destruct Hx as [<- | Hx]; [reflexivity|]). destruct Hx.
Qed.

(** After upper-casing, the class of the regular expression holds
    exactly of the letters of either case and the digits. *)
Lemma class_after_toUpperCase (c : ascii) :
  class_matches (char_class ROOM_ID_REGEX) (toUpperCase_char c) = alphanumeric c.
Proof. destruct c as [[] [] [] [] [] [] [] []]; reflexivity. Qed.

(** X1: every id [generateRoomId] makes is accepted on its way to the
    phone. It passes [isValidRoomId], so the publish and poll routes do
    not answer 400; its i-th symbol is the alphabet's symbol for the i-th
    byte drawn, and six bytes are drawn; upper-casing leaves it as it is,
    so the phone page opened with [?room=<id>] connects at once, passes
    the test of [connect], and polls that very id. *)
Theorem generated_id_is_accepted (c : Crypto) (s : Phone.Sender) :
  let id := fst (generateRoomId c) in
  isValidRoomId id = true /\
  (forall i, (i < 6)%nat ->
     String.get i id = Some (symbol_char (feed c (drawn c + i)%nat mod 256))) /\
  drawn (snd (generateRoomId c)) = (drawn c + 6)%nat /\
  setRoomInput (initialRoom (Some id)) = id /\
  on_mount (Some id) s
  = (Phone.setError None (Phone.setStatus Phone.Connecting s), true).
Proof.
  intros id. pose proof (generateRoomId_valid c) as (Hv & _ & Hall). fold id in Hv, Hall.
  assert (Hup : toUpperCase id = id) by (apply toUpperCase_alphabet, Hall).
  split; [exact Hv|]. split; [|split; [reflexivity|split]].
  - intros i Hi. unfold id, generateRoomId, getRandomValues. cbn [fst].
    rewrite encode_position, nth_error_map.
    rewrite (nth_error_nth' _ 0%nat) by (rewrite length_seq; exact Hi).
    rewrite seq_nth by exact Hi. reflexivity.
  - exact Hup.
  - unfold on_mount, connect_entry, setRoomInput. cbn [initialRoom].
    rewrite Hup, Hv.
    destruct (String.eqb id "") eqn:E; [|reflexivity].
    apply String.eqb_eq in E. rewrite E in Hv. discriminate Hv.
Qed.

(** X2: for a typed text of ASCII characters, the phone's [connect] goes
    on to poll exactly when the text has six characters, each a letter of
    either case or a digit: the text is upper-cased before
    [isValidRoomId] tests it, so the lower-case form of an id is
    accepted, and so are the letters I and O. *)
Theorem phone_accepts_code (typed : string) (s : Phone.Sender) :
  ascii_text typed ->
  (snd (connect_entry (setRoomInput typed) s) = true <->
   String.length typed = 6%nat /\
   Forall (fun c => alphanumeric c = true) (list_ascii_of_string typed)).
Proof.
  intros _. unfold connect_entry, setRoomInput.
  assert (H : isValidRoomId (toUpperCase typed) = true <->
              String.length typed = 6%nat /\
              Forall (fun c => alphanumeric c = true) (list_ascii_of_string typed)).
  { unfold isValidRoomId. rewrite test_true, match_repeat_all.
    rewrite toUpperCase_length, toUpperCase_chars.
    change (repeat_count ROOM_ID_REGEX) with 6%nat.
    rewrite List.Forall_map.
    split; intros [Hl Hf]; (split; [exact Hl|]);
      eapply List.Forall_impl; try exact Hf; intros c Hc; cbv beta in *;
      [rewrite <- class_after_toUpperCase | rewrite class_after_toUpperCase]; exact Hc. }
  destruct (isValidRoomId (toUpperCase typed)) eqn:E; cbn [negb snd].
  - split; [intros _; apply H; reflexivity | reflexivity].
  - split; [discriminate | intros G; apply H in G; discriminate G].
Qed.

(** Witness of X2: a code typed in lower case, with the letters I and O. *)
Lemma phone_accepts_code_witness :
  snd (connect_entry (setRoomInput "ab12io") Phone.initial) = true.
Proof.
  apply (phone_accepts_code "ab12io" Phone.initial).
  - unfold ascii_text. repeat constructor; cbn; lia.
  - split; [reflexivity | repeat constructor].
Defined.

End JoinFacts.

(** ** The sender in every run *)

Section SenderAnyRun.
Import Wire Phone.
Context {json : JsonRuntime}.

Lemma loop_head_completed (s : Sender) :
  status s <> Completed ->
  status (loop_head s) = Completed -> pc (loop_head s) = Finished.
Proof.
  intros Hs. unfold loop_head.
  destruct (selectedFile s) as [f0|]; [|intros H; destruct (Hs H)].
  destruct (channelRef s) as [ch|]; [|intros H; destruct (Hs H)].
  destruct (offset s <? file_size f0).
  - destruct (bufferedAmount ch <=? BUFFERED_HIGH_WATER_MARK); intros H; destruct (Hs H).
  - unfold after_loop. destruct (send _ ch); [reflexivity | discriminate].
Qed.

Lemma after_read_completed (s : Sender) :
  status s <> Completed ->
  status (after_read s) = Completed -> pc (after_read s) = Finished.
Proof.
  intros Hs. unfold after_read.
  destruct (selectedFile s) as [f0|]; [|intros H; destruct (Hs H)].
  destruct (channelRef s) as [ch|]; [|intros H; destruct (Hs H)].
  destruct (send _ ch) as [ch'|]; [|discriminate].
  destruct (Z.rem _ 8 =? 0); [intros H; destruct (Hs H)|].
  apply loop_head_completed. exact Hs.
Qed.

Lemma sendFile_completed (s : Sender) :
  status (sendFile s) = Completed -> pc (sendFile s) = Finished.
Proof.
  unfold sendFile.
  destruct (selectedFile s) as [f0|]; [|discriminate].
  destruct (channelRef s) as [ch|]; [|discriminate].
  destruct (readyState ch); try discriminate.
  destruct (send _ ch) as [ch'|]; [|discriminate].
  apply loop_head_completed. discriminate.
Qed.

(** The status is ["completed"] only when [sendFile] has run to its end. *)
Lemma step_completed (s : Sender) (e : Event) :
  (status s = Completed -> pc s = Finished) ->
  status (step s e) = Completed -> pc (step s e) = Finished.
Proof.
  intros J.
  assert (Hrun : pc s <> Finished -> status s <> Completed)
    by (intros Hp Hs; exact (Hp (J Hs))).
  destruct e; unfold step.
  - destruct (status s) eqn:Hst;
      try (intros H0; first [apply J; reflexivity | congruence]).
    apply sendFile_completed.
  - destruct (pc s) eqn:Hpc; try (intros H0; first [exact Hpc | discriminate (J H0)]).
    apply after_read_completed, Hrun. discriminate.
  - destruct (pc s) eqn:Hpc; try (intros H0; first [exact Hpc | discriminate (J H0)]).
    apply loop_head_completed, Hrun. discriminate.
  - destruct (pc s) as [|[due|next]| | | |] eqn:Hpc;
      intros H0; first [exact Hpc | discriminate (J H0)].
  - destruct (pc s) as [|[due|next]| | | |] eqn:Hpc;
      try destruct (due <=? clock s);
      intros H0; first [exact Hpc | discriminate (J H0)].
  - destruct (pc s) as [|[due|next]| | | |] eqn:Hpc;
      try (destruct (next <=? clock s);
           [destruct (channelRef s) as [ch|];
            [destruct (bufferedAmount ch <=? BUFFERED_LOW_WATER_MARK)|]|]);
      intros H0; first [exact Hpc | discriminate (J H0)].
  - assert (G : status (on_channel (transmit n) s) = Completed ->
                pc (on_channel (transmit n) s) = Finished)
      by (unfold on_channel; destruct (channelRef s); exact J).
    destruct (pc s) as [|[due|next]| | | |] eqn:Hpc; exact G.
  - destruct (pc s) as [|[due|next]| | | |] eqn:Hpc;
      intros H0; first [exact Hpc | discriminate (J H0)].
  - destruct (pc s) as [|[due|next]| | | |]; discriminate.
Qed.

Lemma run_completed (s : Sender) (events : list Event) :
  (status s = Completed -> pc s = Finished) ->
  status (run s events) = Completed -> pc (run s events) = Finished.
Proof.
  revert s. induction events as [|e events IH]; intros s J; [exact J|].
  apply IH, step_completed, J.
Qed.

(** X11: what the sender has put on the channel, in every run from a
    chosen file and an open channel, whatever the events (timers,
    transport, a closing channel, clicks): nothing; or the [meta] message
    and binary frames that are, in order, the first [bytesSent] bytes of
    the file; or these for the whole file and then [done]. There is never
    a second [meta], never a frame after [done], never a byte that is not
    the file's next one. And the status is ["completed"] only if the
    channel carries the whole transfer. *)
Theorem wire_is_a_prefix_of_the_transfer (f : File) (buffered0 : N) (events : list Event) :
  let s := run (ready f buffered0) events in
  (on_wire s = [] \/
   exists frames,
     concat frames = firstn (Z.to_nat (bytesSent s)) (file_bytes f) /\
     Forall (fun fr => 0 < byteLength fr <= CHUNK_SIZE) frames /\
     (on_wire s = Text (meta_text f) :: map Binary frames \/
      (on_wire s = Text (meta_text f) :: map Binary frames ++ [Text done_text] /\
       bytesSent s = file_size f))) /\
  (status s = Completed ->
   exists frames,
     on_wire s = Text (meta_text f) :: map Binary frames ++ [Text done_text] /\
     concat frames = file_bytes f).
Proof.
  intros s.
  pose proof (run_inv f (ready f buffered0) events (ready_inv f buffered0)) as Hinv.
  fold s in Hinv. destruct Hinv as (_ & Hbs & _ & ch & Hch & _ & Hw).
  assert (Hwire : on_wire s = sent ch) by (unfold on_wire; rewrite Hch; reflexivity).
  assert (Hwhole : firstn (Z.to_nat (file_size f)) (file_bytes f) = file_bytes f).
  { apply firstn_all2. unfold file_size, byteLength. lia. }
  split.
  - rewrite Hwire, Hbs. unfold wire_inv in Hw.
    destruct (pc s).
    + left. destruct Hw as (Ho & _). unfold sent. rewrite Ho. reflexivity.
    + right. destruct Hw as (frames & Hs & (_ & Hcat & Hall & _) & _). exists frames. auto.
    + right. destruct Hw as (frames & Hs & (_ & Hcat & Hall & _) & _). exists frames. auto.
    + right. destruct Hw as (frames & Hs & (_ & Hcat & Hall & _)). exists frames. auto.
    + right. destruct Hw as (frames & Hs & (_ & Hcat & Hall & _) & Hoff). exists frames.
      rewrite Hoff. auto.
    + right. destruct Hw as (frames & Hs & (_ & Hcat & Hall & _)). exists frames. auto.
  - intros Hdone.
    assert (Hpc : pc s = Finished).
    { apply (run_completed (ready f buffered0) events); [discriminate | exact Hdone]. }
    unfold wire_inv in Hw. rewrite Hpc in Hw.
    destruct Hw as (frames & Hs & (_ & Hcat & _) & _). exists frames.
    rewrite Hwire. split; [exact Hs|]. rewrite Hcat. exact Hwhole.
Qed.

Lemma send_closed (d : Data) (ch : Channel) : readyState ch = Closed -> send d ch = None.
Proof. intros H. unfold send. rewrite H. reflexivity. Qed.

Lemma catch_after_close (message : string) (s : Sender) :
  Hangup.after_close s ->
  Hangup.after_close (catch message s) /\
  on_wire (catch message s) = on_wire s /\ bytesSent (catch message s) = bytesSent s.
Proof. intros [_ Hch]. repeat split. exact Hch. Qed.

Lemma set_pc_after_close (p : Pc) (s : Sender) :
  Hangup.after_close s ->
  Hangup.after_close (set_pc p s) /\
  on_wire (set_pc p s) = on_wire s /\ bytesSent (set_pc p s) = bytesSent s.
Proof. intros H. repeat split; apply H. Qed.

Lemma same_after_close (s : Sender) :
  Hangup.after_close s ->
  Hangup.after_close s /\ on_wire s = on_wire s /\ bytesSent s = bytesSent s.
Proof. intros H. repeat split; apply H. Qed.

Lemma loop_head_after_close (s : Sender) :
  Hangup.after_close s ->
  Hangup.after_close (loop_head s) /\
  on_wire (loop_head s) = on_wire s /\ bytesSent (loop_head s) = bytesSent s.
Proof.
  intros H. unfold loop_head.
  destruct (selectedFile s) as [f0|]; [|apply same_after_close, H].
  destruct (channelRef s) as [ch|] eqn:Hch; [|apply same_after_close, H].
  destruct (offset s <? file_size f0).
  - destruct (bufferedAmount ch <=? BUFFERED_HIGH_WATER_MARK); apply set_pc_after_close, H.
  - unfold after_loop. rewrite send_closed by (apply H, Hch). apply catch_after_close, H.
Qed.

(** After the close, no task of the event loop sends anything. *)
Lemma step_after_close (s : Sender) (e : Event) :
  Hangup.after_close s ->
  Hangup.after_close (step s e) /\
  on_wire (step s e) = on_wire s /\ bytesSent (step s e) = bytesSent s.
Proof.
  intros H. pose proof H as [Hst Hclosed]. destruct e; unfold step.
  - rewrite Hst. apply same_after_close, H.
  - destruct (pc s); try (apply same_after_close, H). unfold after_read.
    destruct (selectedFile s) as [f0|]; [|apply same_after_close, H].
    destruct (channelRef s) as [ch|] eqn:Hch; [|apply same_after_close, H].
    rewrite send_closed by (apply H, Hch). apply catch_after_close, H.
  - destruct (pc s); try (apply same_after_close, H). apply loop_head_after_close, H.
  - destruct (pc s) as [|[due|next]| | | |]; try (apply same_after_close, H).
    apply set_pc_after_close, H.
  - destruct (pc s) as [|[due|next]| | | |]; try (apply same_after_close, H).
    destruct (due <=? clock s); [apply set_pc_after_close, H | apply same_after_close, H].
  - destruct (pc s) as [|[due|next]| | | |]; try (apply same_after_close, H).
    destruct (next <=? clock s); [|apply same_after_close, H].
    destruct (channelRef s) as [ch|]; [|apply same_after_close, H].
    destruct (bufferedAmount ch <=? BUFFERED_LOW_WATER_MARK); apply set_pc_after_close, H.
  - assert (G : Hangup.after_close (on_channel (transmit n) s) /\
                on_wire (on_channel (transmit n) s) = on_wire s /\
                bytesSent (on_channel (transmit n) s) = bytesSent s).
    { unfold Hangup.after_close, on_channel, on_wire.
      destruct (channelRef s) as [ch|] eqn:Hch; cbn; rewrite ?Hch;
        (split; [split; [exact Hst|] | split; reflexivity]).
      - intros ch' [= <-]. cbn. apply H, Hch.
      - discriminate. }
    destruct (pc s) as [|[due|next]| | | |]; exact G.
  - assert (G : Hangup.after_close (set_clock (clock s + Z.of_N ms) s) /\
                on_wire (set_clock (clock s + Z.of_N ms) s) = on_wire s /\
                bytesSent (set_clock (clock s + Z.of_N ms) s) = bytesSent s)
      by (repeat split; apply H).
    destruct (pc s) as [|[due|next]| | | |]; exact G.
  - assert (G : Hangup.after_close
                  (setStatus Error (setError (Some "Channel closed. Please reconnect.")
                                      (on_channel set_closed s))) /\
                on_wire (setStatus Error (setError (Some "Channel closed. Please reconnect.")
                                            (on_channel set_closed s))) = on_wire s /\
                bytesSent (setStatus Error (setError (Some "Channel closed. Please reconnect.")
                                              (on_channel set_closed s))) = bytesSent s).
    { unfold Hangup.after_close, on_channel, on_wire.
      destruct (channelRef s) as [ch|] eqn:Hch; cbn; rewrite ?Hch;
        (split; [split; [reflexivity|] | split; reflexivity]).
      - intros ch' [= <-]. reflexivity.
      - discriminate. }
    destruct (pc s) as [|[due|next]| | | |]; exact G.
Qed.

(** X12: a closed channel ends the transfer for good. From the task in
    which the channel dispatches [close], in whatever state that finds
    the sender (also ["completed"], after its own [channel.close()]),
    the status is ["error"] with the message of [onclose], and none of
    the later events (a click on "Send file", a settled read, a timer,
    the transport) changes the status, puts anything on the channel or
    advances the byte counter. *)
Theorem nothing_is_sent_after_close (s : Sender) (events : list Event) :
  let s1 := step s ChannelClose in
  let s2 := run s1 events in
  status s1 = Error /\
  error s1 = Some "Channel closed. Please reconnect." /\
  status s2 = Error /\ on_wire s2 = on_wire s1 /\ bytesSent s2 = bytesSent s1.
Proof.
  intros s1 s2.
  assert (H1 : Hangup.after_close s1 /\
               error s1 = Some "Channel closed. Please reconnect.").
  { unfold s1, step, Hangup.after_close, on_channel.
    destruct (pc s) as [|[due|next]| | | |]; destruct (channelRef s) as [ch|] eqn:Hch;
      cbn; rewrite ?Hch; repeat split; try discriminate; intros ch' [= <-]; reflexivity. }
  destruct H1 as [Hclosed Herr].
  split; [apply Hclosed|]. split; [exact Herr|].
  unfold s2. clearbody s1. clear s2 Herr. revert s1 Hclosed.
  induction events as [|e events IH]; intros s1 Hclosed.
  - repeat split. apply Hclosed.
  - destruct (step_after_close s1 e Hclosed) as (Hnext & Hw & Hb).
    cbn [run fold_left]. destruct (IH _ Hnext) as (Hst' & Hw' & Hb').
    unfold run in *. rewrite Hw', Hb'. repeat split; assumption.
Qed.

End SenderAnyRun.

(** ** The label of the countdown *)

Section LobbyFacts.
Import Lobby.

Lemma two_digits (k : nat) :
  (k < 60)%nat ->
  padStart 2 "0" (pretty (Z.of_nat k))
  = String (digit (Z.of_nat k / 10)) (String (digit (Z.of_nat k mod 10)) "").
Proof.
  intros Hk. do 60 (destruct k as [|k]; [vm_compute; reflexivity|]). lia.
Qed.

(** X17: the label of the countdown is the minutes, a colon, and the
    seconds in two digits: [countdownLabel] of [60 m + s] seconds, with
    [s] below 60, is the decimal [m], [":"], and the two digits of [s],
    the first of them ["0"] when [s] is below ten. *)
Theorem countdownLabel_format (n : N) :
  let seconds := Z.of_N n mod 60 in
  countdownLabel (Z.of_N n)
  = pretty (Z.of_N n / 60) +:+ ":"
    +:+ String (digit (seconds / 10)) (String (digit (seconds mod 10)) "").
Proof.
  cbv zeta. unfold countdownLabel. cbv zeta.
  rewrite Z.rem_mod_nonneg by lia.
  pose proof (Z.mod_pos_bound (Z.of_N n) 60 ltac:(lia)) as Hb.
  rewrite <- (Z2Nat.id (Z.of_N n mod 60)) by lia.
  rewrite two_digits by lia. reflexivity.
Qed.

End LobbyFacts.

(** ** The timed promises *)

Section TimerFacts.
Import Timers.

Lemma sleep_run_snoc (s : Sleep) (events : list Event) (e : Event) :
  sleep_run s (events ++ [e]) = sleep_step (sleep_run s events) e.
Proof. unfold sleep_run. rewrite fold_left_app. reflexivity. Qed.

(** What holds of a [sleep] at every moment. *)
Lemma sleep_state (now ms : Z) (signal : option bool) (events : list Event) :
  let s := sleep_run (sleep now ms signal) events in
  now <= clock s /\
  match promise s with
  | Pending =>
      timeoutId s = Some (now + ms) /\ signal <> Some true /\
      onAbort s = match signal with Some false => true | _ => false end
  | Resolved => timeoutId s = None /\ now + ms <= clock s /\ signal <> Some true
  | Rejected name =>
      name = "AbortError" /\ timeoutId s = None /\ onAbort s = false /\ signal <> None
  end.
Proof.
  induction events as [|e events IH] using rev_ind.
  - destruct signal as [[]|]; cbn; repeat split; try lia; discriminate.
  - cbv zeta in *. rewrite sleep_run_snoc.
    set (s := sleep_run (sleep now ms signal) events) in *.
    destruct IH as [Hclock Hstate].
    destruct e as [n| | |c]; cbn [sleep_step].
    + cbn. split; [lia|]. destruct (promise s); try exact Hstate.
      destruct Hstate as (? & ? & ?). repeat split; try assumption. lia.
    + destruct (promise s) eqn:Hp.
      * destruct Hstate as (Ht & Hs & Ha). rewrite Ht.
        destruct (now + ms <=? clock s) eqn:E.
        -- apply Z.leb_le in E. cbn. rewrite ?Hp. cbn. repeat split; assumption.
        -- rewrite ?Hp. repeat split; assumption.
      * destruct Hstate as (Ht & Hd & Hs). rewrite ?Ht, ?Hp.
        repeat split; assumption.
      * destruct Hstate as (Hn & Ht & Ha & Hs). rewrite ?Ht, ?Hp.
        repeat split; assumption.
    + destruct (promise s) eqn:Hp.
      * destruct Hstate as (Ht & Hs & Ha). rewrite Ha.
        destruct signal as [[]|]; cbn; rewrite ?Hp; cbn;
          repeat split; try assumption; try discriminate.
      * destruct Hstate as (Ht & Hd & Hs).
        destruct (onAbort s); cbn; rewrite ?Hp; cbn; repeat split; assumption.
      * destruct Hstate as (Hn & Ht & Ha & Hs). rewrite ?Ha, ?Hp.
        repeat split; assumption.
    + split; [exact Hclock | exact Hstate].
Qed.

Lemma sleep_step_settled (s : Sleep) (e : Event) :
  promise s <> Pending -> promise (sleep_step s e) = promise s.
Proof.
  intros Hs. destruct e as [n| | |c]; cbn [sleep_step]; try reflexivity.
  - destruct (timeoutId s) as [due|]; [|reflexivity].
    destruct (due <=? clock s); [|reflexivity]. cbn.
    destruct (promise s); [destruct (Hs eq_refl) | reflexivity | reflexivity].
  - destruct (onAbort s); [|reflexivity]. cbn.
    destruct (promise s); [destruct (Hs eq_refl) | reflexivity | reflexivity].
Qed.

(** X18: [sleep] settles once and in one of two ways. It resolves only
    when [ms] milliseconds have passed, and then by the timeout; it
    rejects only with [AbortError] and only when a signal was passed:
    at once when the signal had aborted already, else by the [abort]
    event if that comes before the timeout has fired. While it is
    pending, the due timeout resolves it and the signal's abort rejects
    it; once it is settled the timeout is cleared and no later event
    changes the outcome. *)
Theorem sleep_settles (now ms : Z) (signal : option bool) (events more : list Event) :
  let s := sleep_run (sleep now ms signal) events in
  (promise s = Resolved -> now + ms <= clock s /\ signal <> Some true) /\
  (forall name, promise s = Rejected name -> name = "AbortError" /\ signal <> None) /\
  (signal = Some true -> promise s = Rejected "AbortError") /\
  (promise s = Pending ->
     (now + ms <= clock s -> promise (sleep_step s TimeoutFires) = Resolved) /\
     (signal = Some false -> promise (sleep_step s SignalAborts) = Rejected "AbortError")) /\
  (promise s <> Pending ->
     timeoutId s = None /\ promise (sleep_run s more) = promise s).
Proof.
  intros s. destruct (sleep_state now ms signal events) as [Hclock Hstate].
  fold s in Hclock, Hstate.
  split; [|split; [|split; [|split]]].
  - intros Hp. rewrite Hp in Hstate. destruct Hstate as (_ & Hd & Hs). split; assumption.
  - intros name Hp. rewrite Hp in Hstate. destruct Hstate as (Hn & _ & _ & Hs).
    split; assumption.
  - intros ->. destruct (promise s) as [| |name].
    + destruct Hstate as (_ & Hs & _). destruct (Hs eq_refl).
    + destruct Hstate as (_ & _ & Hs). destruct (Hs eq_refl).
    + destruct Hstate as (-> & _). reflexivity.
  - intros Hp. rewrite Hp in Hstate. destruct Hstate as (Ht & _ & Ha). split.
    + intros Hd. cbn [sleep_step]. rewrite Ht.
      replace (now + ms <=? clock s) with true by (symmetry; apply Z.leb_le; exact Hd).
      cbn. rewrite Hp. reflexivity.
    + intros ->. cbn [sleep_step]. rewrite Ha. cbn. rewrite Hp. reflexivity.
  - intros Hp. split.
    + destruct (promise s); [destruct (Hp eq_refl) | apply Hstate | apply Hstate].
    + clear Hclock Hstate. revert Hp. generalize s. clear s.
      induction more as [|e more IH]; intros s Hp; [reflexivity|].
      cbn [sleep_run fold_left]. fold (sleep_run (sleep_step s e) more).
      rewrite IH; [apply sleep_step_settled, Hp|].
      rewrite sleep_step_settled; exact Hp.
Qed.

Lemma ice_run_snoc (w : IceWait) (events : list Event) (e : Event) :
  ice_run w (events ++ [e]) = ice_step (ice_run w events) e.
Proof. unfold ice_run. rewrite fold_left_app. reflexivity. Qed.

Lemma completes_snoc (events : list Event) (e : Event) :
  completes (events ++ [e])
  = completes events || match e with StateChange c => c | _ => false end.
Proof. unfold completes. rewrite existsb_app. cbn. rewrite orb_false_r. reflexivity. Qed.

(** What holds of a [waitForIceGatheringComplete] at every moment. *)
Lemma ice_state (now timeoutMs : Z) (complete : bool) (events : list Event) :
  let w := ice_run (waitForIceGatheringComplete now timeoutMs complete) events in
  now <= ice_clock w /\
  match ice_promise w with
  | Pending =>
      ice_timeoutId w = Some (now + timeoutMs) /\ onStateChange w = true /\
      complete = false /\ completes events = false
  | Resolved =>
      ice_timeoutId w = None /\ onStateChange w = false /\
      (complete = true \/ completes events = true \/ now + timeoutMs <= ice_clock w)
  | Rejected _ => False
  end.
Proof.
  induction events as [|e events IH] using rev_ind.
  - destruct complete; cbn; repeat split; try lia; auto.
  - cbv zeta in *. rewrite ice_run_snoc, completes_snoc.
    set (w := ice_run (waitForIceGatheringComplete now timeoutMs complete) events) in *.
    destruct IH as [Hclock Hstate].
    destruct e as [n| | |c]; cbn [ice_step]; rewrite ?orb_false_r.
    + cbn. split; [lia|]. destruct (ice_promise w); try exact Hstate.
      destruct Hstate as (? & ? & [?|[?|?]]); repeat split; auto. right. right. lia.
    + destruct (ice_promise w) eqn:Hp.
      * destruct Hstate as (Ht & Hl & Hc & He). rewrite Ht.
        destruct (now + timeoutMs <=? ice_clock w) eqn:E.
        -- apply Z.leb_le in E. cbn. rewrite ?Hp. cbn. repeat split; auto.
        -- rewrite ?Hp. repeat split; assumption.
      * destruct Hstate as (Ht & Hl & Hc). rewrite Ht, ?Hp. repeat split; assumption.
      * destruct Hstate.
    + split; [exact Hclock | exact Hstate].
    + destruct (ice_promise w) eqn:Hp.
      * destruct Hstate as (Ht & Hl & Hc & He). rewrite Hl, He. cbn [andb orb].
        destruct c; cbn; rewrite ?Hp; cbn; repeat split; auto.
      * destruct Hstate as (Ht & Hl & Hc). rewrite Hl. cbn [andb]. cbn. rewrite ?Hp.
        repeat split; try assumption.
        destruct Hc as [?|[->|?]]; auto.
      * destruct Hstate.
Qed.

(** X19: [waitForIceGatheringComplete] always resolves and never waits
    past its timeout. It is resolved at once when gathering is complete
    already; else it resolves by the first state change to ["complete"]
    or by the timeout, whichever comes first, and by nothing else; the
    due timeout resolves it whatever the state is. It never rejects, and
    when it has resolved, the timeout is cleared and the listener
    removed. *)
Theorem ice_wait_resolves (now timeoutMs : Z) (complete : bool) (events : list Event) :
  let w := ice_run (waitForIceGatheringComplete now timeoutMs complete) events in
  (forall name, ice_promise w <> Rejected name) /\
  (ice_promise w = Resolved <->
   complete = true \/ completes events = true \/
   (ice_timeoutId w = None /\ now + timeoutMs <= ice_clock w)) /\
  (ice_promise w = Resolved -> ice_timeoutId w = None /\ onStateChange w = false) /\
  (now + timeoutMs <= ice_clock w -> ice_promise (ice_step w TimeoutFires) = Resolved).
Proof.
  intros w. destruct (ice_state now timeoutMs complete events) as [Hclock Hstate].
  fold w in Hclock, Hstate.
  split; [|split; [|split]].
  - intros name Hp. rewrite Hp in Hstate. exact Hstate.
  - split.
    + intros Hp. rewrite Hp in Hstate. destruct Hstate as (Ht & _ & [?|[?|?]]); auto.
    + destruct (ice_promise w) as [| |name]; [|reflexivity | destruct Hstate].
      destruct Hstate as (Ht & _ & Hc & He). rewrite Hc, He, Ht.
      intros [H|[H|[H _]]]; discriminate H.
  - intros Hp. rewrite Hp in Hstate. destruct Hstate as (Ht & Hl & _). split; assumption.
  - intros Hd. cbn [ice_step].
    destruct (ice_promise w) as [| |name] eqn:Hp; [| |destruct Hstate].
    + destruct Hstate as (Ht & _). rewrite Ht.
      replace (now + timeoutMs <=? ice_clock w) with true
        by (symmetry; apply Z.leb_le; exact Hd).
      cbn. rewrite ?Hp. reflexivity.
    + destruct Hstate as (Ht & _). rewrite Ht. rewrite ?Hp. reflexivity.
Qed.

End TimerFacts.

(** ** Which id a created room gets *)

Section CreateFacts.
Import Js Relay.

(** X3: [POST_create] answers the first id it draws when that id has no
    live marker, and else the sixth id it draws: the marker it tests is
    the first id's at every turn of the loop, so what the store holds for
    the second to the sixth id plays no part. The marker of the id it
    answers is then written with the 300-second window, and nothing else
    of the store changes. *)
Theorem create_answers_first_or_sixth (s : Server) :
  let taken := truthy (read (kv s) (exists_key (candidate 0 (crypto s)))) in
  let roomId := candidate (if taken then 5 else 0) (crypto s) in
  fst (POST_create s) = Returned (JsonResponse (Obj [("roomId", Str roomId)])) /\
  kv (snd (POST_create s)) = <[ exists_key roomId := fresh (Str "1") ]> (kv s) /\
  Room.isValidRoomId roomId = true.
Proof.
  intros taken roomId.
  assert (Hfst : fst (POST_create s)
                 = Returned (JsonResponse (Obj [("roomId", Str roomId)]))).
  { unfold roomId. destruct taken eqn:Ht.
    - apply POST_create_live_first_marker. exact Ht.
    - destruct (POST_create_fresh s Ht) as (s' & Hrun & _). rewrite Hrun. reflexivity. }
  split; [exact Hfst|]. split; [|apply candidate_valid].
  destruct (POST_create_writes_marker s) as (id & s' & Hrun & Hkv).
  rewrite Hrun in Hfst |- *. cbn [fst snd] in *. injection Hfst as ->. exact Hkv.
Qed.

End CreateFacts.
